(** * The installer build pipeline of [tools/launcher/build_gui.py]

    A shallow embedding of the parts of [BuilderGUI] that sequence the
    build: [log] and [process_log_queue] (the log queue), [run_command]
    and [stop_build] (running and cancelling one external command) and
    [run_build] from its step 2 on (the stages, the fallback chain of the
    native rebuild, the signing environment, the search for the packaged
    app directory and the repair copy of [node_modules]); and of the parts
    that prepare a build: the rewriting of [electron-builder.yml]
    ([update_builder_yml_for_installer_sidebar],
    [auto_update_electron_builder_yml], [auto_configure_simplysign]), the
    application name in [package.json] ([apply_config_to_package_json],
    [load_app_name]), and what the owner thread does when a build ends
    ([build_finished], [cleanup_processes]).

    Python [str] values are lists of code points.  The worker thread's
    view of the outside world (file system, clock, the behaviour of the
    processes it spawns, the moment the owner presses stop) is an explicit
    [World] value threaded through a small state monad. *)

From Stdlib Require Import String Ascii NArith ZArith List Bool Lia.
From Stdlib Require Import DecimalString.
From stdpp Require Import gmap list sorting.
From Equations Require Import Equations.
Import ListNotations.

(** ** Python strings *)

(** A [str] is a sequence of Unicode code points. *)
Definition pystr := list N.

(** The source file is UTF-8; a literal is decoded to its code points. *)
Fixpoint utf8_go (bs : list N) (need : nat) (acc : N) : pystr :=
  match bs with
  | [] => []
  | b :: bs' =>
      match need with
      | S n =>
          let acc' := (acc * 64 + b mod 64)%N in
          match n with
          | O => acc' :: utf8_go bs' 0 0%N
          | S _ => utf8_go bs' n acc'
          end
      | O =>
          if (b <? 128)%N then b :: utf8_go bs' 0 0%N
          else if (b <? 224)%N then utf8_go bs' 1 (b mod 32)%N
          else if (b <? 240)%N then utf8_go bs' 2 (b mod 16)%N
          else utf8_go bs' 3 (b mod 8)%N
      end
  end.

Definition u (s : string) : pystr :=
  utf8_go (map N_of_ascii (list_ascii_of_string s)) 0 0%N.

(** [str.lower()].  Upper-case ASCII letters are mapped to lower case and
    every other code point is kept.  Python also lowers non-ASCII capitals,
    but the only code points outside A-Z whose lower-case form contains an
    ASCII letter are U+0130 (giving [i] followed by U+0307) and U+212A
    (giving [k]); neither can take part in an occurrence of "error" or
    "warn", the only words searched in a lowered line. *)
Definition lower_cp (c : N) : N :=
  if ((65 <=? c) && (c <=? 90))%N then (c + 32)%N else c.

Definition lower (s : pystr) : pystr := map lower_cp s.

(** [str.isspace()] on one code point. *)
Definition isspace (c : N) : bool :=
  (((9 <=? c) && (c <=? 13)) || ((28 <=? c) && (c <=? 32))
   || (c =? 133) || (c =? 160) || (c =? 5760)
   || ((8192 <=? c) && (c <=? 8202))
   || (c =? 8232) || (c =? 8233) || (c =? 8239) || (c =? 8287)
   || (c =? 12288))%N.

(** [s.rstrip()]: drop the trailing white space. *)
Fixpoint rstrip (s : pystr) : pystr :=
  match s with
  | [] => []
  | c :: s' =>
      match rstrip s' with
      | [] => if isspace c then [] else [c]
      | r => c :: r
      end
  end.

(** [s.lstrip()] and [s.strip()]. *)
Fixpoint lstrip (s : pystr) : pystr :=
  match s with
  | [] => []
  | c :: s' => if isspace c then lstrip s' else s
  end.

Definition strip (s : pystr) : pystr := lstrip (rstrip s).

(** [s.lstrip(chars)] for a one-character set, as in [lstrip('v')]. *)
Fixpoint lstrip_char (ch : N) (s : pystr) : pystr :=
  match s with
  | [] => []
  | c :: s' => if (c =? ch)%N then lstrip_char ch s' else s
  end.

(** [needle in s] on strings: [needle] occurs as a contiguous block. *)
Fixpoint starts_with (needle s : pystr) : bool :=
  match needle, s with
  | [], _ => true
  | _ :: _, [] => false
  | a :: needle', b :: s' => (a =? b)%N && starts_with needle' s'
  end.

Fixpoint contains (needle s : pystr) : bool :=
  starts_with needle s
  || match s with
     | [] => false
     | _ :: s' => contains needle s'
     end.

(** [str(n)] for an integer. *)
Definition str_Z (z : Z) : pystr :=
  u (NilEmpty.string_of_int (Z.to_int z)).

(** [sep.join(parts)]. *)
Fixpoint join (sep : pystr) (parts : list pystr) : pystr :=
  match parts with
  | [] => []
  | [p] => p
  | p :: ps => p ++ sep ++ join sep ps
  end.

(** ** Log tags and the classification of an output line *)

Inductive Tag := info | warning | error | success | step.

Definition LogEntry : Type := pystr * Tag.

(** The failure glyph printed by the packaging tool (U+2A2F). *)
Definition failure_glyph : pystr := u "⨯".

(** Lines 1827-1832 of [run_command]: the tag of a stripped, non-empty
    line. *)
Definition classify (line : pystr) : Tag :=
  if contains (u "error") (lower line) || contains failure_glyph line
  then error
  else if contains (u "warning") (lower line) || contains (u "warn") (lower line)
  then warning
  else info.

(** Lines 1824-1832: what one line read from the pipe contributes to the
    log.  The line is stripped on the right and dropped when nothing is
    left. *)
Definition line_entry (raw : pystr) : option LogEntry :=
  let line := rstrip raw in
  match line with
  | [] => None
  | _ :: _ => Some (u "   " ++ line, classify line)
  end.


(** ** The file system

    Paths are lists of components below the project directory.  A directory
    lists its entries in the order in which a traversal visits them; that
    order comes from [os.scandir] and is not sorted.  Names are compared
    exactly. *)

Definition Path := list pystr.

#[warnings="-register-all"]
Inductive Node :=
| File (mtime : Z)
| Dir (entries : list (pystr * Node)).

Definition pystr_eqb (a b : pystr) : bool := bool_decide (a = b).

Fixpoint assoc {A} (k : pystr) (es : list (pystr * A)) : option A :=
  match es with
  | [] => None
  | (k', v) :: es' => if pystr_eqb k k' then Some v else assoc k es'
  end.

Fixpoint lookup_path (p : Path) (n : Node) : option Node :=
  match p with
  | [] => Some n
  | c :: p' =>
      match n with
      | File _ => None
      | Dir es =>
          match assoc c es with
          | Some n' => lookup_path p' n'
          | None => None
          end
      end
  end.

(** [p.exists()], [p.is_dir()] and [os.path.getmtime(p)]. *)
Definition exists_ (p : Path) (root : Node) : bool :=
  match lookup_path p root with Some _ => true | None => false end.

Definition is_dir (p : Path) (root : Node) : bool :=
  match lookup_path p root with Some (Dir _) => true | _ => false end.

Definition getmtime (p : Path) (root : Node) : option Z :=
  match lookup_path p root with Some (File t) => Some t | _ => None end.

(** [p.parent] and [p.name]. *)
Definition parent (p : Path) : Path := removelast p.

Definition name (p : Path) : pystr := List.last p [].

(** [str(p)], with the project directory left out and [/] between the
    components. *)
Definition path_str (p : Path) : pystr := join (u "/") p.

(** [base.rglob(name)] as pathlib enumerates it: a match directly in a
    directory comes before the matches in its sub-directories, and the
    sub-directories are visited one after the other, depth first. *)
Fixpoint rglob_node (nm : pystr) (here : Path) (n : Node) : list Path :=
  match n with
  | File _ => []
  | Dir es =>
      (match assoc nm es with Some _ => [here ++ [nm]] | None => [] end)
      ++ (fix sub (l : list (pystr * Node)) : list Path :=
            match l with
            | [] => []
            | (c, n') :: l' => rglob_node nm (here ++ [c]) n' ++ sub l'
            end) es
  end.

Definition rglob (base : Path) (nm : pystr) (root : Node) : list Path :=
  match lookup_path base root with
  | Some n => rglob_node nm base n
  | None => []
  end.

(** [d.glob('*' + suffix)]: the entries of [d] whose name ends in
    [suffix], in listing order. *)
Definition ends_with (suffix s : pystr) : bool :=
  starts_with (rev suffix) (rev s).

Definition glob_suffix (d : Path) (suffix : pystr) (root : Node) : list Path :=
  match lookup_path d root with
  | Some (Dir es) =>
      map (fun e => d ++ [fst e]) (filter (fun e => ends_with suffix (fst e) = true) es)
  | _ => []
  end.

(** Removing and writing sub-trees: [shutil.rmtree], [mkdir(parents=True,
    exist_ok=True)] and [shutil.copytree]. *)
Fixpoint remove_assoc {A} (k : pystr) (es : list (pystr * A)) : list (pystr * A) :=
  match es with
  | [] => []
  | (k', v) :: es' =>
      if pystr_eqb k k' then remove_assoc k es' else (k', v) :: remove_assoc k es'
  end.

Fixpoint update_assoc {A} (k : pystr) (f : option A -> A) (es : list (pystr * A))
  : list (pystr * A) :=
  match es with
  | [] => [(k, f None)]
  | (k', v) :: es' =>
      if pystr_eqb k k' then (k', f (Some v)) :: es'
      else (k', v) :: update_assoc k f es'
  end.

Fixpoint remove_path (p : Path) (n : Node) : Node :=
  match p, n with
  | [], _ => n
  | _, File _ => n
  | [c], Dir es => Dir (remove_assoc c es)
  | c :: p', Dir es =>
      match assoc c es with
      | Some _ => Dir (update_assoc c (fun o => match o with
                                                | Some n' => remove_path p' n'
                                                | None => Dir []
                                                end) es)
      | None => n
      end
  end.

Fixpoint write_path (p : Path) (new : Node) (n : Node) : Node :=
  match p with
  | [] => new
  | c :: p' =>
      let es := match n with Dir es => es | File _ => [] end in
      Dir (update_assoc c (fun o => write_path p' new
                                      (match o with Some n' => n' | None => Dir [] end)) es)
  end.

Definition rmtree (p : Path) (root : Node) : Node := remove_path p root.

Definition mkdir_p (p : Path) (root : Node) : Node :=
  match lookup_path p root with
  | Some _ => root
  | None => write_path p (Dir []) root
  end.

Definition copytree (src dst : Path) (root : Node) : Node :=
  match lookup_path src root with
  | Some n => write_path dst n root
  | None => root
  end.

(** ** The world seen by the worker thread *)

(** What a spawned process does while its output is read: it prints a line,
    or the owner thread presses the stop button ([stop_build]) while the
    worker waits in [readline]. *)
Inductive Event :=
| Line (text : pystr)
| StopPressed.

(** A process: what arrives on its pipe, its exit code, how long it runs
    and what it does to the file system.  The scripted processes are those
    that end: once the loop of [run_command] has stopped reading, what the
    process still has to print fits into the pipe, or the process has been
    killed.  A process that blocks on a full pipe while [run_command] waits
    for it keeps [run_command] from returning; no script describes one. *)
Record Proc := {
  p_out : list Event;
  p_returncode : Z;
  p_elapsed : Z;
  p_effect : Node -> Node
}.

(** [subprocess.Popen] raises (left, with the text of the exception) or
    starts a process. *)
Definition Spawn : Type := pystr + Proc.

(** [subprocess.run(['npx', 'electron', '--version'], ...)] raises or gives
    an exit code and the captured standard output. *)
Definition Probe : Type := pystr + (Z * pystr).

(** The arguments of one [run_command] call. *)
Record Call := {
  cmd : list pystr;
  extra_env : option (gmap pystr pystr);
  cwd : option Path
}.

(** The external commands of [run_build], by the stage they belong to. *)
Inductive StageId :=
| NpmInstall | AppDeps | Rebuild | Package | RebuildPacked | Installer.

(** One [run_command] call of [run_build] and its result. *)
Record Entry := {
  e_stage : StageId;
  e_attempt : nat;
  e_call : Call;
  e_ok : bool
}.

(** Calls scheduled on the owner thread with [root.after(0, ...)]. *)
Inductive UiEvent :=
| SetStatus (text : pystr)
| ShowInfo (title message : pystr)
| BuildFinished.

(** What the user entered and the host the builder runs on.
    [copy_error], when present, is the text of the exception that
    [shutil.copytree] raises on this host. *)
Record Config := {
  signing_enabled_var : bool;
  csc_link_var : pystr;
  csc_password_var : pystr;
  app_name_var : pystr;
  custom_icon_path : option Path;
  environ : gmap pystr pystr;
  win32 : bool;
  copy_error : option pystr
}.

(** The state threaded through the worker.  [is_building] and [process] are
    the attributes of [BuilderGUI] that the worker and the owner share;
    [log_queue] is the queue that [log] fills.  [fs], [now], [pending] (the
    behaviours of the processes still to be started, in order) and [probes]
    (the answers still to come from the version query) are the outside world.
    The other fields only record what happened: the arguments of each
    [Popen], the processes handed to [kill_process_tree], the calls of
    [copytree], the calls scheduled on the owner thread, and the commands of
    [run_build] with their results. *)
Record World := {
  config : Config;
  fs : Node;
  now : Z;
  is_building : bool;
  process : option nat;
  next_pid : nat;
  pending : list Spawn;
  probes : list Probe;
  log_queue : list LogEntry;
  spawned : list (list pystr * Path * gmap pystr pystr);
  killed : list nat;
  copies : list (Path * Path);
  scheduled : list UiEvent;
  trace : list Entry
}.

Definition set_fs (x : Node) (w : World) : World :=
  {| config := config w; fs := x; now := now w; is_building := is_building w;
     process := process w; next_pid := next_pid w; pending := pending w;
     probes := probes w; log_queue := log_queue w; spawned := spawned w;
     killed := killed w; copies := copies w; scheduled := scheduled w;
     trace := trace w |}.

Definition set_now (x : Z) (w : World) : World :=
  {| config := config w; fs := fs w; now := x; is_building := is_building w;
     process := process w; next_pid := next_pid w; pending := pending w;
     probes := probes w; log_queue := log_queue w; spawned := spawned w;
     killed := killed w; copies := copies w; scheduled := scheduled w;
     trace := trace w |}.

Definition set_is_building (x : bool) (w : World) : World :=
  {| config := config w; fs := fs w; now := now w; is_building := x;
     process := process w; next_pid := next_pid w; pending := pending w;
     probes := probes w; log_queue := log_queue w; spawned := spawned w;
     killed := killed w; copies := copies w; scheduled := scheduled w;
     trace := trace w |}.

Definition set_process (x : option nat) (w : World) : World :=
  {| config := config w; fs := fs w; now := now w; is_building := is_building w;
     process := x; next_pid := next_pid w; pending := pending w;
     probes := probes w; log_queue := log_queue w; spawned := spawned w;
     killed := killed w; copies := copies w; scheduled := scheduled w;
     trace := trace w |}.

Definition set_next_pid (x : nat) (w : World) : World :=
  {| config := config w; fs := fs w; now := now w; is_building := is_building w;
     process := process w; next_pid := x; pending := pending w;
     probes := probes w; log_queue := log_queue w; spawned := spawned w;
     killed := killed w; copies := copies w; scheduled := scheduled w;
     trace := trace w |}.

Definition set_pending (x : list Spawn) (w : World) : World :=
  {| config := config w; fs := fs w; now := now w; is_building := is_building w;
     process := process w; next_pid := next_pid w; pending := x;
     probes := probes w; log_queue := log_queue w; spawned := spawned w;
     killed := killed w; copies := copies w; scheduled := scheduled w;
     trace := trace w |}.

Definition set_probes (x : list Probe) (w : World) : World :=
  {| config := config w; fs := fs w; now := now w; is_building := is_building w;
     process := process w; next_pid := next_pid w; pending := pending w;
     probes := x; log_queue := log_queue w; spawned := spawned w;
     killed := killed w; copies := copies w; scheduled := scheduled w;
     trace := trace w |}.

Definition set_log_queue (x : list LogEntry) (w : World) : World :=
  {| config := config w; fs := fs w; now := now w; is_building := is_building w;
     process := process w; next_pid := next_pid w; pending := pending w;
     probes := probes w; log_queue := x; spawned := spawned w;
     killed := killed w; copies := copies w; scheduled := scheduled w;
     trace := trace w |}.

Definition set_spawned (x : list (list pystr * Path * gmap pystr pystr)) (w : World)
  : World :=
  {| config := config w; fs := fs w; now := now w; is_building := is_building w;
     process := process w; next_pid := next_pid w; pending := pending w;
     probes := probes w; log_queue := log_queue w; spawned := x;
     killed := killed w; copies := copies w; scheduled := scheduled w;
     trace := trace w |}.

Definition set_killed (x : list nat) (w : World) : World :=
  {| config := config w; fs := fs w; now := now w; is_building := is_building w;
     process := process w; next_pid := next_pid w; pending := pending w;
     probes := probes w; log_queue := log_queue w; spawned := spawned w;
     killed := x; copies := copies w; scheduled := scheduled w;
     trace := trace w |}.

Definition set_copies (x : list (Path * Path)) (w : World) : World :=
  {| config := config w; fs := fs w; now := now w; is_building := is_building w;
     process := process w; next_pid := next_pid w; pending := pending w;
     probes := probes w; log_queue := log_queue w; spawned := spawned w;
     killed := killed w; copies := x; scheduled := scheduled w;
     trace := trace w |}.

Definition set_scheduled (x : list UiEvent) (w : World) : World :=
  {| config := config w; fs := fs w; now := now w; is_building := is_building w;
     process := process w; next_pid := next_pid w; pending := pending w;
     probes := probes w; log_queue := log_queue w; spawned := spawned w;
     killed := killed w; copies := copies w; scheduled := x;
     trace := trace w |}.

Definition set_trace (x : list Entry) (w : World) : World :=
  {| config := config w; fs := fs w; now := now w; is_building := is_building w;
     process := process w; next_pid := next_pid w; pending := pending w;
     probes := probes w; log_queue := log_queue w; spawned := spawned w;
     killed := killed w; copies := copies w; scheduled := scheduled w;
     trace := x |}.

(** The state monad of the worker. *)
Definition M (A : Type) : Type := World -> A * World.

Definition ret {A} (a : A) : M A := fun w => (a, w).

Definition bind {A B} (m : M A) (k : A -> M B) : M B :=
  fun w => let (a, w') := m w in k a w'.

Declare Scope build_scope.
Delimit Scope build_scope with build.
Notation "x <- c1 ;; c2" := (bind c1 (fun x => c2))
  (at level 100, c1 at next level, right associativity) : build_scope.
Notation "c1 ;; c2" := (bind c1 (fun _ => c2))
  (at level 100, right associativity) : build_scope.
Local Open Scope build_scope.

Definition get : M World := fun w => (w, w).

Definition modify (f : World -> World) : M unit := fun w => (tt, f w).

(** ** The log queue: [queue.Queue()], [log] and [process_log_queue] *)

(** [Queue.put]: the queue is unbounded, the entry goes to the back. *)
Definition put (e : LogEntry) (q : list LogEntry) : list LogEntry := q ++ [e].

(** [Queue.get_nowait]: the front entry, or [None] for [queue.Empty]. *)
Definition get_nowait (q : list LogEntry) : option (LogEntry * list LogEntry) :=
  match q with
  | [] => None
  | e :: q' => Some (e, q')
  end.

(** [log] (lines 1185-1188).  The copy of the line appended to the log
    file is not modelled. *)
Definition log (message : pystr) (tag : Tag) : M unit :=
  modify (fun w => set_log_queue (put (message, tag) (log_queue w)) w).

Definition inspect {A} (a : A) : {b : A | a = b} := exist _ a eq_refl.

(** The loop of [process_log_queue] (lines 81-87) on the owner thread:
    entries are taken with [get_nowait] and handed to [_write_to_log] until
    the queue raises [queue.Empty].  The result is the list of entries
    handed over, in that order, and the queue that is left. *)
Equations? drain_loop (q : list LogEntry) (written : list LogEntry)
  : list LogEntry * list LogEntry by wf (length q) lt :=
  drain_loop q written with inspect (get_nowait q) := {
    | exist _ (Some (e, q')) _ => drain_loop q' (written ++ [e])
    | exist _ None _ => (written, q) }.
Proof.
  destruct q as [|x q0]; simpl in *; [congruence | inversion e0; subst; simpl; lia].
Qed.

Definition process_log_queue (q : list LogEntry) : list LogEntry * list LogEntry :=
  drain_loop q [].

(** The producer and the consumer as interleaved atomic queue operations:
    the worker puts an entry, or the owner calls [get_nowait] once. *)
Inductive QueueOp :=
| DoPut (e : LogEntry)
| DoGet.

Fixpoint run_ops (ops : list QueueOp) (q : list LogEntry)
  : list LogEntry * list LogEntry :=
  match ops with
  | [] => ([], q)
  | DoPut e :: ops' => run_ops ops' (put e q)
  | DoGet :: ops' =>
      match get_nowait q with
      | Some (e, q') => let (got, q'') := run_ops ops' q' in (e :: got, q'')
      | None => run_ops ops' q
      end
  end.

Fixpoint pushed (ops : list QueueOp) : list LogEntry :=
  match ops with
  | [] => []
  | DoPut e :: ops' => e :: pushed ops'
  | DoGet :: ops' => pushed ops'
  end.

(** ** [stop_build] and [run_command] *)

(** What a call of [kill_process_tree] is aimed at (lines 1843-1861).  On
    Windows [taskkill /F /T] ends the process and its descendants.
    Elsewhere [SIGTERM] goes to the process group of the process;
    [run_command] starts its processes without a session of their own
    (lines 1801-1818), so that group is the one of the builder itself. *)
Inductive KillTarget :=
| ProcessTree (pid : nat)
| ProcessGroup (pid : nat).

Definition kill_target (is_win32 : bool) (pid : nat) : KillTarget :=
  if is_win32 then ProcessTree pid else ProcessGroup pid.

(** [kill_process_tree] (lines 1841-1861) swallows every exception; the
    model notes the process it was called for, and [kill_target] says what
    the call is aimed at on the host.  What the signal does to the builder
    off Windows is not followed: there the runs with [StopPressed] are those
    of a builder that outlives the signal. *)
Definition kill_process_tree (pid : nat) : M unit :=
  modify (fun w => set_killed (killed w ++ [pid]) w).

(** [stop_build] (lines 1863-1872), run by the owner thread. *)
Definition stop_build : M unit :=
  w <- get ;;
  match process w with
  | Some pid =>
      kill_process_tree pid ;;
      log (u "⏹️ Build abgebrochen!") warning
  | None => ret tt
  end ;;
  modify (set_is_building false).

(** Lines 1810-1816: on Windows [npm] and [npx] are started as [npm.cmd]
    and [npx.cmd]. *)
Definition platform_cmd (is_win32 : bool) (c : list pystr) : list pystr :=
  if is_win32 then
    match c with
    | c0 :: rest =>
        if pystr_eqb c0 (u "npm") then u "npm.cmd" :: rest
        else if pystr_eqb c0 (u "npx") then u "npx.cmd" :: rest
        else c
    | [] => c
    end
  else c.

(** Lines 1796-1798: the environment of the child. *)
Definition child_env (base : gmap pystr pystr) (extra : option (gmap pystr pystr))
  : gmap pystr pystr :=
  match extra with
  | Some e => e ∪ base
  | None => base
  end.

(** [subprocess.Popen(cmd, **kwargs)] (line 1818): the next scripted
    behaviour is taken; with none left the executable is not found. *)
Definition Popen (c : list pystr) (dir : Path) (env : gmap pystr pystr)
  : M (pystr + (nat * Proc)) :=
  fun w =>
    let w1 := set_spawned (spawned w ++ [(c, dir, env)]) w in
    match pending w with
    | [] => (inl (u "[Errno 2] No such file or directory"), w1)
    | inl msg :: rest => (inl msg, set_pending rest w1)
    | inr p :: rest =>
        (inr (next_pid w, p),
         set_next_pid (S (next_pid w)) (set_pending rest w1))
    end.

(** The reading loop (lines 1821-1832).  [iter(readline, '')] ends when
    [readline] gives the empty string, at the end of the stream; before a
    line is handled the flag [is_building] is tested. *)
Fixpoint read_output (evs : list Event) : M unit :=
  match evs with
  | [] => ret tt
  | StopPressed :: evs' => stop_build ;; read_output evs'
  | Line [] :: _ => ret tt
  | Line raw :: evs' =>
      w <- get ;;
      if negb (is_building w) then ret tt
      else
        match line_entry raw with
        | Some (message, tag) => log message tag
        | None => ret tt
        end ;;
        read_output evs'
  end.

(** [self.process.wait()] and the exit code (lines 1834-1835).  The call
    returns because the scripted process ends (see [Proc]); it does not
    read what is left in the pipe. *)
Definition wait (p : Proc) : M Z :=
  modify (fun w => set_now (now w + p_elapsed p) (set_fs (p_effect p (fs w)) w)) ;;
  ret (p_returncode p).

(** The working directory (line 1792) and the line that announces the
    command (line 1793). *)
Definition working_dir (c : Call) : Path :=
  match cwd c with Some d => d | None => [] end.

Definition announce (c : Call) : LogEntry :=
  (u "   Führe aus: " ++ join (u " ") (cmd c) ++ u " (in "
     ++ path_str (working_dir c) ++ u ")", info).

(** [run_command] (lines 1788-1839). *)
Definition run_command (c : Call) : M bool :=
  w <- get ;;
  log (announce c).1 (announce c).2 ;;
  let env := child_env (environ (config w)) (extra_env c) in
  r <- Popen (platform_cmd (win32 (config w)) (cmd c)) (working_dir c) env ;;
  match r with
  | inr (pid, p) =>
      modify (set_process (Some pid)) ;;
      read_output (p_out p) ;;
      rc <- wait p ;;
      ret (rc =? 0)%Z
  | inl e =>
      log (u "   Fehler: " ++ e) error ;;
      ret false
  end.

(** [run_command] as [run_build] calls it; the stage and the position in
    its fallback chain are noted next to the result. *)
Definition attempt (s : StageId) (k : nat) (c : Call) : M bool :=
  ok <- run_command c ;;
  modify (fun w => set_trace (trace w ++ [{| e_stage := s; e_attempt := k;
                                             e_call := c; e_ok := ok |}]) w) ;;
  ret ok.

(** ** [run_build] *)

Definition app_dir : Path := [u "app"].
Definition app_package : Path := app_dir ++ [u "package.json"].
Definition dist_dir : Path := [u "dist"].
Definition win_unpacked : Path := dist_dir ++ [u "win-unpacked"].
Definition source_nm : Path := app_dir ++ [u "node_modules"].

Definition better_sqlite_node : Path :=
  app_dir ++ [u "node_modules"; u "better-sqlite3"; u "build"; u "Release";
              u "better_sqlite3.node"].

(** Truth value of a string and of [electron_version], which is [None] or
    a string. *)
Definition nonempty (s : pystr) : bool :=
  match s with [] => false | _ :: _ => true end.

Definition truthy (v : option pystr) : bool :=
  match v with Some s => nonempty s | None => false end.

(** Step 2 (lines 1497-1500); the result of [npm install] is not used. *)
Definition step2_install : M unit :=
  log [] info ;;
  log (u "[2/6] 📦 Installiere Dependencies...") step ;;
  _ <- attempt NpmInstall 1
         {| cmd := [u "npm"; u "install"]; extra_env := None; cwd := None |} ;;
  ret tt.

(** Step 3 (lines 1502-1511). *)
Definition step3_app_deps : M unit :=
  w <- get ;;
  if exists_ app_package (fs w) then
    log [] info ;;
    log (u "[3/6] 📦 Installiere App Dependencies...") step ;;
    _ <- attempt AppDeps 1
           {| cmd := [u "npm"; u "install"]; extra_env := None;
              cwd := Some app_dir |} ;;
    ret tt
  else
    log [] info ;;
    log (u "[3/6] ⏭️ Keine App Dependencies") info.

(** [subprocess.run(['npx', 'electron', '--version'], ...)]. *)
Definition run_probe : M Probe :=
  fun w =>
    match probes w with
    | [] => (inl (u "timed out"), w)
    | r :: rest => (r, set_probes rest w)
    end.

(** Lines 1522-1533. *)
Definition get_electron_version : M (option pystr) :=
  r <- run_probe ;;
  match r with
  | inr (returncode, stdout) =>
      if (returncode =? 0)%Z then
        let electron_version := lstrip_char 118%N (strip stdout) in
        log (u "   Electron Version: " ++ electron_version) info ;;
        ret (Some electron_version)
      else ret None
  | inl e =>
      log (u "   ⚠️ Konnte Electron-Version nicht ermitteln: " ++ e) warning ;;
      ret None
  end.

Definition with_version (c : list pystr) (electron_version : option pystr)
  : list pystr :=
  match electron_version with
  | Some v => if nonempty v then c ++ [u "-v"; v] else c
  | None => c
  end.

(** The fallback chain of the native rebuild (lines 1537-1562). *)
Definition rebuild_method1 (electron_version : option pystr) : Call :=
  {| cmd := with_version [u "npx"; u "@electron/rebuild"; u "-f";
                          u "-w"; u "better-sqlite3";
                          u "--module-dir"; path_str app_dir] electron_version;
     extra_env := None; cwd := None |}.

Definition rebuild_method2 : Call :=
  {| cmd := [u "npx"; u "electron-builder"; u "install-app-deps"];
     extra_env := None; cwd := None |}.

Definition rebuild_method3 (electron_version : option pystr) : Call :=
  {| cmd := with_version [u "npx"; u "@electron/rebuild"; u "-f";
                          u "-w"; u "better-sqlite3"] electron_version;
     extra_env := None; cwd := Some app_dir |}.

Definition rebuild_attempts (electron_version : option pystr) : list Call :=
  [rebuild_method1 electron_version; rebuild_method2;
   rebuild_method3 electron_version].

(** Lines 1535-1562. *)
Definition step4_rebuild (electron_version : option pystr) : M bool :=
  log (u "   Methode 1: @electron/rebuild mit expliziter Version...") info ;;
  rebuild_success <- attempt Rebuild 1 (rebuild_method1 electron_version) ;;
  rebuild_success <-
    (if negb rebuild_success then
       log (u "   Methode 2: electron-builder install-app-deps...") info ;;
       attempt Rebuild 2 rebuild_method2
     else ret rebuild_success) ;;
  rebuild_success <-
    (if negb rebuild_success then
       log (u "   Methode 3: Rebuild aus app/ Verzeichnis...") info ;;
       attempt Rebuild 3 (rebuild_method3 electron_version)
     else ret rebuild_success) ;;
  ret rebuild_success.

(** The time-stamp check after the rebuild (lines 1573-1584).  Times are
    whole seconds; [int(x)] of a quotient truncates.  Only files carry a
    time stamp in the model; a directory at that path counts as written at
    time 0. *)
Definition verify_rebuild : M unit :=
  w <- get ;;
  if exists_ better_sqlite_node (fs w) then
    let mtime := match getmtime better_sqlite_node (fs w) with
                 | Some t => t
                 | None => 0%Z
                 end in
    let age_seconds := (now w - mtime)%Z in
    if (age_seconds <? 60)%Z then
      log (u "   ✅ better_sqlite3.node wurde aktualisiert (vor "
             ++ str_Z age_seconds ++ u "s)") success
    else
      log (u "   ⚠️ better_sqlite3.node ist " ++ str_Z (Z.quot age_seconds 60)
             ++ u " Minuten alt - möglicherweise nicht neu gebaut!") warning
  else
    log (u "   ⚠️ better_sqlite3.node nicht gefunden - Rebuild möglicherweise fehlgeschlagen!")
        warning.

(** The signing environment (lines 1592-1612). *)
Definition CSC_LINK : pystr := u "CSC_LINK".
Definition CSC_KEY_PASSWORD : pystr := u "CSC_KEY_PASSWORD".

Definition prepare_signing : M (gmap pystr pystr) :=
  w <- get ;;
  if signing_enabled_var (config w) then
    let csc_link := strip (csc_link_var (config w)) in
    let csc_password := csc_password_var (config w) in
    if negb (nonempty csc_link) && negb (nonempty csc_password) then
      log (u "   🔐 Code Signing aktiviert (SimplySign Cloud HSM)") success ;;
      log (u "   → Nutzt Windows Certificate Store") info ;;
      log (u "   → SimplySign Mobile App wird 2FA anfordern") info ;;
      ret ∅
    else if nonempty csc_link && nonempty csc_password then
      log (u "   🔐 Code Signing aktiviert (PFX-Datei)") success ;;
      ret (<[CSC_KEY_PASSWORD := csc_password]> (<[CSC_LINK := csc_link]> ∅))
    else
      log (u "   ⚠️ Code Signing aktiviert aber unvollständig konfiguriert!")
          warning ;;
      ret ∅
  else ret ∅.

(** [signing_env if signing_env else None]. *)
Definition env_arg (signing_env : gmap pystr pystr) : option (gmap pystr pystr) :=
  if decide (signing_env = ∅) then None else Some signing_env.

Definition package_call (signing_env : gmap pystr pystr) : Call :=
  {| cmd := [u "npx"; u "electron-builder"; u "--win"; u "--dir"];
     extra_env := env_arg signing_env; cwd := None |}.

Definition installer_call (signing_env : gmap pystr pystr) : Call :=
  {| cmd := [u "npx"; u "electron-builder"; u "--win"; u "nsis";
             u "--prepackaged"; path_str win_unpacked];
     extra_env := env_arg signing_env; cwd := None |}.

(** The candidate locations of [node_modules] listed in lines 1627-1631.
    [run_build] builds the list and does not read it again. *)
Definition possible_paths : list Path :=
  [win_unpacked ++ [u "resources"; u "app"; u "app"; u "node_modules"];
   win_unpacked ++ [u "resources"; u "app.asar.unpacked"; u "app"; u "node_modules"];
   win_unpacked ++ [u "resources"; u "app"; u "node_modules"]].

(** The search for the packaged app directory (lines 1633-1643): under
    each base that exists, the first [server.js] that [rglob] yields
    decides. *)
Definition search_bases : list Path :=
  [win_unpacked ++ [u "resources"; u "app"];
   win_unpacked ++ [u "resources"; u "app.asar.unpacked"]].

Fixpoint find_app_dir_in (bases : list Path) (root : Node) : option Path :=
  match bases with
  | [] => None
  | base :: rest =>
      if exists_ base root then
        match rglob base (u "server.js") root with
        | server_path :: _ => Some (parent server_path)
        | [] => find_app_dir_in rest root
        end
      else find_app_dir_in rest root
  end.

Definition find_app_dir : M (option Path) :=
  w <- get ;;
  match find_app_dir_in search_bases (fs w) with
  | Some actual_app_dir =>
      log (u "   [5b] App-Verzeichnis gefunden: " ++ path_str actual_app_dir) info ;;
      ret (Some actual_app_dir)
  | None => ret None
  end.

(** The copy itself (lines 1653-1663 and 1675-1685).  [rmtree] ignores
    errors; an exception of [copytree] is caught and reported, and the
    result is [False].  Each call of [copytree] is noted in [copies]. *)
Definition copy_node_modules (win_unpacked_nm : Path) : M bool :=
  w <- get ;;
  let reason := if negb (exists_ win_unpacked_nm (fs w)) then u "fehlt"
                else u "unvollständig (dotenv fehlt)" in
  log (u "   [5b] ⚠️ node_modules " ++ reason ++ u " - kopiere...") warning ;;
  (if exists_ win_unpacked_nm (fs w)
   then modify (fun w => set_fs (rmtree win_unpacked_nm (fs w)) w)
   else ret tt) ;;
  modify (fun w => set_fs (mkdir_p (parent win_unpacked_nm) (fs w)) w) ;;
  modify (fun w => set_copies (copies w ++ [(source_nm, win_unpacked_nm)]) w) ;;
  match copy_error (config w) with
  | None =>
      modify (fun w => set_fs (copytree source_nm win_unpacked_nm (fs w)) w) ;;
      log (u "   [5b] ✅ node_modules kopiert nach: " ++ path_str win_unpacked_nm)
          success ;;
      ret true
  | Some e =>
      log (u "   [5b] ❌ Kopieren fehlgeschlagen: " ++ e) error ;;
      ret false
  end.

(** When is the copy made (lines 1652 and 1674). *)
Definition needs_copy (win_unpacked_nm : Path) (root : Node) : bool :=
  let dotenv_exists := exists_ (win_unpacked_nm ++ [u "dotenv"]) root in
  exists_ source_nm root
  && (negb (exists_ win_unpacked_nm root) || negb dotenv_exists).

(** Stage 5b (lines 1645-1685); the result is the new value of
    [success]. *)
Definition repair_node_modules (actual_app_dir : option Path) : M bool :=
  w <- get ;;
  match actual_app_dir with
  | Some d =>
      let win_unpacked_nm := d ++ [u "node_modules"] in
      let dotenv_exists := exists_ (win_unpacked_nm ++ [u "dotenv"]) (fs w) in
      if needs_copy win_unpacked_nm (fs w) then copy_node_modules win_unpacked_nm
      else if exists_ win_unpacked_nm (fs w) && dotenv_exists then
        log (u "   [5b] ✅ node_modules vollständig vorhanden") success ;;
        ret true
      else
        log (u "   [5b] ⚠️ Quelle app/node_modules existiert nicht!") warning ;;
        ret true
  | None =>
      log (u "   [5b] ⚠️ Konnte App-Verzeichnis nicht finden - versuche Standard-Pfad")
          warning ;;
      let win_unpacked_nm :=
        win_unpacked ++ [u "resources"; u "app"; u "app"; u "node_modules"] in
      if needs_copy win_unpacked_nm (fs w) then copy_node_modules win_unpacked_nm
      else ret true
  end.

(** The second look for the Electron version (lines 1693-1702). *)
Definition retry_electron_version (electron_version : option pystr)
  : M (option pystr) :=
  if negb (truthy electron_version) then
    r <- run_probe ;;
    match r with
    | inr (returncode, stdout) =>
        if (returncode =? 0)%Z then ret (Some (lstrip_char 118%N (strip stdout)))
        else ret electron_version
    | inl _ => ret electron_version
    end
  else ret electron_version.

Definition rebuild_packed_call (actual_app_dir : Path)
    (electron_version : option pystr) : Call :=
  {| cmd := with_version [u "npx"; u "@electron/rebuild"; u "-f";
                          u "-w"; u "better-sqlite3";
                          u "--module-dir"; path_str actual_app_dir]
                         electron_version;
     extra_env := None; cwd := None |}.

(** Stage 5c (lines 1687-1719): the rebuild inside the unpacked app; its
    failure is reported as a warning. *)
Definition rebuild_packed (actual_app_dir : Path)
    (electron_version : option pystr) : M unit :=
  log (u "   [5c] 🔧 Rebuild native Module im gepackten Verzeichnis...") info ;;
  electron_version <- retry_electron_version electron_version ;;
  (if truthy electron_version then
     log (u "   Electron Version für Rebuild: "
            ++ match electron_version with Some v => v | None => [] end) info
   else ret tt) ;;
  rebuild_packed <- attempt RebuildPacked 1
                      (rebuild_packed_call actual_app_dir electron_version) ;;
  if rebuild_packed then
    log (u "   [5c] ✅ Native Module im gepackten Verzeichnis neu gebaut") success
  else
    log (u "   [5c] ⚠️ Rebuild im gepackten Verzeichnis fehlgeschlagen") warning ;;
    log (u "   [5c] ⚠️ Die App könnte den NODE_MODULE_VERSION Fehler haben!")
        warning.

(** Step 5 (lines 1586-1726); the result is [success]. *)
Definition step5_build (electron_version : option pystr) : M bool :=
  log [] info ;;
  log (u "[5/6] 🔨 Baue Windows Installer...") step ;;
  log (u "   (Das kann einige Minuten dauern...)") info ;;
  signing_env <- prepare_signing ;;
  log (u "   [5a] Erstelle entpackte App...") info ;;
  success <- attempt Package 1 (package_call signing_env) ;;
  if success then
    log (u "   [5b] Prüfe Build-Struktur...") info ;;
    actual_app_dir <- find_app_dir ;;
    success <- repair_node_modules actual_app_dir ;;
    match actual_app_dir with
    | Some d => if success then rebuild_packed d electron_version else ret tt
    | None => ret tt
    end ;;
    if success then
      log (u "   [5d] Erstelle NSIS Installer...") info ;;
      attempt Installer 1 (installer_call signing_env)
    else ret success
  else ret success.

(** The searches of step 6 (lines 1732-1754). *)
Definition find_dotenv (root : Node) : option Path :=
  List.find (fun p => is_dir p root && exists_ (p ++ [u "lib"]) root)
            (rglob win_unpacked (u "dotenv") root).

Definition find_node_modules (root : Node) : option Path :=
  List.find (fun p => is_dir p root) (rglob win_unpacked (u "node_modules") root).

Fixpoint log_all (entries : list LogEntry) : M unit :=
  match entries with
  | [] => ret tt
  | (message, tag) :: rest => log message tag ;; log_all rest
  end.

Definition banner : pystr := replicate 60 61%N.

(** Step 6 and the success report (lines 1728-1774). *)
Definition step6_success : M unit :=
  log [] info ;;
  log (u "[6/6] 🧹 Räume auf und verifiziere...") step ;;
  w <- get ;;
  match find_dotenv (fs w) with
  | Some dotenv_path =>
      log (u "   ✅ dotenv gefunden: " ++ path_str dotenv_path) success ;;
      log (u "   ✅ node_modules im Build verifiziert (inkl. dotenv)") success
  | None =>
      match find_node_modules (fs w) with
      | Some nm_path =>
          log (u "   ⚠️ node_modules gefunden aber ohne dotenv: "
                 ++ path_str nm_path) warning
      | None => log (u "   ❌ Kein node_modules im Build gefunden!") error
      end
  end ;;
  log banner success ;;
  log (u "✅ BUILD ERFOLGREICH!") success ;;
  log banner success ;;
  let app_name := match strip (app_name_var (config w)) with
                  | [] => u "LTTH"
                  | s => s
                  end in
  (if exists_ dist_dir (fs w) then
     log_all (map (fun f => (u "   📁 " ++ name f, success))
                  (glob_suffix dist_dir (u ".exe") (fs w)))
   else ret tt) ;;
  log (10%N :: u "   App-Name: " ++ app_name) success ;;
  match custom_icon_path (config w) with
  | Some icon => log (u "   Icon: " ++ name icon) success
  | None => ret tt
  end ;;
  modify (fun w => set_scheduled
    (scheduled w ++
       [SetStatus (u "✅ Build erfolgreich!");
        ShowInfo (u "Build erfolgreich!")
                 (u "Der Windows Installer für '" ++ app_name
                    ++ u "' wurde erfolgreich erstellt!" ++ [10%N; 10%N]
                    ++ u "Du findest ihn im dist-Ordner.")]) w).

(** The failure report (lines 1775-1780). *)
Definition report_failure : M unit :=
  log [] info ;;
  log banner error ;;
  log (u "❌ BUILD FEHLGESCHLAGEN!") error ;;
  log banner error ;;
  modify (fun w => set_scheduled
    (scheduled w ++ [SetStatus (u "❌ Build fehlgeschlagen!")]) w).

(** The three ways in which [run_build] ends: the [return] of line 1569,
    the success report and the failure report. *)
Inductive Exit :=
| CriticalReturn
| BuildSucceeded
| BuildFailed.

(** [run_build] from step 2 on (lines 1497-1786).  Steps 0 and 1 before
    it write the configuration and delete [dist]; they start no external
    command.  The [finally] clause schedules [build_finished].  Exceptions
    other than those caught inside [run_command], the version query and the
    copy are not modelled. *)
Definition run_build : M Exit :=
  step2_install ;;
  step3_app_deps ;;
  log [] info ;;
  log (u "[4/6] 🔧 Rebuild native Modules für Electron...") step ;;
  log (u "   (Kompiliere better-sqlite3 für Electron Node-Version)") info ;;
  electron_version <- get_electron_version ;;
  rebuild_success <- step4_rebuild electron_version ;;
  result <-
    (if negb rebuild_success then
       log (u "   ❌ KRITISCH: Native Module Rebuild fehlgeschlagen!") error ;;
       log (u "   ❌ Die App wird nicht starten ohne korrekt kompilierte native Module!")
           error ;;
       log (u "   ❌ Versuche manuell: cd app && npx @electron/rebuild -f -w better-sqlite3")
           error ;;
       ret CriticalReturn
     else
       log (u "   ✅ Native Modules neu gebaut") success ;;
       verify_rebuild ;;
       success <- step5_build electron_version ;;
       if success then step6_success ;; ret BuildSucceeded
       else report_failure ;; ret BuildFailed) ;;
  modify (fun w => set_scheduled (scheduled w ++ [BuildFinished]) w) ;;
  ret result.

(** ** The project files that the builder rewrites

    [electron-builder.yml] is handled as text and [package.json] as the
    value that [json.load] gives.  A function that reads and rewrites one
    file takes the file as it finds it and returns what it writes ([None]
    when it writes nothing) next to the lines it logs.  An exception while
    the file is read comes with the file; [write_error], when present, is
    the text of the exception that opening the file for writing raises on
    this host; a file that has been opened takes the whole text.
    [update_builder_yml_for_installer_sidebar] is modelled on
    a file that is missing or read, without its exceptions. *)

(** [s.split('\n')]. *)
Fixpoint split_lines (s : pystr) : list pystr :=
  match s with
  | [] => [[]]
  | c :: s' =>
      if (c =? 10)%N then [] :: split_lines s'
      else match split_lines s' with
           | l :: ls => (c :: l) :: ls
           | [] => [[c]]
           end
  end.

(** [s.replace(old, new)]: the occurrences of [old] are found from left to
    right and do not overlap.  [skip] counts the characters of an occurrence
    that are still to be dropped. *)
Fixpoint replace_from (old new : pystr) (skip : nat) (s : pystr) : pystr :=
  match s with
  | [] => []
  | c :: s' =>
      match skip with
      | S n => replace_from old new n s'
      | O =>
          if starts_with old s
          then new ++ replace_from old new (length old - 1) s'
          else c :: replace_from old new 0 s'
      end
  end.

Definition replace (old new s : pystr) : pystr :=
  match old with
  | [] => new ++ flat_map (fun c => c :: new) s
  | _ :: _ => replace_from old new 0 s
  end.

(** [s.strip(chars)]. *)
Definition among (chars : list N) (c : N) : bool := existsb (N.eqb c) chars.

Fixpoint lstrip_chars (chars : list N) (s : pystr) : pystr :=
  match s with
  | [] => []
  | c :: s' => if among chars c then lstrip_chars chars s' else s
  end.

Fixpoint rstrip_chars (chars : list N) (s : pystr) : pystr :=
  match s with
  | [] => []
  | c :: s' =>
      match rstrip_chars chars s' with
      | [] => if among chars c then [] else [c]
      | r => c :: r
      end
  end.

Definition strip_chars (chars : list N) (s : pystr) : pystr :=
  lstrip_chars chars (rstrip_chars chars s).

Definition quote : pystr := [34%N].

(** The text put in place of [nsis:] (lines 1175-1176). *)
Definition new_nsis : pystr :=
  u "nsis:" ++ [10%N]
    ++ u "  installerSidebar: electron/assets/installer/installerSidebar.bmp".

(** [update_builder_yml_for_installer_sidebar] (lines 1161-1183). *)
Definition update_builder_yml_for_installer_sidebar (file : option pystr)
  : option pystr * list LogEntry :=
  match file with
  | Some content =>
      if negb (contains (u "installerSidebar") content) then
        if contains (u "nsis:") content then
          (Some (replace (u "nsis:") new_nsis content),
           [(u "electron-builder.yml für Installer-Sidebar aktualisiert", success)])
        else (None, [])
      else (None, [])
  | None => (None, [])
  end.

(** Line 1370: the subject name without surrounding blanks and quotes. *)
Definition clean_cert_name (cert_subject_name : pystr) : pystr :=
  strip (strip_chars [39%N] (strip_chars [34%N] (strip cert_subject_name))).

Definition cert_setting (clean_cert_name : pystr) : pystr :=
  u "certificateSubjectName: " ++ quote ++ clean_cert_name ++ quote.

Definition hash_line : pystr :=
  u "  signingHashAlgorithms: [" ++ quote ++ u "sha256" ++ quote ++ u "]".

Definition is_hash_comment (line : pystr) : bool :=
  contains (u "# signingHashAlgorithms:") line
  || contains (u "#signingHashAlgorithms:") line.

Definition is_cert_comment (line : pystr) : bool :=
  contains (u "# certificateSubjectName:") line
  || contains (u "#certificateSubjectName:") line.

(** The loop of lines 1386-1396: the new lines and the flag [updated]. *)
Fixpoint rewrite_lines (clean_cert_name : pystr) (lines : list pystr)
  : list pystr * bool :=
  match lines with
  | [] => ([], false)
  | line :: rest =>
      let (new_lines, updated) := rewrite_lines clean_cert_name rest in
      if is_hash_comment line then (hash_line :: new_lines, true)
      else if is_cert_comment line
      then ((u "  " ++ cert_setting clean_cert_name) :: new_lines, true)
      else (line :: new_lines, updated)
  end.

(** A text file as a function finds it: missing, present but not to be
    read (with the text of the exception of [open] or [read]), or read. *)
Inductive TextFile :=
| Missing
| Unreadable (e : pystr)
| Readable (content : pystr).

(** The [except] branch of [auto_update_electron_builder_yml] (lines
    1409-1411). *)
Definition auto_update_failed (e : pystr) : list LogEntry :=
  [(u "   ⚠️ Fehler beim Aktualisieren von electron-builder.yml: " ++ e, warning);
   (u "   Bitte manuell konfigurieren", info)].

(** [auto_update_electron_builder_yml] (lines 1359-1411). *)
Definition auto_update_electron_builder_yml (cert_subject_name : pystr)
    (write_error : option pystr) (file : TextFile)
  : option pystr * list LogEntry :=
  match file with
  | Missing =>
      (None,
       [(u "   ⚠️ electron-builder.yml nicht gefunden - bitte manuell konfigurieren",
         warning)])
  | Unreadable e => (None, auto_update_failed e)
  | Readable content =>
      let clean := clean_cert_name cert_subject_name in
      if contains (cert_setting clean) content then
        (None, [(u "   ✅ electron-builder.yml bereits konfiguriert", success)])
      else
        let (new_lines, updated) := rewrite_lines clean (split_lines content) in
        if updated then
          match write_error with
          | Some e => (None, auto_update_failed e)
          | None =>
              (Some (join [10%N] new_lines),
               [(u "   ✅ electron-builder.yml automatisch konfiguriert", success);
                (u "      → signingHashAlgorithms: [" ++ quote ++ u "sha256"
                   ++ quote ++ u "]", info);
                (u "      → " ++ cert_setting clean, info)])
          end
        else
          (None, [(u "   ℹ️ electron-builder.yml keine Änderungen nötig", info)])
  end.

(** [toggle_signing_fields] (lines 758-771), as far as the log goes. *)
Definition toggle_signing_fields (cfg : Config) : list LogEntry :=
  if signing_enabled_var cfg then [(u "Code Signing aktiviert", info)]
  else [(u "Code Signing deaktiviert", info)].

Definition with_signing (enabled : bool) (link password : pystr) (cfg : Config)
  : Config :=
  {| signing_enabled_var := enabled; csc_link_var := link;
     csc_password_var := password; app_name_var := app_name_var cfg;
     custom_icon_path := custom_icon_path cfg; environ := environ cfg;
     win32 := win32 cfg; copy_error := copy_error cfg |}.

(** [auto_configure_simplysign] (lines 1335-1357): the new configuration,
    what is written to [electron-builder.yml], and the log. *)
Definition auto_configure_simplysign (cert_subject_name : pystr) (cfg : Config)
    (write_error : option pystr) (file : TextFile)
  : Config * option pystr * list LogEntry :=
  let cfg' := with_signing true [] [] cfg in
  let (written, update_log) :=
    auto_update_electron_builder_yml cert_subject_name write_error file in
  (cfg', written,
   toggle_signing_fields (with_signing true (csc_link_var cfg)
                                       (csc_password_var cfg) cfg)
   ++ [([], info);
       (u "🔐 SimplySign Cloud HSM erkannt!", success);
       (u "   Zertifikat: " ++ cert_subject_name, info);
       (u "   Code-Signierung automatisch aktiviert", success);
       (u "   ⚠️ Wichtig: electron-builder.yml muss konfiguriert sein:", warning);
       (u "      certificateSubjectName: " ++ quote ++ cert_subject_name ++ quote,
        info);
       (u "   Bei Build wird SimplySign Mobile App 2FA anfordern", info)]
   ++ update_log).

(** JSON values as [json.load] gives them.  An object keeps its keys in
    order; a number is kept as the text of its literal. *)
#[warnings="-register-all"]
Inductive Json :=
| JNull
| JBool (b : bool)
| JNumber (literal : pystr)
| JString (s : pystr)
| JArray (items : list Json)
| JObject (members : list (pystr * Json)).

(** [d[key] = value] on a [dict]: an existing key keeps its place, a new one
    goes to the end. *)
Definition set_key (key : pystr) (value : Json) (members : list (pystr * Json))
  : list (pystr * Json) :=
  update_assoc key (fun _ => value) members.

(** Line 811: the application id made from the name.  [str_lower] is
    [str.lower], with the case table of the Python in use; [lower] agrees
    with it on ASCII names. *)
Definition app_id (str_lower : pystr -> pystr) (app_name : pystr) : pystr :=
  u "com.pupcid." ++ replace (u " ") (u "-") (str_lower app_name).

(** Lines 805-812 on the loaded data; [None] stands for the [TypeError]
    that Python raises when [data] or [data['build']] is not a [dict]. *)
Definition set_app_name (str_lower : pystr -> pystr) (app_name : pystr)
    (data : Json) : option Json :=
  match data with
  | JObject members =>
      let build := match assoc (u "build") members with
                   | Some b => b
                   | None => JObject []
                   end in
      match build with
      | JObject build_members =>
          Some (JObject
                  (set_key (u "build")
                     (JObject (set_key (u "appId")
                                 (JString (app_id str_lower app_name))
                                 (set_key (u "productName") (JString app_name)
                                    build_members)))
                     members))
      | _ => None
      end
  | _ => None
  end.

(** The [except] branch of [apply_config_to_package_json] (lines
    819-821). *)
Definition apply_config_failed (e : pystr) : LogEntry :=
  (u "Fehler beim Aktualisieren der package.json: " ++ e, error).

(** Lines 814-818: the data is written back, unless the file cannot be
    opened for writing; [log] holds what was logged before. *)
Definition write_back (write_error : option pystr) (data : Json)
    (log : list LogEntry) : bool * option Json * list LogEntry :=
  match write_error with
  | None => (true, Some data, log)
  | Some e => (false, None, log ++ [apply_config_failed e])
  end.

(** [apply_config_to_package_json] (lines 797-821).  [file] is the loaded
    [package.json] or the text of the exception of [open] or [json.load];
    [type_error] is the text Python gives the [TypeError].  The result is
    the return value, the data written back and the log. *)
Definition apply_config_to_package_json (str_lower : pystr -> pystr)
    (app_name_var : pystr) (type_error : pystr) (write_error : option pystr)
    (file : pystr + Json) : bool * option Json * list LogEntry :=
  match file with
  | inl e => (false, None, [apply_config_failed e])
  | inr data =>
      let app_name := strip app_name_var in
      if nonempty app_name then
        match set_app_name str_lower app_name data with
        | Some data' =>
            write_back write_error data'
                       [(u "App-Name gesetzt: " ++ app_name, success)]
        | None => (false, None, [apply_config_failed type_error])
        end
      else write_back write_error data []
  end.

(** [load_app_name] (lines 112-122): [file] is [None] when [package.json]
    is missing or [json.load] fails. *)
Definition load_app_name (file : option Json) : Json :=
  match file with
  | Some (JObject members) =>
      match assoc (u "build") members with
      | Some (JObject build_members) =>
          match assoc (u "productName") build_members with
          | Some v => v
          | None => JString (u "LTTH")
          end
      | Some _ => JString (u "LTTH")
      | None => JString (u "LTTH")
      end
  | _ => JString (u "LTTH")
  end.

(** The name shown for the chosen icon (lines 703-705). *)
Definition short_name (icon_name : pystr) : pystr :=
  if (30 <? length icon_name)%nat
  then u "..." ++ drop (length icon_name - 27) icon_name
  else icon_name.

(** ** The owner thread when a build ends *)

(** [build_finished] (lines 1896-1902); the progress bar and the buttons
    are not modelled. *)
Definition build_finished : M unit :=
  modify (set_is_building false) ;;
  modify (set_process None).

(** [cleanup_processes] (lines 1874-1880). *)
Definition cleanup_processes : M unit :=
  w <- get ;;
  match process w with
  | Some pid => kill_process_tree pid
  | None => ret tt
  end.

(** * Specification-side definitions *)

(** Case-insensitive occurrence of a word, stated on the line itself:
    some block of the line equals the word up to the case of its letters. *)
Fixpoint ci_starts_with (word s : pystr) : bool :=
  match word, s with
  | [], _ => true
  | _ :: _, [] => false
  | a :: word', b :: s' => (lower_cp a =? lower_cp b)%N && ci_starts_with word' s'
  end.

Fixpoint ci_contains (word s : pystr) : bool :=
  ci_starts_with word s
  || match s with
     | [] => false
     | _ :: s' => ci_contains word s'
     end.

(** The classification of a line as the specification words it. *)
Definition spec_tag (line : pystr) : Tag :=
  if ci_contains (u "error") line || contains failure_glyph line then error
  else if ci_contains (u "warn") line then warning
  else info.

(** A word is solid under [f] when no character that [f] sends into it is
    white space. *)
Definition solid (f : N -> N) (word : pystr) : Prop :=
  forall c, In (f c) word -> isspace c = false.

(** Lexicographic order on strings and on paths written as strings, and
    the first of a list of paths in that order. *)
Fixpoint str_ltb (a b : pystr) : bool :=
  match a, b with
  | _, [] => false
  | [], _ :: _ => true
  | x :: a', y :: b' => (x <? y)%N || ((x =? y)%N && str_ltb a' b')
  end.

Definition path_ltb (p q : Path) : bool := str_ltb (path_str p) (path_str q).

Fixpoint lex_first (ps : list Path) : option Path :=
  match ps with
  | [] => None
  | p :: ps' =>
      match lex_first ps' with
      | Some q => if path_ltb q p then Some q else Some p
      | None => Some p
      end
  end.

(** The [node_modules] directory that stage 5b looks at. *)
Definition target_nm (actual_app_dir : option Path) : Path :=
  match actual_app_dir with
  | Some d => d ++ [u "node_modules"]
  | None => win_unpacked ++ [u "resources"; u "app"; u "app"; u "node_modules"]
  end.

(** ** Runs of the pipeline *)

(** A run is observed through the commands it executed: the stage, the
    position in the fallback chain and the result of each. *)
Definition Step : Type := StageId * nat * bool.

Definition skeleton (es : list Entry) : list Step :=
  map (fun e => (e_stage e, e_attempt e, e_ok e)) es.

#[global] Instance StageId_eq_dec : EqDecision StageId.
Proof. solve_decision. Defined.

#[global] Instance Exit_eq_dec : EqDecision Exit.
Proof. solve_decision. Defined.

Definition is_stage (s : StageId) (st : Step) : bool := bool_decide (st.1.1 = s).

(** The steps of one stage within a run. *)
Definition stage_steps (s : StageId) (sk : list Step) : list Step :=
  filter (fun st => is_stage s st = true) sk.

(** The stages whose failure ends the build: the native rebuild (the
    [return] of line 1569), the packaging and the installer (the tests of
    [success] in lines 1618 and 1728).  The result of the two [npm install]
    calls is not read, and a failed rebuild inside the packaged app is
    reported as a warning (lines 1717-1719). *)
Definition critical (s : StageId) : bool :=
  match s with
  | Rebuild | Package | Installer => true
  | NpmInstall | AppDeps | RebuildPacked => false
  end.

(** The length of the fallback chain of a stage. *)
Definition chain_length (s : StageId) : nat :=
  match s with
  | Rebuild => 3
  | _ => 1
  end.

(** Every attempt of the chain of [s] was made and failed. *)
Definition exhausted (s : StageId) (sk : list Step) : bool :=
  (length (stage_steps s sk) =? chain_length s)
  && forallb (fun st : Step => negb st.2) (stage_steps s sk).

(** How [run_build] ends when stage [s] is exhausted. *)
Definition exit_on_exhaustion (s : StageId) : Exit :=
  match s with
  | Rebuild => CriticalReturn
  | _ => BuildFailed
  end.

(** Whether a [run_command] that consumes this behaviour returns [True]. *)
Definition succeeds (sp : Spawn) : bool :=
  match sp with
  | inr p => (p_returncode p =? 0)%Z
  | inl _ => false
  end.

(** The first [k] calls of a chain, of which the last one succeeds and the
    others fail. *)
Definition chain_trace (s : StageId) (calls : list Call) (k : nat) : list Entry :=
  imap (fun i c => {| e_stage := s; e_attempt := S i; e_call := c;
                      e_ok := bool_decide (S i = k) |})
       (take k calls).

(** A whole chain that failed. *)
Definition chain_failed (s : StageId) (calls : list Call) : list Entry :=
  imap (fun i c => {| e_stage := s; e_attempt := S i; e_call := c;
                      e_ok := false |}) calls.

(** The signing environment as a function of the configuration. *)
Definition signing_env_of (cfg : Config) : gmap pystr pystr :=
  if signing_enabled_var cfg then
    if nonempty (strip (csc_link_var cfg)) && nonempty (csc_password_var cfg) then
      <[CSC_KEY_PASSWORD := csc_password_var cfg]>
        (<[CSC_LINK := strip (csc_link_var cfg)]> ∅)
    else ∅
  else ∅.

(** The shapes a run can have. *)
Definition run_prefixes : list (list Step) :=
  flat_map (fun a0 : bool =>
              map (fun rest => (NpmInstall, 1, a0) :: rest)
                  [[]; [(AppDeps, 1, true)]; [(AppDeps, 1, false)]])
           [true; false].

Definition rebuild_successes : list (list Step) :=
  [[(Rebuild, 1, true)];
   [(Rebuild, 1, false); (Rebuild, 2, true)];
   [(Rebuild, 1, false); (Rebuild, 2, false); (Rebuild, 3, true)]].

Definition rebuild_exhausted : list Step :=
  [(Rebuild, 1, false); (Rebuild, 2, false); (Rebuild, 3, false)].

Definition step5_runs : list (Exit * list Step) :=
  (BuildFailed, [(Package, 1, false)])
  :: flat_map (fun mid : list Step =>
                 map (fun tl : Exit * list Step =>
                        (tl.1, (Package, 1, true) :: mid ++ tl.2))
                     [(BuildFailed, []);
                      (BuildSucceeded, [(Installer, 1, true)]);
                      (BuildFailed, [(Installer, 1, false)])])
              [[]; [(RebuildPacked, 1, true)]; [(RebuildPacked, 1, false)]].

Definition possible_runs : list (Exit * list Step) :=
  flat_map (fun pre =>
              (CriticalReturn, pre ++ rebuild_exhausted)
              :: flat_map (fun r => map (fun t : Exit * list Step =>
                                           (t.1, pre ++ r ++ t.2)) step5_runs)
                          rebuild_successes)
           run_prefixes.

(** The call an entry of the trace must carry, for the stages whose
    command line is fixed once the Electron version is known. *)
Definition declared (cfg : Config) (electron_version : option pystr) (e : Entry)
  : Prop :=
  match e_stage e with
  | Rebuild =>
      rebuild_attempts electron_version !! (e_attempt e - 1) = Some (e_call e)
  | Package => e_call e = package_call (signing_env_of cfg)
  | Installer => e_call e = installer_call (signing_env_of cfg)
  | _ => True
  end.

(** The last entry of a piece of log is tagged as an error. *)
Definition ends_in_error (ls : list LogEntry) : Prop :=
  exists older message, ls = older ++ [(message, error)].

(** What a whole run emits. *)
Definition run_shape (cfg : Config) (exit : Exit) (es : list Entry)
    (ls : list LogEntry) : Prop :=
  (exit, skeleton es) ∈ possible_runs
  /\ (exists electron_version, Forall (declared cfg electron_version) es)
  /\ (exit <> BuildSucceeded -> ends_in_error ls).

(** What a computation adds to the ghost trace and to the log queue; the
    configuration is never changed. *)
Definition emits {A} (m : M A)
    (Q : Config -> A -> list Entry -> list LogEntry -> Prop) : Prop :=
  forall w, exists es ls,
    config (snd (m w)) = config w
    /\ trace (snd (m w)) = trace w ++ es
    /\ log_queue (snd (m w)) = log_queue w ++ ls
    /\ Q (config w) (fst (m w)) es ls.

(** A world update that leaves configuration, trace and log alone. *)
Definition frame (f : World -> World) : Prop :=
  forall w, config (f w) = config w /\ trace (f w) = trace w
            /\ log_queue (f w) = log_queue w.

(** The result of the [j]-th command started from now on. *)
Definition attempt_result (j : nat) (w : World) : bool :=
  match pending w !! j with
  | Some sp => succeeds sp
  | None => false
  end.

(** The age that the time-stamp check computes. *)
Definition artifact_age (w : World) : Z :=
  now w - match getmtime better_sqlite_node (fs w) with
          | Some t => t
          | None => 0
          end.

(** ** Lines and keys of the project files *)

(** A text without a line break. *)
Definition one_line (l : pystr) : Prop := ~ In 10%N l.

(** A line of [electron-builder.yml] that carries neither marker. *)
Definition plain_line (l : pystr) : Prop :=
  is_hash_comment l = false /\ is_cert_comment l = false.

(** [j.get(k)] on a loaded value. *)
Definition member (k : pystr) (j : Json) : option Json :=
  match j with
  | JObject members => assoc k members
  | _ => None
  end.

(** ** Trees and paths *)

(** No two entries of a directory have the same name, at any depth. *)
Fixpoint distinct_names (n : Node) : bool :=
  match n with
  | File _ => true
  | Dir es =>
      bool_decide (NoDup (map fst es))
      && (fix all (l : list (pystr * Node)) : bool :=
            match l with
            | [] => true
            | (_, n') :: l' => distinct_names n' && all l'
            end) es
  end.

(** The paths [p] and [q] part ways: after a common beginning each has a
    component, and the two components differ. *)
Fixpoint diverges (p q : Path) : bool :=
  match p, q with
  | c :: p', c' :: q' => if pystr_eqb c c' then diverges p' q' else true
  | _, _ => false
  end.

(** ** Shapes and environments of a run *)

(** The environment that the command of a stage is given: the signing
    variables for the two calls of electron-builder, nothing for the
    others. *)
Definition stage_env (cfg : Config) (s : StageId) : option (gmap pystr pystr) :=
  match s with
  | Package | Installer => env_arg (signing_env_of cfg)
  | _ => None
  end.

(** The tool a command line starts. *)
Definition tool (c : Call) : option pystr := head (cmd c).

(** A command as a build issues it: with the environment of its stage,
    run through [npm] or [npx]. *)
Definition call_ok (cfg : Config) (e : Entry) : Prop :=
  extra_env (e_call e) = stage_env cfg (e_stage e)
  /\ (tool (e_call e) = Some (u "npm") \/ tool (e_call e) = Some (u "npx")).

(** The process that [run_command] starts for a call (lines 1792-1818). *)
Definition spawn_of (cfg : Config) (c : Call)
  : list pystr * Path * gmap pystr pystr :=
  (platform_cmd (win32 cfg) (cmd c), working_dir c,
   child_env (environ cfg) (extra_env c)).

(** The shapes of step 5 with its result: the packaging fails; the copy of
    stage 5b fails; or the installer is built, after the rebuild of stage 5c
    when the packaged app was found. *)
Definition step5_shapes : list (bool * list Step) :=
  (false, [(Package, 1, false)])
  :: (false, [(Package, 1, true)])
  :: flat_map (fun mid : list Step =>
                 map (fun ok : bool =>
                        (ok, (Package, 1, true) :: mid ++ [(Installer, 1, ok)]))
                     [true; false])
              [[]; [(RebuildPacked, 1, true)]; [(RebuildPacked, 1, false)]].

Definition run_shapes : list (Exit * list Step) :=
  flat_map (fun pre =>
              (CriticalReturn, pre ++ rebuild_exhausted)
              :: flat_map (fun r => map (fun t : bool * list Step =>
                                           (if t.1 then BuildSucceeded else BuildFailed,
                                            pre ++ r ++ t.2)) step5_shapes)
                          rebuild_successes)
           run_prefixes.

(** The order in which the stages are declared. *)
Definition stage_rank (s : StageId) : nat :=
  match s with
  | NpmInstall => 0
  | AppDeps => 1
  | Rebuild => 2
  | Package => 3
  | RebuildPacked => 4
  | Installer => 5
  end.

(** A step that comes before another: in an earlier stage, or earlier in
    the chain of the same stage. *)
Definition step_before (a b : Step) : Prop :=
  stage_rank a.1.1 < stage_rank b.1.1
  \/ (a.1.1 = b.1.1 /\ a.1.2 < b.1.2).

#[global] Instance step_before_dec : RelDecision step_before.
Proof. intros a b. unfold step_before. apply _. Defined.

(** ** What a build keeps and what it leaves for the owner thread *)

(** A relation between the world before and after that a computation
    keeps. *)
Definition keeps {A} (R : World -> World -> Prop) (m : M A) : Prop :=
  forall w, R w (snd (m w)).

(** What a computation hands to the owner thread with [root.after]; the
    configuration is never changed. *)
Definition schedules {A} (m : M A)
    (Q : Config -> A -> list UiEvent -> Prop) : Prop :=
  forall w, exists us,
    config (snd (m w)) = config w
    /\ scheduled (snd (m w)) = scheduled w ++ us
    /\ Q (config w) (fst (m w)) us.

(** The name in the success report (line 1761). *)
Definition reported_name (cfg : Config) : pystr :=
  match strip (app_name_var cfg) with
  | [] => u "LTTH"
  | s => s
  end.

(** The calls that a run leaves for the owner thread, by the way it ends. *)
Definition ui_calls (cfg : Config) (exit : Exit) : list UiEvent :=
  match exit with
  | BuildSucceeded =>
      [SetStatus (u "✅ Build erfolgreich!");
       ShowInfo (u "Build erfolgreich!")
                (u "Der Windows Installer für '" ++ reported_name cfg
                   ++ u "' wurde erfolgreich erstellt!" ++ [10%N; 10%N]
                   ++ u "Du findest ihn im dist-Ordner.")]
  | BuildFailed => [SetStatus (u "❌ Build fehlgeschlagen!")]
  | CriticalReturn => []
  end ++ [BuildFinished].

(** The flag [is_building] is not raised. *)
Definition stays_stopped (w w' : World) : Prop :=
  is_building w = false -> is_building w' = false.

(** Neither the calls left for the owner thread nor the configuration
    change. *)
Definition same_ui (w w' : World) : Prop :=
  scheduled w' = scheduled w /\ config w' = config w.

(** The process handle and the next process id stay. *)
Definition same_handle (w w' : World) : Prop :=
  process w' = process w /\ next_pid w' = next_pid w.

(** Trace and started processes grow in step: each command noted in the
    trace is one call of [Popen]. *)
Definition in_step (w w' : World) : Prop :=
  config w' = config w
  /\ exists es, trace w' = trace w ++ es
                /\ spawned w' = spawned w
                                ++ map (fun e => spawn_of (config w) (e_call e)) es.

(** A scripted behaviour during which the stop button is not pressed. *)
Definition quiet (sp : Spawn) : Prop :=
  match sp with
  | inr p => Forall (fun ev => ev <> StopPressed) (p_out p)
  | inl _ => True
  end.

(** While the stop button is left alone no process is killed and the flag
    [is_building] keeps its value. *)
Definition undisturbed (w w' : World) : Prop :=
  Forall quiet (pending w) ->
  killed w' = killed w /\ is_building w' = is_building w
  /\ Forall quiet (pending w').

(** ** Scenarios *)

(** A build without signing on a Windows host. *)
Definition plain_config : Config :=
  {| signing_enabled_var := false; csc_link_var := []; csc_password_var := [];
     app_name_var := u "LTTH"; custom_icon_path := None; environ := ∅;
     win32 := true; copy_error := None |}.

(** The world when [start_build] has started the worker: the flag
    [is_building] is set, nothing has been spawned or logged. *)
Definition start_world (cfg : Config) (root : Node) (t0 : Z)
    (procs : list Spawn) (versions : list Probe) : World :=
  {| config := cfg; fs := root; now := t0; is_building := true;
     process := None; next_pid := 1; pending := procs; probes := versions;
     log_queue := []; spawned := []; killed := []; copies := [];
     scheduled := []; trace := [] |}.

(** A process that prints the given lines, changes no file and exits with
    the given code after five seconds. *)
Definition prints (lines : list pystr) (code : Z) : Proc :=
  {| p_out := map Line lines; p_returncode := code; p_elapsed := 5;
     p_effect := fun root => root |}.

(** A packaged tree with [server.js] directly in [resources/app] and again
    in [resources/app/app], and no [node_modules] anywhere. *)
Definition nested_root : Node :=
  Dir [(u "dist",
        Dir [(u "win-unpacked",
              Dir [(u "resources",
                    Dir [(u "app",
                          Dir [(u "app", Dir [(u "server.js", File 0)]);
                               (u "server.js", File 0)])])])])].


(** A project whose compiled module was last written at time 0. *)
Definition stale_artifact_root : Node :=
  Dir [(u "app",
        Dir [(u "node_modules",
              Dir [(u "better-sqlite3",
                    Dir [(u "build",
                          Dir [(u "Release",
                                Dir [(u "better_sqlite3.node", File 0)])])])])])].

(** The user presses stop while the first rebuild attempt prints; the
    killed process exits with code 1. *)
Definition cancelled_rebuild : Proc :=
  {| p_out := [Line (u "rebuilding"); StopPressed; Line (u "more output")];
     p_returncode := 1; p_elapsed := 5; p_effect := fun root => root |}.

Definition all_succeed (n : nat) : list Spawn :=
  replicate n (inr (prints [u "done"] 0)).

Definition version_33 : list Probe := [inr (0%Z, u "v33.0.0")].

(** The build starts at time 1000; every command succeeds and none
    touches the compiled module. *)
Definition stale_artifact_world : World :=
  start_world plain_config stale_artifact_root 1000 (all_succeed 4) version_33.

(** [npm install] succeeds, the first rebuild attempt is cancelled, every
    later command succeeds. *)
Definition cancelled_world : World :=
  start_world plain_config (Dir []) 0
    (inr (prints [u "ok"] 0) :: inr cancelled_rebuild :: all_succeed 3)
    version_33.

(** [npm install] succeeds and the three rebuild attempts fail. *)
Definition rebuild_fails_world : World :=
  start_world plain_config (Dir []) 0
    (inr (prints [u "ok"] 0)
     :: replicate 3 (inr (prints [u "node-gyp ERR! build error"] 1)))
    version_33.

(** At the start of the rebuild stage: two attempts will fail, the third
    will succeed. *)
Definition third_attempt_world : World :=
  start_world plain_config (Dir []) 0
    [inr (prints [u "gyp ERR!"] 1); inl (u "npx not found");
     inr (prints [u "rebuilt"] 0)]
    version_33.

(** A project whose [app/node_modules] has [dotenv], packaged into an app
    whose [node_modules] lacks it. *)
Definition incomplete_package_root : Node :=
  Dir [(u "app",
        Dir [(u "node_modules",
              Dir [(u "dotenv", Dir [(u "lib", Dir [])]);
                   (u "express", Dir [])])]);
       (u "dist",
        Dir [(u "win-unpacked",
              Dir [(u "resources",
                    Dir [(u "app",
                          Dir [(u "server.js", File 0);
                               (u "node_modules",
                                Dir [(u "express", Dir [])])])])])])].

(** [npm install] fails, every later command succeeds. *)
Definition failed_install_world : World :=
  start_world plain_config (Dir []) 0
    (inr (prints [u "npm ERR! network"] 1) :: all_succeed 3) version_33.

(** A configuration with a certificate file and its passphrase. *)
Definition signing_config : Config :=
  {| signing_enabled_var := true; csc_link_var := u "cert.pfx";
     csc_password_var := u "secret"; app_name_var := u "LTTH";
     custom_icon_path := None; environ := ∅; win32 := true;
     copy_error := None |}.

(** The packaged tree of [incomplete_package_root] after the copy of stage
    5b. *)
Definition repaired_package_root : Node :=
  fs (snd (repair_node_modules
             (Some (win_unpacked ++ [u "resources"; u "app"]))
             (start_world plain_config incomplete_package_root 0 [] []))).

(** * Properties *)

(** ** Strings *)

Lemma ci_starts_with_lower word s :
  lower word = word -> ci_starts_with word s = starts_with word (lower s).
Proof.
  revert s; induction word as [|a word IH]; intros s Hw; [reflexivity|].
  destruct s as [|b s]; [reflexivity|].
  simpl in *. injection Hw as Ha Hw'. rewrite Ha, (IH s Hw'). reflexivity.
Qed.

Lemma ci_contains_lower word s :
  lower word = word -> ci_contains word s = contains word (lower s).
Proof.
  intros Hw. induction s as [|b s IH].
  - simpl. rewrite (ci_starts_with_lower word [] Hw). reflexivity.
  - change (ci_contains word (b :: s))
      with (ci_starts_with word (b :: s) || ci_contains word s).
    change (contains word (lower (b :: s)))
      with (starts_with word (lower (b :: s)) || contains word (lower s)).
    rewrite IH, (ci_starts_with_lower word (b :: s) Hw). reflexivity.
Qed.

Lemma starts_with_app a b s :
  starts_with (a ++ b) s = true -> starts_with a s = true.
Proof.
  revert s; induction a as [|x a IH]; intros s H; [reflexivity|].
  destruct s as [|y s]; simpl in *; [discriminate|].
  apply andb_true_iff in H as [H1 H2]. rewrite H1. simpl. eauto.
Qed.

Lemma contains_app a b s :
  contains (a ++ b) s = true -> contains a s = true.
Proof.
  induction s as [|y s IH]; simpl; intros H.
  - rewrite orb_false_r in *. eapply starts_with_app; eauto.
  - apply orb_true_iff in H as [H|H].
    + erewrite starts_with_app; eauto.
    + rewrite (IH H). apply orb_true_r.
Qed.

(** The test for "warning" adds nothing to the test for "warn". *)
Lemma warning_or_warn s :
  contains (u "warning") s || contains (u "warn") s = contains (u "warn") s.
Proof.
  destruct (contains (u "warning") s) eqn:E; [|reflexivity].
  simpl. symmetry. apply (contains_app (u "warn") (u "ing")). exact E.
Qed.

Lemma classify_spec_tag line : classify line = spec_tag line.
Proof.
  unfold classify, spec_tag.
  rewrite warning_or_warn, !ci_contains_lower by reflexivity. reflexivity.
Qed.

Lemma rstrip_cons_nonspace c s : isspace c = false -> rstrip (c :: s) = c :: rstrip s.
Proof. intros H. simpl. rewrite H. destruct (rstrip s); reflexivity. Qed.

Lemma rstrip_cons_nonempty c s : rstrip s <> [] -> rstrip (c :: s) = c :: rstrip s.
Proof. intros H. simpl. destruct (rstrip s); [congruence | reflexivity]. Qed.

Lemma starts_with_nil_r word : word <> [] -> starts_with word [] = false.
Proof. destruct word; [congruence | reflexivity]. Qed.

Lemma starts_with_rstrip f word s :
  solid f word -> word <> [] ->
  starts_with word (map f s) = true ->
  starts_with word (map f (rstrip s)) = true.
Proof.
  revert s; induction word as [|a word IH]; intros s Hs Hne H; [congruence|].
  destruct s as [|b s]; [discriminate|].
  simpl in H. apply andb_true_iff in H as [Hab Hrest].
  apply N.eqb_eq in Hab. subst a.
  rewrite rstrip_cons_nonspace by (apply Hs; left; reflexivity).
  simpl. rewrite N.eqb_refl. simpl.
  destruct word as [|a' word]; [reflexivity|].
  apply IH; [intros c Hc; apply Hs; right; exact Hc | discriminate | exact Hrest].
Qed.

Lemma contains_rstrip f word s :
  solid f word -> word <> [] ->
  contains word (map f s) = true ->
  contains word (map f (rstrip s)) = true.
Proof.
  intros Hs Hne. induction s as [|b s IH]; intros H.
  - exact H.
  - change (contains word (map f (b :: s)))
      with (starts_with word (map f (b :: s)) || contains word (map f s)) in H.
    apply orb_true_iff in H as [H|H].
    + apply (starts_with_rstrip f word (b :: s) Hs Hne) in H.
      destruct (rstrip (b :: s)); simpl in *; rewrite H; reflexivity.
    + specialize (IH H).
      assert (rstrip s <> []) as Hr.
      { intros E. rewrite E in IH. simpl in IH.
        rewrite starts_with_nil_r in IH by exact Hne. discriminate. }
      rewrite rstrip_cons_nonempty by exact Hr.
      change (contains word (map f (b :: rstrip s)))
        with (starts_with word (map f (b :: rstrip s))
              || contains word (map f (rstrip s))).
      rewrite IH. apply orb_true_r.
Qed.

Lemma lower_cp_cases c : lower_cp c = c \/ (lower_cp c = c + 32 /\ 65 <= c <= 90)%N.
Proof.
  unfold lower_cp.
  destruct (65 <=? c)%N eqn:E1; destruct (c <=? 90)%N eqn:E2; simpl; auto.
  right. apply N.leb_le in E1. apply N.leb_le in E2. lia.
Qed.

Lemma printable_not_space c : (33 <= c <= 132)%N -> isspace c = false.
Proof.
  intros Hc. unfold isspace.
  rewrite (proj2 (N.leb_gt c 13)), (proj2 (N.leb_gt c 32)) by lia.
  rewrite (proj2 (N.leb_gt 8192 c)) by lia.
  rewrite !(proj2 (N.eqb_neq c _)) by lia.
  rewrite !andb_false_r. reflexivity.
Qed.

Lemma letters_not_space c l :
  (97 <= l <= 122)%N -> lower_cp c = l -> isspace c = false.
Proof.
  intros Hl Hc. apply printable_not_space.
  destruct (lower_cp_cases c) as [E|[E Hr]]; rewrite E in Hc; lia.
Qed.

Lemma solid_error : solid lower_cp (u "error").
Proof.
  intros c Hc. apply (letters_not_space c (lower_cp c)); [|reflexivity].
  remember (lower_cp c) as l eqn:El. clear El.
  vm_compute in Hc. intuition lia.
Qed.

Lemma solid_warn : solid lower_cp (u "warn").
Proof.
  intros c Hc. apply (letters_not_space c (lower_cp c)); [|reflexivity].
  remember (lower_cp c) as l eqn:El. clear El.
  vm_compute in Hc. intuition lia.
Qed.

Lemma solid_glyph : solid (fun c => c) failure_glyph.
Proof.
  intros c Hc. vm_compute in Hc. destruct Hc as [Hc|[]]. subst c. reflexivity.
Qed.

Lemma map_same (s : pystr) : map (fun c => c) s = s.
Proof. induction s; simpl; congruence. Qed.

(** Stripping the end of a line removes no occurrence of an indicator. *)
Lemma error_indicator_rstrip raw :
  ci_contains (u "error") raw || contains failure_glyph raw = true ->
  ci_contains (u "error") (rstrip raw) || contains failure_glyph (rstrip raw) = true.
Proof.
  rewrite !ci_contains_lower by reflexivity.
  intros H. apply orb_true_iff in H as [H|H]; apply orb_true_iff; [left|right].
  - apply (contains_rstrip lower_cp); [apply solid_error | discriminate | exact H].
  - rewrite <- (map_same (rstrip raw)).
    apply (contains_rstrip (fun c => c)); [apply solid_glyph | discriminate |].
    rewrite map_same. exact H.
Qed.

(** ** Classification of output lines *)

(** One step of the reading loop while the build is running. *)
Lemma read_output_line raw evs w :
  raw <> [] -> is_building w = true ->
  read_output (Line raw :: evs) w =
  read_output evs
    match line_entry raw with
    | Some e => set_log_queue (log_queue w ++ [e]) w
    | None => w
    end.
Proof.
  intros Hne Hb. destruct raw as [|c raw]; [congruence|].
  cbn [read_output]. unfold bind, get. rewrite Hb. cbn [negb].
  destruct (line_entry (c :: raw)) as [[message tag]|]; reflexivity.
Qed.

Lemma read_output_lines raws w :
  Forall (fun raw => raw <> []) raws -> is_building w = true ->
  read_output (map Line raws) w =
  (tt, set_log_queue (log_queue w ++ omap line_entry raws) w).
Proof.
  intros Hall. revert w. induction Hall as [|raw raws Hne _ IH]; intros w Hb.
  - simpl. rewrite app_nil_r. destruct w; reflexivity.
  - cbn [map]. rewrite read_output_line by assumption.
    cbn [omap list_omap].
    destruct (line_entry raw) as [e|].
    + rewrite IH by exact Hb. cbn. rewrite <- app_assoc. reflexivity.
    + apply IH, Hb.
Qed.

(** C7 (amended).  While the build is running, the lines read from a
    command are handled one by one and in order.  A line that is empty once
    its trailing white space is stripped is not logged.  Every other line is
    logged with the tag the case-insensitive rule gives its stripped text:
    error when it contains "error" or the failure glyph, otherwise warning
    when it contains "warn", otherwise info. *)
Theorem C7_lines_classified raws w :
  Forall (fun raw => raw <> []) raws ->
  is_building w = true ->
  log_queue (snd (read_output (map Line raws) w))
  = log_queue w ++ omap line_entry raws
  /\ forall raw, In raw raws ->
       line_entry raw =
       match rstrip raw with
       | [] => None
       | line => Some (u "   " ++ line, spec_tag line)
       end.
Proof.
  intros Hall Hb. split.
  - rewrite read_output_lines by assumption. reflexivity.
  - intros raw _. unfold line_entry.
    destruct (rstrip raw) as [|c line]; [reflexivity|].
    rewrite classify_spec_tag. reflexivity.
Qed.

(** Four lines of a running command, one of them blank. *)
Lemma C7_lines_classified_witness :
  log_queue (snd (read_output
                    (map Line [u "npm WARN old"; [10%N]; u "Build ERROR  "; u "ok"])
                    (start_world plain_config (Dir []) 0 [] [])))
  = [(u "   npm WARN old", warning); (u "   Build ERROR", error);
     (u "   ok", info)].
Proof.
  pose proof (C7_lines_classified
                [u "npm WARN old"; [10%N]; u "Build ERROR  "; u "ok"]
                (start_world plain_config (Dir []) 0 [] [])) as H.
  destruct H as [H _].
  - repeat constructor; discriminate.
  - reflexivity.
  - rewrite H. vm_compute. reflexivity.
Defined.

(** C7, counterexample.  A blank line contains neither indicator, so the
    rule makes it an info line; the code gives it no entry at all. *)
Lemma C7_blank_line_counterexample :
  spec_tag [10%N] = info
  /\ option_map snd (line_entry [10%N]) <> Some (spec_tag [10%N])
  /\ log_queue (snd (read_output [Line [10%N]]
                       (start_world plain_config (Dir []) 0 [] []))) = [].
Proof.
  split; [reflexivity|]. split; [|reflexivity].
  vm_compute. discriminate.
Qed.

(** C10.  A line that contains an error indicator ("error" in any case, or
    the failure glyph) and also "warn" in any case is logged as an error:
    the error test comes first. *)
Theorem C10_error_precedence raw :
  ci_contains (u "error") raw || contains failure_glyph raw = true ->
  ci_contains (u "warn") raw = true ->
  option_map snd (line_entry raw) = Some error.
Proof.
  intros Herr _.
  pose proof (error_indicator_rstrip raw Herr) as Hline.
  unfold line_entry.
  destruct (rstrip raw) as [|c line] eqn:E.
  - vm_compute in Hline. discriminate.
  - cbn [option_map snd]. rewrite classify_spec_tag. unfold spec_tag.
    rewrite Hline. reflexivity.
Qed.

(** A line with both indicators and trailing blanks. *)
Lemma C10_error_precedence_witness :
  option_map snd (line_entry (u "WARNING: build Error in step 3  ")) = Some error.
Proof.
  apply C10_error_precedence; vm_compute; reflexivity.
Defined.

(** ** The log queue *)

Lemma drain_loop_all q written : drain_loop q written = (written ++ q, []).
Proof.
  revert written. induction q as [|e q IH]; intros written.
  - rewrite drain_loop_equation_1. simpl. rewrite app_nil_r. reflexivity.
  - rewrite drain_loop_equation_1. simpl. rewrite IH, <- app_assoc. reflexivity.
Qed.

Lemma run_ops_fifo ops q :
  fst (run_ops ops q) ++ snd (run_ops ops q) = q ++ pushed ops.
Proof.
  revert q. induction ops as [|[e|] ops IH]; intros q; simpl.
  - rewrite app_nil_r. reflexivity.
  - rewrite IH. unfold put. rewrite <- app_assoc. reflexivity.
  - destruct q as [|e q]; simpl.
    + apply IH.
    + specialize (IH q). destruct (run_ops ops q) as [got left]. simpl in *.
      rewrite IH. reflexivity.
Qed.

(** C8.  [log] puts its entry at the back of the queue.  However the puts of
    the worker and the [get_nowait] calls of the owner interleave, the entries
    taken out followed by the entries still queued are the entries put, in the
    order in which they were put: none is lost or reordered.  The loop of
    [process_log_queue] always ends; it hands over all queued entries in order
    and, on an empty queue, hands over nothing. *)
Theorem C8_log_queue_fifo :
  (forall message tag w,
      log_queue (snd (log message tag w)) = log_queue w ++ [(message, tag)])
  /\ (forall ops,
         fst (run_ops ops []) ++ snd (run_ops ops []) = pushed ops)
  /\ (forall q, process_log_queue q = (q, []))
  /\ process_log_queue [] = ([], []).
Proof.
  split; [intros; reflexivity|].
  split; [intros ops; apply (run_ops_fifo ops [])|].
  assert (forall q, process_log_queue q = (q, [])) as H.
  { intros q. unfold process_log_queue. rewrite drain_loop_all. reflexivity. }
  split; [exact H | apply H].
Qed.

(** ** The signing environment *)

Lemma env_arg_empty : env_arg ∅ = None.
Proof. unfold env_arg. case_decide; [reflexivity | congruence]. Qed.

Lemma env_arg_insert (k v : pystr) (m : gmap pystr pystr) :
  env_arg (<[k := v]> m) = Some (<[k := v]> m).
Proof.
  unfold env_arg. case_decide as H; [|reflexivity].
  exfalso. exact (insert_non_empty m k v H).
Qed.

Lemma keys_differ : CSC_KEY_PASSWORD <> CSC_LINK.
Proof. vm_compute. discriminate. Qed.

(** The three cases of the signing configuration. *)
Lemma signing_cases w :
  signing_enabled_var (config w) = true ->
  let csc_link := strip (csc_link_var (config w)) in
  let csc_password := csc_password_var (config w) in
  let signing_env := fst (prepare_signing w) in
  let child := child_env (environ (config w))
                         (extra_env (package_call signing_env)) in
  (csc_link = [] -> csc_password = [] ->
     extra_env (package_call signing_env) = None
     /\ child = environ (config w))
  /\ (csc_link <> [] -> csc_password <> [] ->
        extra_env (package_call signing_env)
        = Some (<[CSC_KEY_PASSWORD := csc_password]> {[CSC_LINK := csc_link]})
        /\ child !! CSC_LINK = Some csc_link
        /\ child !! CSC_KEY_PASSWORD = Some csc_password)
  /\ ((csc_link = [] /\ csc_password <> []) \/ (csc_link <> [] /\ csc_password = []) ->
        extra_env (package_call signing_env) = None
        /\ child = environ (config w)
        /\ log_queue (snd (prepare_signing w))
           = log_queue w
             ++ [(u "   ⚠️ Code Signing aktiviert aber unvollständig konfiguriert!",
                  warning)]).
Proof.
  intros Hen. cbn zeta.
  unfold prepare_signing, bind, get. rewrite Hen.
  destruct (strip (csc_link_var (config w))) as [|c link] eqn:El;
    destruct (csc_password_var (config w)) as [|d pw] eqn:Ep;
    cbn [nonempty negb andb fst snd log modify ret bind package_call extra_env].
  - rewrite env_arg_empty. unfold child_env.
    split; [intros _ _; split; reflexivity|].
    split; [intros H; congruence|].
    intros [[_ H]|[H _]]; congruence.
  - rewrite env_arg_empty. unfold child_env.
    split; [intros _ H; congruence|].
    split; [intros H; congruence|].
    intros _. split; [reflexivity|]. split; reflexivity.
  - rewrite env_arg_empty. unfold child_env.
    split; [intros H; congruence|].
    split; [intros _ H; congruence|].
    intros _. split; [reflexivity|]. split; reflexivity.
  - rewrite env_arg_insert. unfold child_env.
    split; [intros; congruence|]. split.
    + intros _ _. split; [reflexivity|]. split.
      * rewrite lookup_union_l'.
        -- rewrite lookup_insert_ne by apply keys_differ. apply lookup_insert_eq.
        -- rewrite lookup_insert_ne by apply keys_differ.
           rewrite lookup_insert_eq. eauto.
      * rewrite lookup_union_l'; rewrite lookup_insert_eq; eauto.
    + intros [[H _]|[_ H]]; congruence.
Qed.

(** ** The search for the packaged app directory *)

Lemma rglob_missing base nm root : exists_ base root = false -> rglob base nm root = [].
Proof.
  unfold exists_, rglob. destruct (lookup_path base root); [discriminate | reflexivity].
Qed.

Lemma find_app_dir_in_first bases root :
  find_app_dir_in bases root
  = option_map parent
      (head (concat (map (fun base => rglob base (u "server.js") root) bases))).
Proof.
  induction bases as [|base rest IH]; [reflexivity|].
  cbn [find_app_dir_in map concat].
  destruct (exists_ base root) eqn:E.
  - destruct (rglob base (u "server.js") root) as [|p ps]; [exact IH | reflexivity].
  - rewrite (rglob_missing _ _ _ E). exact IH.
Qed.

Lemma lookup_path_app p q root :
  lookup_path (p ++ q) root
  = match lookup_path p root with
    | Some n => lookup_path q n
    | None => None
    end.
Proof.
  revert root. induction p as [|c p IH]; intros root; [reflexivity|].
  cbn [app lookup_path]. destruct root as [t|es]; [reflexivity|].
  destruct (assoc c es); [apply IH | reflexivity].
Qed.

Lemma rglob_direct base nm root :
  exists_ (base ++ [nm]) root = true ->
  head (rglob base nm root) = Some (base ++ [nm]).
Proof.
  unfold exists_, rglob. rewrite lookup_path_app.
  destruct (lookup_path base root) as [n|]; [|discriminate].
  destruct n as [t|es]; cbn [lookup_path rglob_node]; [discriminate|].
  destruct (assoc nm es); [reflexivity | discriminate].
Qed.

(** C9 (amended).  The search runs under [resources/app] and, when that
    yields nothing, under [resources/app.asar.unpacked]; no list of fixed
    candidates is tried.  Of several matches the first in the order of the
    traversal decides: the result is the parent of the first path that
    [rglob] yields, so a [server.js] directly in the searched directory wins
    over any other below it. *)
Theorem C9_first_match_in_traversal_order root :
  find_app_dir_in search_bases root
  = option_map parent
      (head (rglob (win_unpacked ++ [u "resources"; u "app"]) (u "server.js") root
             ++ rglob (win_unpacked ++ [u "resources"; u "app.asar.unpacked"])
                      (u "server.js") root))
  /\ (exists_ (win_unpacked ++ [u "resources"; u "app"] ++ [u "server.js"]) root = true ->
      find_app_dir_in search_bases root
      = Some (win_unpacked ++ [u "resources"; u "app"]))
  /\ (rglob (win_unpacked ++ [u "resources"; u "app"]) (u "server.js") root = [] ->
      exists_ (win_unpacked ++ [u "resources"; u "app.asar.unpacked"]
                 ++ [u "server.js"]) root = true ->
      find_app_dir_in search_bases root
      = Some (win_unpacked ++ [u "resources"; u "app.asar.unpacked"])).
Proof.
  rewrite find_app_dir_in_first. unfold search_bases. cbn [map concat].
  rewrite app_nil_r. split; [reflexivity|]. split.
  - intros H. rewrite app_assoc in H. apply rglob_direct in H.
    destruct (rglob (win_unpacked ++ [u "resources"; u "app"]) (u "server.js") root)
      as [|p ps]; [discriminate|].
    cbn [app head] in *. injection H as ->.
    reflexivity.
  - intros Hnone H. rewrite Hnone. cbn [app].
    rewrite app_assoc in H. apply rglob_direct in H.
    destruct (rglob (win_unpacked ++ [u "resources"; u "app.asar.unpacked"])
                    (u "server.js") root) as [|p ps]; [discriminate|].
    cbn [head] in *. injection H as ->.
    reflexivity.
Qed.

(** The packaged tree with [server.js] at two depths. *)
Lemma C9_first_match_in_traversal_order_witness :
  find_app_dir_in search_bases nested_root
  = Some (win_unpacked ++ [u "resources"; u "app"]).
Proof.
  destruct (C9_first_match_in_traversal_order nested_root) as (_ & H & _).
  apply H. vm_compute. reflexivity.
Defined.

(** C9, counterexample.  None of the fixed candidates exists, the search
    under the packaged root has two matches, the first in lexicographic
    order lies in [resources/app/app], and the code returns
    [resources/app]. *)
Lemma C9_lexicographic_counterexample :
  forallb (fun p => negb (exists_ p nested_root)) possible_paths = true
  /\ length (rglob win_unpacked (u "server.js") nested_root) = 2
  /\ option_map parent (lex_first (rglob win_unpacked (u "server.js") nested_root))
     = Some (win_unpacked ++ [u "resources"; u "app"; u "app"])
  /\ find_app_dir_in search_bases nested_root
     = Some (win_unpacked ++ [u "resources"; u "app"])
  /\ find_app_dir_in search_bases nested_root
     <> option_map parent (lex_first (rglob win_unpacked (u "server.js") nested_root)).
Proof.
  repeat split; try (vm_compute; reflexivity).
  vm_compute. discriminate.
Qed.

(** ** The repair copy of [node_modules] *)

Lemma copy_node_modules_copies nm w :
  copies (snd (copy_node_modules nm w)) = copies w ++ [(source_nm, nm)].
Proof.
  unfold copy_node_modules, bind, get.
  destruct (exists_ nm (fs w)); destruct (copy_error (config w)); reflexivity.
Qed.

(** ** What a computation emits *)

Lemma emits_ret {A} (a : A) Q : (forall cfg, Q cfg a [] []) -> emits (ret a) Q.
Proof.
  intros H w. exists [], []. cbn. rewrite !app_nil_r. auto.
Qed.

Lemma emits_bind {A B} (m : M A) (k : A -> M B) Q1 Q :
  emits m Q1 ->
  (forall a, emits (k a)
               (fun cfg b es2 ls2 =>
                  forall es1 ls1, Q1 cfg a es1 ls1 -> Q cfg b (es1 ++ es2) (ls1 ++ ls2))) ->
  emits (bind m k) Q.
Proof.
  intros Hm Hk w. unfold bind.
  destruct (Hm w) as (es1 & ls1 & Hc1 & Ht1 & Hl1 & HQ1).
  destruct (m w) as [a w1]. cbn [fst snd] in *.
  destruct (Hk a w1) as (es2 & ls2 & Hc2 & Ht2 & Hl2 & HQ2).
  exists (es1 ++ es2), (ls1 ++ ls2).
  rewrite Hc2, Ht2, Hl2, Hc1, Ht1, Hl1, !app_assoc.
  rewrite Hc1 in HQ2. auto.
Qed.

Lemma emits_weaken {A} (m : M A) (Q Q' : Config -> A -> list Entry -> list LogEntry -> Prop) :
  emits m Q -> (forall cfg a es ls, Q cfg a es ls -> Q' cfg a es ls) -> emits m Q'.
Proof.
  intros Hm HQ w. destruct (Hm w) as (es & ls & Hc & Ht & Hl & H).
  exists es, ls. auto.
Qed.

Lemma emits_bind_assoc {A B C} (m : M A) (k1 : A -> M B) (k2 : B -> M C) Q :
  emits (bind m (fun a => bind (k1 a) k2)) Q -> emits (bind (bind m k1) k2) Q.
Proof.
  intros H w. specialize (H w). unfold bind in *.
  destruct (m w) as [a w1]. exact H.
Qed.

Lemma emits_ret_eq {A} (a : A) :
  emits (ret a) (fun _ b es ls => b = a /\ es = [] /\ ls = []).
Proof. apply emits_ret. repeat split. Qed.

Lemma emits_get :
  emits get (fun cfg w es ls => config w = cfg /\ es = [] /\ ls = []).
Proof. intros w. exists [], []. cbn. rewrite !app_nil_r. repeat split. Qed.

Lemma emits_modify f :
  frame f -> emits (modify f) (fun _ _ es ls => es = [] /\ ls = []).
Proof.
  intros Hf w. destruct (Hf w) as (Hc & Ht & Hl).
  exists [], []. cbn. rewrite !app_nil_r. repeat split; assumption.
Qed.

Lemma emits_log message tag :
  emits (log message tag) (fun _ _ es ls => es = [] /\ ls = [(message, tag)]).
Proof. intros w. exists [], [(message, tag)]. cbn. rewrite app_nil_r. repeat split. Qed.

Lemma frame_set_fs f : frame (fun w => set_fs (f w) w).
Proof. intros w. repeat split. Qed.

Lemma frame_set_now_fs f g : frame (fun w => set_now (f w) (set_fs (g w) w)).
Proof. intros w. repeat split. Qed.

Lemma frame_set_is_building b : frame (set_is_building b).
Proof. intros w. repeat split. Qed.

Lemma frame_set_process p : frame (set_process p).
Proof. intros w. repeat split. Qed.

Lemma frame_set_killed f : frame (fun w => set_killed (f w) w).
Proof. intros w. repeat split. Qed.

Lemma frame_set_copies f : frame (fun w => set_copies (f w) w).
Proof. intros w. repeat split. Qed.

Lemma frame_set_scheduled f : frame (fun w => set_scheduled (f w) w).
Proof. intros w. repeat split. Qed.

Create HintDb emits discriminated.

#[local] Hint Resolve emits_get emits_log emits_ret_eq : emits.
#[local] Hint Resolve frame_set_fs frame_set_now_fs frame_set_is_building
  frame_set_process frame_set_killed frame_set_copies frame_set_scheduled : emits.

(** One step of a proof about a sequence of actions. *)
Ltac emits_step :=
  lazymatch goal with
  | |- emits (ret _) _ => apply emits_ret; intros ?
  | |- emits (bind (bind _ _) _) _ => apply emits_bind_assoc
  | |- emits (bind (match ?x with _ => _ end) _) _ => destruct x eqn:?
  | |- emits (bind (modify _) _) _ =>
      eapply emits_bind; [apply emits_modify; solve [eauto with emits] | intros ?]
  | |- emits (modify _) _ =>
      eapply emits_weaken; [apply emits_modify; solve [eauto with emits] | cbv beta; intros ? ? ? ? ?]
  | |- emits (bind _ _) _ =>
      eapply emits_bind; [solve [eauto with emits] | intros ?]
  | |- emits (if ?b then _ else _) _ => destruct b eqn:?
  | |- emits (match ?x with _ => _ end) _ => destruct x eqn:?
  | |- emits _ _ =>
      eapply emits_weaken; [solve [eauto with emits] | cbv beta; intros ? ? ? ? ?]
  end.

(** Unpacking what the earlier steps said. *)
Ltac emits_facts :=
  cbv beta in *; intros;
  repeat match goal with
         | H : _ /\ _ |- _ => destruct H
         | H : exists _, _ |- _ => destruct H
         | H : ?x = [] |- _ => subst x
         | H : ?x = [_] |- _ => subst x
         | H : ?x = _ :: _ |- _ => subst x
         end;
  rewrite ?app_nil_l, ?app_nil_r in *.

Lemma stop_build_emits : emits stop_build (fun _ _ es _ => es = []).
Proof.
  unfold stop_build, kill_process_tree.
  repeat emits_step; emits_facts; reflexivity.
Qed.

#[local] Hint Resolve stop_build_emits : emits.

Lemma read_output_emits evs : emits (read_output evs) (fun _ _ es _ => es = []).
Proof.
  induction evs as [|[raw|] evs IH].
  - apply emits_ret. reflexivity.
  - destruct raw as [|c raw]; [apply emits_ret; reflexivity|].
    cbn [read_output].
    repeat emits_step; emits_facts; reflexivity.
  - cbn [read_output].
    repeat emits_step; emits_facts; reflexivity.
Qed.

#[local] Hint Resolve read_output_emits : emits.

Lemma Popen_emits c dir env :
  emits (Popen c dir env) (fun _ _ es ls => es = [] /\ ls = []).
Proof.
  intros w. exists [], []. unfold Popen.
  destruct (pending w) as [|[msg|p] rest]; cbn; rewrite !app_nil_r; repeat split.
Qed.

Lemma wait_emits p : emits (wait p) (fun _ _ es ls => es = [] /\ ls = []).
Proof.
  unfold wait. repeat emits_step; emits_facts; auto.
Qed.

#[local] Hint Resolve Popen_emits wait_emits : emits.

Lemma run_command_emits c : emits (run_command c) (fun _ _ es _ => es = []).
Proof.
  unfold run_command.
  repeat emits_step; emits_facts; reflexivity.
Qed.

#[local] Hint Resolve run_command_emits : emits.

Lemma attempt_emits s k c :
  emits (attempt s k c)
        (fun _ ok es _ => es = [{| e_stage := s; e_attempt := k; e_call := c;
                                   e_ok := ok |}]).
Proof.
  intros w. unfold attempt, bind, modify, ret.
  destruct (run_command_emits c w) as (es & ls & Hc & Ht & Hl & ->).
  destruct (run_command c w) as [ok w1]. cbn in *.
  eexists _, ls. rewrite Hc, Ht, Hl, app_nil_r. repeat split.
Qed.

#[local] Hint Resolve attempt_emits : emits.

(** ** The stages of [run_build] *)

Lemma step2_install_emits :
  emits step2_install
        (fun _ _ es _ => exists c ok,
             es = [{| e_stage := NpmInstall; e_attempt := 1; e_call := c;
                      e_ok := ok |}]).
Proof.
  unfold step2_install.
  repeat emits_step; emits_facts; eauto.
Qed.

Lemma step3_app_deps_emits :
  emits step3_app_deps
        (fun _ _ es _ => es = [] \/ exists c ok,
             es = [{| e_stage := AppDeps; e_attempt := 1; e_call := c;
                      e_ok := ok |}]).
Proof.
  unfold step3_app_deps.
  repeat emits_step; emits_facts; eauto.
Qed.

Lemma run_probe_emits : emits run_probe (fun _ _ es ls => es = [] /\ ls = []).
Proof.
  intros w. exists [], []. unfold run_probe.
  destruct (probes w); cbn; rewrite !app_nil_r; repeat split.
Qed.

#[local] Hint Resolve run_probe_emits : emits.

Lemma get_electron_version_emits :
  emits get_electron_version (fun _ _ es _ => es = []).
Proof.
  unfold get_electron_version.
  repeat emits_step; emits_facts; reflexivity.
Qed.

Lemma step4_rebuild_emits ev :
  emits (step4_rebuild ev)
        (fun _ ok es _ =>
           (ok = true /\ (es = chain_trace Rebuild (rebuild_attempts ev) 1
                          \/ es = chain_trace Rebuild (rebuild_attempts ev) 2
                          \/ es = chain_trace Rebuild (rebuild_attempts ev) 3))
           \/ (ok = false /\ es = chain_failed Rebuild (rebuild_attempts ev))).
Proof.
  unfold step4_rebuild.
  repeat emits_step; emits_facts; subst;
    repeat match goal with
           | H : negb ?b = _ |- _ => destruct b; cbn in H; try discriminate H; clear H
           end;
    repeat match goal with b : bool |- _ => destruct b end;
    cbn; auto 6.
Qed.

Lemma verify_rebuild_emits : emits verify_rebuild (fun _ _ es _ => es = []).
Proof.
  unfold verify_rebuild.
  repeat emits_step; emits_facts; reflexivity.
Qed.

Lemma prepare_signing_emits :
  emits prepare_signing (fun cfg senv es _ => es = [] /\ senv = signing_env_of cfg).
Proof.
  unfold prepare_signing.
  repeat emits_step; emits_facts; subst; split; try reflexivity;
    unfold signing_env_of;
    match goal with
    | H : signing_enabled_var _ = _ |- _ => rewrite H
    end;
    try reflexivity;
    destruct (nonempty (strip (csc_link_var (config a))));
    destruct (nonempty (csc_password_var (config a)));
    cbn [andb negb] in *; try discriminate; reflexivity.
Qed.

Lemma find_app_dir_emits : emits find_app_dir (fun _ _ es _ => es = []).
Proof.
  unfold find_app_dir.
  repeat emits_step; emits_facts; reflexivity.
Qed.

Lemma copy_node_modules_emits nm :
  emits (copy_node_modules nm) (fun _ _ es _ => es = []).
Proof.
  unfold copy_node_modules.
  repeat emits_step; emits_facts; reflexivity.
Qed.

#[local] Hint Resolve copy_node_modules_emits : emits.

Lemma repair_node_modules_emits d :
  emits (repair_node_modules d) (fun _ _ es _ => es = []).
Proof.
  unfold repair_node_modules.
  repeat emits_step; emits_facts; reflexivity.
Qed.

Lemma retry_electron_version_emits ev :
  emits (retry_electron_version ev) (fun _ _ es _ => es = []).
Proof.
  unfold retry_electron_version.
  repeat emits_step; emits_facts; reflexivity.
Qed.

#[local] Hint Resolve retry_electron_version_emits : emits.

Lemma rebuild_packed_emits d ev :
  emits (rebuild_packed d ev)
        (fun _ _ es _ => exists c ok,
             es = [{| e_stage := RebuildPacked; e_attempt := 1; e_call := c;
                      e_ok := ok |}]).
Proof.
  unfold rebuild_packed.
  repeat emits_step; emits_facts; eauto.
Qed.

#[local] Hint Resolve find_app_dir_emits repair_node_modules_emits
  rebuild_packed_emits prepare_signing_emits : emits.

(** Deciding membership in a list of closed run shapes. *)
Ltac elem_by_compute :=
  cbn [skeleton map e_stage e_attempt e_ok app fst snd];
  apply (bool_decide_unpack _); vm_compute; exact I.

Lemma step5_build_emits ev :
  emits (step5_build ev)
        (fun cfg ok es _ =>
           ((if ok then BuildSucceeded else BuildFailed), skeleton es) ∈ step5_runs
           /\ forall ev', Forall (declared cfg ev') es).
Proof.
  unfold step5_build.
  repeat emits_step; emits_facts; subst;
    repeat match goal with b : bool |- _ => destruct b end;
    try discriminate;
    (split; [elem_by_compute | intros ev'; repeat constructor]).
Qed.

Lemma log_all_emits entries : emits (log_all entries) (fun _ _ es _ => es = []).
Proof.
  induction entries as [|[message tag] entries IH].
  - apply emits_ret. reflexivity.
  - cbn [log_all]. repeat emits_step; emits_facts; reflexivity.
Qed.

#[local] Hint Resolve log_all_emits : emits.

Lemma step6_success_emits : emits step6_success (fun _ _ es _ => es = []).
Proof.
  unfold step6_success.
  repeat emits_step; emits_facts; reflexivity.
Qed.

Lemma ends_in_error_app ls ls' : ends_in_error ls' -> ends_in_error (ls ++ ls').
Proof.
  intros (older & message & ->). exists (ls ++ older), message.
  apply app_assoc.
Qed.

Lemma report_failure_emits :
  emits report_failure (fun _ _ es ls => es = [] /\ ends_in_error ls).
Proof.
  unfold report_failure.
  repeat emits_step; emits_facts. split; [reflexivity|].
  repeat apply ends_in_error_app. exists [], banner. reflexivity.
Qed.

#[local] Hint Resolve step2_install_emits step3_app_deps_emits
  get_electron_version_emits step4_rebuild_emits verify_rebuild_emits
  step5_build_emits step6_success_emits report_failure_emits : emits.

Lemma skeleton_app es es' : skeleton (es ++ es') = skeleton es ++ skeleton es'.
Proof. apply map_app. Qed.

(** Splitting a membership in a short explicit list into its cases. *)
Ltac elem_cases H :=
  repeat (apply elem_of_cons in H as [H|H]);
  [..| apply elem_of_nil in H; destruct H].

(** Every run of [run_build] has one of the listed shapes, carries the
    declared commands, and ends its log with an error line unless it ends
    with the success report. *)
Lemma run_build_emits : emits run_build run_shape.
Proof.
  unfold run_build.
  repeat emits_step; emits_facts; subst;
    match goal with
    | H : negb ?b = _ |- _ => destruct b; cbn in H; try discriminate H; clear H
    end;
    repeat match goal with
           | H : _ \/ _ |- _ => destruct H
           | H : _ /\ _ |- _ => destruct H
           | H : exists _, _ |- _ => destruct H
           end;
    try discriminate; subst;
    repeat match goal with b : bool |- _ => destruct b end.
  all: unfold run_shape; rewrite ?skeleton_app.
  all: try match goal with
           | H : (_, skeleton ?es) ∈ step5_runs |- _ =>
               generalize dependent (skeleton es); intros sk5 H;
               unfold step5_runs in H; cbn in H; elem_cases H;
               try discriminate H; injection H as ->
           end.
  all: (split; [elem_by_compute|]).
  all: (split; [eexists; rewrite ?Forall_app; repeat split;
                first [ solve [eauto] | repeat constructor ] |]).
  all: try (intros _; repeat apply ends_in_error_app;
            first [ assumption | eexists [], _; reflexivity ]).
  all: intros H; congruence.
Qed.

(** ** One command and the behaviour scripted for it *)

Lemma stop_build_keeps w :
  pending (snd (stop_build w)) = pending w
  /\ spawned (snd (stop_build w)) = spawned w.
Proof.
  unfold stop_build, bind, get, kill_process_tree, modify, log.
  destruct (process w); split; reflexivity.
Qed.

Lemma read_output_keeps evs w :
  pending (snd (read_output evs w)) = pending w
  /\ spawned (snd (read_output evs w)) = spawned w.
Proof.
  revert w. induction evs as [|[raw|] evs IH]; intros w; [split; reflexivity| |].
  - destruct raw as [|c raw]; [split; reflexivity|].
    cbn [read_output]. unfold bind, get.
    destruct (negb (is_building w)); [split; reflexivity|].
    destruct (line_entry (c :: raw)) as [[message tag]|]; cbn; exact (IH _).
  - cbn [read_output]. unfold bind.
    destruct (stop_build_keeps w) as [Hs1 Hs2].
    destruct (stop_build w) as [[] w1]. cbn [snd] in Hs1, Hs2.
    destruct (IH w1) as [H1 H2]. rewrite H1, H2. split; assumption.
Qed.

Lemma read_output_trace evs w : trace (snd (read_output evs w)) = trace w.
Proof.
  destruct (read_output_emits evs w) as (es & ls & _ & Ht & _ & ->).
  rewrite Ht. apply app_nil_r.
Qed.

(** What [run_command] returns is decided by the behaviour it consumes;
    the process is started with the merged environment. *)
Lemma run_command_result c w :
  fst (run_command c w) = attempt_result 0 w
  /\ pending (snd (run_command c w)) = tail (pending w)
  /\ trace (snd (run_command c w)) = trace w
  /\ spawned (snd (run_command c w))
     = spawned w ++ [(platform_cmd (win32 (config w)) (cmd c), working_dir c,
                      child_env (environ (config w)) (extra_env c))].
Proof.
  unfold run_command, attempt_result, bind, get, log, modify, Popen, wait, ret.
  cbn [fst snd pending trace spawned set_log_queue set_spawned].
  destruct (pending w) as [|[msg|p] rest] eqn:E; cbn [lookup list_lookup].
  - repeat split; cbn; rewrite ?E; reflexivity.
  - repeat split; reflexivity.
  - cbn [fst snd pending trace spawned set_pending set_next_pid set_process].
    match goal with
    | |- context [read_output ?evs ?w0] =>
        destruct (read_output_keeps evs w0) as [Hp Hs];
        pose proof (read_output_trace evs w0) as Ht;
        destruct (read_output evs w0) as [[] w1]
    end.
    cbn in *. repeat split; assumption.
Qed.

Lemma attempt_run s k c w :
  fst (attempt s k c w) = attempt_result 0 w
  /\ pending (snd (attempt s k c w)) = tail (pending w)
  /\ trace (snd (attempt s k c w))
     = trace w ++ [{| e_stage := s; e_attempt := k; e_call := c;
                      e_ok := attempt_result 0 w |}].
Proof.
  destruct (run_command_result c w) as (Hr & Hp & Ht & _).
  unfold attempt, bind, modify, ret.
  destruct (run_command c w) as [ok w1]. cbn in *.
  subst ok. rewrite Hp, Ht. repeat split.
Qed.

Lemma attempt_result_tail j w w' :
  pending w' = tail (pending w) -> attempt_result j w' = attempt_result (S j) w.
Proof.
  unfold attempt_result. intros ->. destruct (pending w); reflexivity.
Qed.

(** The fallback chain of the rebuild, by the results of its attempts. *)
Lemma step4_rebuild_run ev w :
  let b1 := attempt_result 0 w in
  let b2 := attempt_result 1 w in
  let b3 := attempt_result 2 w in
  fst (step4_rebuild ev w) = b1 || b2 || b3
  /\ trace (snd (step4_rebuild ev w))
     = trace w ++ (if b1 then chain_trace Rebuild (rebuild_attempts ev) 1
                   else if b2 then chain_trace Rebuild (rebuild_attempts ev) 2
                   else if b3 then chain_trace Rebuild (rebuild_attempts ev) 3
                   else chain_failed Rebuild (rebuild_attempts ev)).
Proof.
  cbn zeta. unfold step4_rebuild, bind, ret.
  cbn [log modify].
  set (w0 := set_log_queue _ w).
  destruct (attempt_run Rebuild 1 (rebuild_method1 ev) w0) as (Hr1 & Hp1 & Ht1).
  change (attempt_result 0 w0) with (attempt_result 0 w) in *.
  change (trace w0) with (trace w) in *.
  change (pending w0) with (pending w) in *.
  destruct (attempt Rebuild 1 (rebuild_method1 ev) w0) as [ok1 w1].
  cbn [fst snd] in *. subst ok1.
  destruct (attempt_result 0 w) eqn:E1; cbn [negb orb].
  { cbn [fst snd]. split; [reflexivity | exact Ht1]. }
  cbn [log modify].
  set (w1' := set_log_queue _ w1).
  destruct (attempt_run Rebuild 2 rebuild_method2 w1') as (Hr2 & Hp2 & Ht2).
  change (attempt_result 0 w1') with (attempt_result 0 w1) in *.
  change (trace w1') with (trace w1) in *.
  change (pending w1') with (pending w1) in *.
  rewrite (attempt_result_tail 0 w w1 Hp1) in *.
  destruct (attempt Rebuild 2 rebuild_method2 w1') as [ok2 w2].
  cbn [fst snd] in *. subst ok2.
  destruct (attempt_result 1 w) eqn:E2; cbn [negb orb].
  { cbn [fst snd]. split; [reflexivity|].
    rewrite Ht2, Ht1, <- app_assoc. reflexivity. }
  cbn [log modify].
  set (w2' := set_log_queue _ w2).
  destruct (attempt_run Rebuild 3 (rebuild_method3 ev) w2') as (Hr3 & Hp3 & Ht3).
  change (attempt_result 0 w2') with (attempt_result 0 w2) in *.
  change (trace w2') with (trace w2) in *.
  change (pending w2') with (pending w2) in *.
  rewrite (attempt_result_tail 0 w1 w2 Hp2) in *.
  rewrite (attempt_result_tail 1 w w1 Hp1) in *.
  destruct (attempt Rebuild 3 (rebuild_method3 ev) w2') as [ok3 w3].
  cbn [fst snd] in *. subst ok3.
  split; [reflexivity|].
  rewrite Ht3, Ht2, Ht1, <- !app_assoc.
  destruct (attempt_result 2 w); reflexivity.
Qed.

(** ** Whole runs *)

Lemma run_build_possible w :
  trace w = [] ->
  (fst (run_build w), skeleton (trace (snd (run_build w)))) ∈ possible_runs
  /\ (exists ev, Forall (declared (config w) ev) (trace (snd (run_build w))))
  /\ (fst (run_build w) <> BuildSucceeded ->
      ends_in_error (log_queue (snd (run_build w)))).
Proof.
  intros Hw.
  destruct (run_build_emits w) as (es & ls & _ & Ht & Hl & Hin & Hd & He).
  rewrite Ht, Hl, Hw. cbn [app].
  split; [exact Hin|]. split; [exact Hd|].
  intros H. apply ends_in_error_app, He, H.
Qed.

Lemma possible_runs_exhausted s :
  critical s = true ->
  Forall (fun r : Exit * list Step =>
            exhausted s r.2 = true ->
            r.1 = exit_on_exhaustion s /\ stage_steps s r.2 `suffix_of` r.2)
         possible_runs.
Proof.
  destruct s; try discriminate; intros _;
    apply (bool_decide_unpack _); vm_compute; exact I.
Qed.

Lemma possible_runs_first_success :
  Forall (fun r : Exit * list Step =>
            Forall (fun st : Step =>
                      st.2 = true ->
                      stage_steps st.1.1 r.2
                      = map (fun j => (st.1.1, j, false)) (seq 1 (st.1.2 - 1)) ++ [st])
                   r.2)
         possible_runs.
Proof. apply (bool_decide_unpack _); vm_compute; exact I. Qed.

Lemma possible_runs_package_follows :
  Forall (fun r : Exit * list Step =>
            Forall (fun st : Step =>
                      st.1.1 = Rebuild -> st.2 = true ->
                      (Package, 1, true) ∈ r.2 \/ (Package, 1, false) ∈ r.2)
                   r.2)
         possible_runs.
Proof. apply (bool_decide_unpack _); vm_compute; exact I. Qed.

(** C5.  The fallback chain of the native rebuild has three attempts, and
    attempt [j+1] consumes the [j]-th behaviour scripted for the processes
    to come.  If attempt [k] is the first whose command succeeds, the stage
    succeeds and has run exactly the first [k] declared commands, in order,
    numbered 1 to [k], the last one with success; no later attempt is run.
    For every stage of a whole build: when attempt [k] of the stage
    succeeded, the commands run for that stage are exactly attempts 1 to
    [k], the earlier ones failed and none follows. *)
Theorem C5_first_success_ends_chain ev w k :
  (1 <= k <= 3 ->
   (forall j, j < k - 1 -> attempt_result j w = false) ->
   attempt_result (k - 1) w = true ->
   fst (step4_rebuild ev w) = true
   /\ trace (snd (step4_rebuild ev w))
      = trace w ++ chain_trace Rebuild (rebuild_attempts ev) k)
  /\ (forall s,
         trace w = [] ->
         (s, k, true) ∈ skeleton (trace (snd (run_build w))) ->
         stage_steps s (skeleton (trace (snd (run_build w))))
         = map (fun j => (s, j, false)) (seq 1 (k - 1)) ++ [(s, k, true)]).
Proof.
  split.
  - intros Hk Hfail Hok.
    destruct (step4_rebuild_run ev w) as [Hr Ht]. cbn zeta in *.
    rewrite Hr, Ht.
    assert (k = 1 \/ k = 2 \/ k = 3) as [-> | [-> | ->]] by lia; cbn [Nat.sub] in *.
    + rewrite Hok. split; reflexivity.
    + rewrite (Hfail 0), Hok by lia. split; reflexivity.
    + rewrite (Hfail 0), (Hfail 1), Hok by lia. split; reflexivity.
  - intros s Hw Hin.
    destruct (run_build_possible w Hw) as [Hp _].
    pose proof possible_runs_first_success as Hall.
    rewrite Forall_forall in Hall. specialize (Hall _ Hp). cbn [fst snd] in Hall.
    rewrite Forall_forall in Hall. exact (Hall _ Hin eq_refl).
Qed.

(** Two failing attempts, then a success. *)
Lemma C5_first_success_ends_chain_witness :
  fst (step4_rebuild (Some (u "33.0.0")) third_attempt_world) = true
  /\ trace (snd (step4_rebuild (Some (u "33.0.0")) third_attempt_world))
     = chain_trace Rebuild (rebuild_attempts (Some (u "33.0.0"))) 3.
Proof.
  destruct (C5_first_success_ends_chain (Some (u "33.0.0")) third_attempt_world 3)
    as [H _].
  apply H.
  - lia.
  - intros j Hj. assert (j = 0 \/ j = 1) as [-> | ->] by lia; reflexivity.
  - reflexivity.
Defined.

(** C2.  The critical stages are the native rebuild, the packaging and the
    installer.  When the three commands of the rebuild chain fail, the stage
    has made its three attempts, in order, and reports failure.  In a whole
    build, when every attempt of the chain of a critical stage was made and
    failed, the build ends at once and not with the success report: with the
    [return] of line 1569 for the rebuild, with the failure report for the
    other two; the failed attempts are the last commands the build ran; and
    the last line of the log is an error line. *)
Theorem C2_critical_stage_exhausted w s :
  (forall ev,
      attempt_result 0 w = false ->
      attempt_result 1 w = false ->
      attempt_result 2 w = false ->
      fst (step4_rebuild ev w) = false
      /\ trace (snd (step4_rebuild ev w))
         = trace w ++ chain_failed Rebuild (rebuild_attempts ev))
  /\ (trace w = [] ->
      critical s = true ->
      exhausted s (skeleton (trace (snd (run_build w)))) = true ->
      fst (run_build w) = exit_on_exhaustion s
      /\ fst (run_build w) <> BuildSucceeded
      /\ (exists earlier,
             skeleton (trace (snd (run_build w)))
             = earlier ++ stage_steps s (skeleton (trace (snd (run_build w)))))
      /\ ends_in_error (log_queue (snd (run_build w)))).
Proof.
  split.
  - intros ev H0 H1 H2.
    destruct (step4_rebuild_run ev w) as [Hr Ht]. cbn zeta in *.
    rewrite Hr, Ht, H0, H1, H2. split; reflexivity.
  - intros Hw Hc Hex.
    destruct (run_build_possible w Hw) as (Hp & _ & Herr).
    pose proof (possible_runs_exhausted s Hc) as Hall.
    rewrite Forall_forall in Hall.
    destruct (Hall _ Hp Hex) as [Hexit Hsuffix]. cbn [fst snd] in *.
    assert (fst (run_build w) <> BuildSucceeded) as Hne.
    { rewrite Hexit. destruct s; discriminate. }
    repeat split; [exact Hexit | exact Hne | exact Hsuffix | exact (Herr Hne)].
Qed.

(** A build whose three rebuild attempts fail. *)
Lemma C2_critical_stage_exhausted_witness :
  fst (run_build rebuild_fails_world) = CriticalReturn
  /\ skeleton (trace (snd (run_build rebuild_fails_world)))
     = [(NpmInstall, 1, true); (Rebuild, 1, false); (Rebuild, 2, false);
        (Rebuild, 3, false)].
Proof.
  destruct (C2_critical_stage_exhausted rebuild_fails_world Rebuild) as [_ H].
  destruct H as (H & _ & _ & _).
  - reflexivity.
  - reflexivity.
  - vm_compute. reflexivity.
  - split; [exact H | vm_compute; reflexivity].
Defined.

(** C1 (amended).  After a successful rebuild the time-stamp check only
    writes one line to the log: a success line when the compiled module
    exists and was modified less than 60 seconds before the check, a warning
    otherwise.  It changes nothing else, and whatever it finds the build goes
    on to the packaging stage. *)
Theorem C1_timestamp_check_only_warns w :
  (exists message,
      verify_rebuild w
      = (tt, set_log_queue
               (log_queue w
                ++ [(message,
                     if exists_ better_sqlite_node (fs w)
                        && (artifact_age w <? 60)%Z
                     then success else warning)]) w))
  /\ (trace w = [] ->
      forall k, (Rebuild, k, true) ∈ skeleton (trace (snd (run_build w))) ->
      exists ok, (Package, 1, ok) ∈ skeleton (trace (snd (run_build w)))).
Proof.
  split.
  - unfold verify_rebuild, artifact_age, bind, get.
    destruct (exists_ better_sqlite_node (fs w)); cbn [andb].
    + match goal with
      | |- context [(?a <? 60)%Z] => destruct (a <? 60)%Z
      end; eexists; reflexivity.
    + eexists; reflexivity.
  - intros Hw k Hin.
    destruct (run_build_possible w Hw) as [Hp _].
    pose proof possible_runs_package_follows as Hall.
    rewrite Forall_forall in Hall. specialize (Hall _ Hp). cbn [fst snd] in Hall.
    rewrite Forall_forall in Hall.
    destruct (Hall _ Hin eq_refl eq_refl) as [H|H]; eauto.
Qed.

(** A build with a stale compiled module still reaches the packaging. *)
Lemma C1_timestamp_check_only_warns_witness :
  exists ok, (Package, 1, ok) ∈ skeleton (trace (snd (run_build stale_artifact_world))).
Proof.
  destruct (C1_timestamp_check_only_warns stale_artifact_world) as [_ H].
  apply (H eq_refl 1). vm_compute.
  apply list_elem_of_In. cbn. tauto.
Defined.

(** C1, counterexample.  The compiled module was written at time 0 and the
    build starts at time 1000; the rebuild command exits with code 0 and
    leaves the module alone.  The check logs a warning, the packaging and the
    installer run, and the build ends with the success report. *)
Lemma C1_stale_artifact_counterexample :
  getmtime better_sqlite_node (fs stale_artifact_world) = Some 0%Z
  /\ (0 <= now stale_artifact_world)%Z
  /\ getmtime better_sqlite_node (fs (snd (run_build stale_artifact_world))) = Some 0%Z
  /\ In (u "   ⚠️ better_sqlite3.node ist 16 Minuten alt - möglicherweise nicht neu gebaut!",
         warning)
        (log_queue (snd (run_build stale_artifact_world)))
  /\ skeleton (trace (snd (run_build stale_artifact_world)))
     = [(NpmInstall, 1, true); (Rebuild, 1, true); (Package, 1, true);
        (Installer, 1, true)]
  /\ fst (run_build stale_artifact_world) = BuildSucceeded.
Proof.
  split; [reflexivity|]. split; [vm_compute; discriminate|].
  split; [vm_compute; reflexivity|].
  split; [|split; vm_compute; reflexivity].
  vm_compute. tauto.
Qed.

(** ** Cancellation while a command prints *)

Lemma set_log_queue_same w : set_log_queue (log_queue w) w = w.
Proof. destruct w; reflexivity. Qed.

Lemma read_output_prefix pre evs w :
  Forall (fun raw => raw <> []) pre -> is_building w = true ->
  read_output (map Line pre ++ evs) w
  = read_output evs (set_log_queue (log_queue w ++ omap line_entry pre) w).
Proof.
  intros Hall. revert w. induction Hall as [|raw raws Hne _ IH]; intros w Hb.
  - cbn. rewrite app_nil_r, set_log_queue_same. reflexivity.
  - cbn [map app]. rewrite read_output_line by assumption.
    cbn [omap list_omap].
    destruct (line_entry raw) as [e|].
    + rewrite IH by exact Hb. cbn. rewrite <- app_assoc. reflexivity.
    + apply IH, Hb.
Qed.

Lemma read_output_stopped rest w :
  is_building w = false -> read_output (map Line rest) w = (tt, w).
Proof.
  intros Hb. destruct rest as [|[|c raw] rest]; cbn [map read_output]; try reflexivity.
  unfold bind, get. rewrite Hb. reflexivity.
Qed.

(** The stop button while a process is attached: the process is killed, the
    cancellation is logged, the flag is cleared and no further line is
    handled. *)
Lemma read_output_stop rest w pid :
  process w = Some pid ->
  read_output (StopPressed :: map Line rest) w
  = (tt, set_is_building false
           (set_log_queue (log_queue w ++ [(u "⏹️ Build abgebrochen!", warning)])
              (set_killed (killed w ++ [pid]) w))).
Proof.
  intros Hp. cbn [read_output].
  unfold bind at 1. unfold stop_build, bind, get, kill_process_tree, modify, log.
  rewrite Hp. apply read_output_stopped. reflexivity.
Qed.

(** C3 (code defect).  On a Windows host the user presses stop while the
    first rebuild attempt prints, after its first line.  [stop_build] asks
    for the process tree of that process to be ended, logs the cancellation
    and clears [is_building]; [run_command] handles no later line of the
    process.  [run_build], which never reads [is_building], then takes the
    ended command for a failed attempt: it runs the second rebuild method,
    the packaging and the installer, and ends with the success report and
    the status of a successful build.  The run is not ended by the stop and
    there is no cancelled way for it to end. *)
Theorem C3_cancelled_build_goes_on :
  win32 (config cancelled_world) = true
  /\ kill_target (win32 (config cancelled_world)) 2 = ProcessTree 2
  /\ killed (snd (run_build cancelled_world)) = [2]
  /\ is_building (snd (run_build cancelled_world)) = false
  /\ In (u "   rebuilding", info) (log_queue (snd (run_build cancelled_world)))
  /\ In (u "⏹️ Build abgebrochen!", warning)
        (log_queue (snd (run_build cancelled_world)))
  /\ ~ In (u "   more output", info) (log_queue (snd (run_build cancelled_world)))
  /\ skeleton (trace (snd (run_build cancelled_world)))
     = [(NpmInstall, 1, true); (Rebuild, 1, false); (Rebuild, 2, true);
        (Package, 1, true); (Installer, 1, true)]
  /\ fst (run_build cancelled_world) = BuildSucceeded
  /\ In (u "✅ BUILD ERFOLGREICH!", success)
        (log_queue (snd (run_build cancelled_world)))
  /\ scheduled (snd (run_build cancelled_world))
     = [SetStatus (u "✅ Build erfolgreich!");
        ShowInfo (u "Build erfolgreich!")
                 (u "Der Windows Installer für 'LTTH' wurde erfolgreich erstellt!"
                    ++ [10%N; 10%N] ++ u "Du findest ihn im dist-Ordner.");
        BuildFinished].
Proof.
  split; [reflexivity|]. split; [reflexivity|].
  split; [vm_compute; reflexivity|]. split; [vm_compute; reflexivity|].
  split; [vm_compute; tauto|]. split; [vm_compute; tauto|].
  split.
  { vm_compute. intros H.
    repeat (destruct H as [H|H]; [discriminate H|]). exact H. }
  split; [vm_compute; reflexivity|]. split; [vm_compute; reflexivity|].
  split; [vm_compute; tauto|]. vm_compute. reflexivity.
Qed.

(** ** The signing environment in a build *)

Lemma prepare_signing_result w : fst (prepare_signing w) = signing_env_of (config w).
Proof.
  destruct (prepare_signing_emits w) as (es & ls & _ & _ & _ & _ & H). exact H.
Qed.

(** C6.  With signing enabled, let the credential reference be the text of
    its field without surrounding white space, as the code reads it, and the
    passphrase the text of its field.  Both empty: nothing is added to the
    environment of the packaging command.  Both non-empty: the two variables
    are handed to the packaging command and are in the environment of its
    process.  Exactly one non-empty: a warning is logged and nothing is added
    to the environment.  The packaging command of a build is the one made
    from this signing environment, and [run_command] starts its process with
    the environment [child]. *)
Theorem C6_signing_environment w :
  signing_enabled_var (config w) = true ->
  let csc_link := strip (csc_link_var (config w)) in
  let csc_password := csc_password_var (config w) in
  let signing_env := fst (prepare_signing w) in
  let child := child_env (environ (config w))
                         (extra_env (package_call signing_env)) in
  (csc_link = [] -> csc_password = [] ->
     extra_env (package_call signing_env) = None
     /\ child = environ (config w))
  /\ (csc_link <> [] -> csc_password <> [] ->
        extra_env (package_call signing_env)
        = Some (<[CSC_KEY_PASSWORD := csc_password]> {[CSC_LINK := csc_link]})
        /\ child !! CSC_LINK = Some csc_link
        /\ child !! CSC_KEY_PASSWORD = Some csc_password)
  /\ ((csc_link = [] /\ csc_password <> []) \/ (csc_link <> [] /\ csc_password = []) ->
        extra_env (package_call signing_env) = None
        /\ child = environ (config w)
        /\ log_queue (snd (prepare_signing w))
           = log_queue w
             ++ [(u "   ⚠️ Code Signing aktiviert aber unvollständig konfiguriert!",
                  warning)])
  /\ (trace w = [] ->
      forall e, e ∈ trace (snd (run_build w)) ->
                e_stage e = Package -> e_call e = package_call signing_env)
  /\ (forall w', config w' = config w ->
        spawned (snd (run_command (package_call signing_env) w'))
        = spawned w'
          ++ [(platform_cmd (win32 (config w)) (cmd (package_call signing_env)),
               [], child)]).
Proof.
  intros Hen. cbn zeta.
  destruct (signing_cases w Hen) as (H1 & H2 & H3). cbn zeta in *.
  split; [exact H1|]. split; [exact H2|]. split; [exact H3|]. split.
  - intros Hw e Hin Hstage.
    destruct (run_build_possible w Hw) as (_ & [ev Hd] & _).
    rewrite Forall_forall in Hd. specialize (Hd e Hin).
    unfold declared in Hd. rewrite Hstage in Hd.
    rewrite prepare_signing_result. exact Hd.
  - intros w' Hcfg.
    destruct (run_command_result (package_call (fst (prepare_signing w))) w')
      as (_ & _ & _ & Hs).
    rewrite Hs, Hcfg. reflexivity.
Qed.

(** A certificate file and its passphrase. *)
Lemma C6_signing_environment_witness :
  extra_env (package_call
               (fst (prepare_signing
                       (start_world
                          {| signing_enabled_var := true;
                             csc_link_var := u " cert.pfx ";
                             csc_password_var := u "secret";
                             app_name_var := u "LTTH"; custom_icon_path := None;
                             environ := ∅; win32 := true; copy_error := None |}
                          (Dir []) 0 [] []))))
  = Some (<[CSC_KEY_PASSWORD := u "secret"]> {[CSC_LINK := u "cert.pfx"]}).
Proof.
  pose proof (C6_signing_environment
                (start_world
                   {| signing_enabled_var := true;
                      csc_link_var := u " cert.pfx ";
                      csc_password_var := u "secret";
                      app_name_var := u "LTTH"; custom_icon_path := None;
                      environ := ∅; win32 := true; copy_error := None |}
                   (Dir []) 0 [] []) eq_refl) as H.
  cbn zeta in H. destruct H as (_ & H & _).
  destruct H as [H _]; [vm_compute; discriminate | vm_compute; discriminate |].
  exact H.
Defined.


(** ** Association lists *)

Lemma pystr_eqb_refl k : pystr_eqb k k = true.
Proof. unfold pystr_eqb. apply bool_decide_eq_true. reflexivity. Qed.

Lemma pystr_eqb_neq k k' : k <> k' -> pystr_eqb k k' = false.
Proof. intros H. unfold pystr_eqb. apply bool_decide_eq_false. exact H. Qed.

Lemma assoc_update_same {A} k f (es : list (pystr * A)) :
  assoc k (update_assoc k f es) = Some (f (assoc k es)).
Proof.
  induction es as [|[k' v] es IH]; cbn [assoc update_assoc].
  - rewrite pystr_eqb_refl. reflexivity.
  - destruct (pystr_eqb k k') eqn:E; cbn [assoc]; rewrite E; [reflexivity | exact IH].
Qed.

Lemma assoc_update_other {A} k k' f (es : list (pystr * A)) :
  k <> k' -> assoc k (update_assoc k' f es) = assoc k es.
Proof.
  intros Hne. induction es as [|[k0 v] es IH]; cbn [assoc update_assoc].
  - rewrite pystr_eqb_neq by exact Hne. reflexivity.
  - destruct (pystr_eqb k' k0) eqn:E; cbn [assoc].
    + unfold pystr_eqb in E. apply bool_decide_eq_true in E. subst k0.
      rewrite pystr_eqb_neq by exact Hne. reflexivity.
    + rewrite IH. reflexivity.
Qed.

Lemma pystr_eqb_eq k k' : pystr_eqb k k' = true -> k = k'.
Proof. unfold pystr_eqb. apply bool_decide_eq_true. Qed.

Lemma pystr_eqb_false k k' : pystr_eqb k k' = false -> k <> k'.
Proof. unfold pystr_eqb. apply bool_decide_eq_false. Qed.

Lemma assoc_remove_other {A} k k' (es : list (pystr * A)) :
  k <> k' -> assoc k (remove_assoc k' es) = assoc k es.
Proof.
  intros Hne. induction es as [|[k0 v] es IH]; [reflexivity|].
  cbn [assoc remove_assoc].
  destruct (pystr_eqb k' k0) eqn:E; cbn [assoc].
  - apply pystr_eqb_eq in E. subst k0.
    rewrite pystr_eqb_neq by exact Hne. exact IH.
  - rewrite IH. reflexivity.
Qed.

Lemma assoc_In {A} k (v : A) es : assoc k es = Some v -> In (k, v) es.
Proof.
  induction es as [|[k' v'] es IH]; [discriminate|]. cbn [assoc].
  destruct (pystr_eqb k k') eqn:E.
  - unfold pystr_eqb in E. apply bool_decide_eq_true in E. subst.
    intros [= ->]. left. reflexivity.
  - intros H. right. apply IH. exact H.
Qed.

Lemma In_assoc {A} k (v : A) es :
  NoDup (map fst es) -> In (k, v) es -> assoc k es = Some v.
Proof.
  induction es as [|[k' v'] es IH]; intros Hnd Hin; [destruct Hin|].
  cbn [map fst] in Hnd. apply NoDup_cons in Hnd as [Hk' Hnd]. cbn [assoc].
  destruct Hin as [[= -> ->] | Hin].
  - rewrite pystr_eqb_refl. reflexivity.
  - rewrite pystr_eqb_neq; [apply IH; assumption|].
    intros ->. apply Hk'. apply list_elem_of_In, in_map_iff.
    exists (k', v). split; [reflexivity | exact Hin].
Qed.

(** ** Text of [electron-builder.yml] *)

Lemma starts_with_iff n s :
  starts_with n s = true <-> exists post, s = n ++ post.
Proof.
  revert s; induction n as [|a n IH]; intros s; simpl.
  - split; [exists s; reflexivity | reflexivity].
  - destruct s as [|b s]; simpl.
    + split; [discriminate | intros [post H]; discriminate].
    + rewrite andb_true_iff, N.eqb_eq, IH. split.
      * intros [-> [post ->]]. exists post. reflexivity.
      * intros [post H]. injection H as -> ->. split; [reflexivity | eauto].
Qed.

Lemma contains_iff n s :
  contains n s = true <-> exists pre post, s = pre ++ n ++ post.
Proof.
  induction s as [|c s IH].
  - simpl. rewrite orb_false_r, starts_with_iff. split.
    + intros [post H]. exists [], post. exact H.
    + intros [pre [post H]]. destruct pre; [eauto | discriminate].
  - cbn [contains]. rewrite orb_true_iff, starts_with_iff, IH. split.
    + intros [[post H] | [pre [post H]]].
      * exists [], post. exact H.
      * exists (c :: pre), post. rewrite H. reflexivity.
    + intros [pre [post H]]. destruct pre as [|x pre].
      * left. exists post. exact H.
      * right. injection H as -> H. eauto.
Qed.

Lemma contains_middle pre n post : contains n (pre ++ n ++ post) = true.
Proof. apply contains_iff. eauto. Qed.

Lemma contains_end pre n : contains n (pre ++ n) = true.
Proof. apply contains_iff. exists pre, []. rewrite app_nil_r. reflexivity. Qed.

Lemma contains_trans a b s :
  contains a b = true -> contains b s = true -> contains a s = true.
Proof.
  rewrite !contains_iff. intros [p1 [q1 ->]] [p2 [q2 ->]].
  exists (p2 ++ p1), (q1 ++ q2). rewrite <- !app_assoc. reflexivity.
Qed.

Lemma contains_join n sep x parts :
  In x parts -> contains n x = true -> contains n (join sep parts) = true.
Proof.
  intros Hin Hx. eapply contains_trans; [exact Hx|]. clear Hx.
  induction parts as [|p ps IH]; [destruct Hin|].
  destruct ps as [|p' ps].
  - destruct Hin as [-> | []]. apply (contains_end []).
  - change (join sep (p :: p' :: ps)) with (p ++ sep ++ join sep (p' :: ps)).
    destruct Hin as [-> | Hin].
    + apply (contains_middle [] x).
    + apply contains_iff in IH as [pre [post E]]; [|exact Hin].
      rewrite E. apply contains_iff.
      exists (p ++ sep ++ pre), post. rewrite <- !app_assoc. reflexivity.
Qed.

(** Where [old] occurs, [replace] puts [new]. *)
Lemma replace_from_occurs old new s :
  old <> [] -> contains old s = true ->
  exists pre post, replace_from old new 0 s = pre ++ new ++ post.
Proof.
  intros Hold. induction s as [|c s IH]; intros H.
  - simpl in H. rewrite orb_false_r in H. destruct old; [congruence | discriminate].
  - cbn [contains] in H. cbn [replace_from].
    destruct (starts_with old (c :: s)) eqn:E.
    + exists [], (replace_from old new (length old - 1) s). reflexivity.
    + simpl in H. destruct (IH H) as [pre [post ->]].
      exists (c :: pre), post. reflexivity.
Qed.

Lemma replace_occurs old new s :
  old <> [] -> contains old s = true ->
  exists pre post, replace old new s = pre ++ new ++ post.
Proof.
  intros Hold H. destruct old as [|a old]; [congruence|].
  apply replace_from_occurs; assumption.
Qed.

(** [split] and [join] on lines. *)
Lemma split_lines_cons s : exists l ls, split_lines s = l :: ls.
Proof.
  induction s as [|c s [l [ls E]]]; simpl; [eauto|].
  destruct (c =? 10)%N; [eauto|]. rewrite E. eauto.
Qed.

Lemma split_lines_one_line s : Forall one_line (split_lines s).
Proof.
  induction s as [|c s IH]; simpl.
  - repeat constructor. intros [].
  - destruct (c =? 10)%N eqn:E.
    + constructor; [intros [] | exact IH].
    + destruct (split_lines s) as [|l ls]; [repeat constructor|].
      * intros [-> | []]. discriminate.
      * inversion IH; subst. constructor; [|assumption].
        intros [-> | H]; [discriminate | contradiction].
Qed.

Lemma split_lines_app l s :
  one_line l ->
  split_lines (l ++ 10%N :: s) = l :: split_lines s.
Proof.
  induction l as [|c l IH]; intros H; simpl; [reflexivity|].
  destruct (c =? 10)%N eqn:E.
  - apply N.eqb_eq in E. subst. destruct H. left. reflexivity.
  - rewrite IH; [reflexivity|]. intros Hin. apply H. right. exact Hin.
Qed.

Lemma split_lines_single l : one_line l -> split_lines l = [l].
Proof.
  induction l as [|c l IH]; intros H; simpl; [reflexivity|].
  destruct (c =? 10)%N eqn:E.
  - apply N.eqb_eq in E. subst. destruct H. left. reflexivity.
  - rewrite IH; [reflexivity|]. intros Hin. apply H. right. exact Hin.
Qed.

Lemma split_lines_join ls :
  ls <> [] -> Forall one_line ls -> split_lines (join [10%N] ls) = ls.
Proof.
  induction ls as [|l ls IH]; intros Hne H; [congruence|].
  inversion H as [|? ? Hl Hls]; subst.
  destruct ls as [|l' ls].
  - apply split_lines_single. exact Hl.
  - change (join [10%N] (l :: l' :: ls)) with (l ++ 10%N :: join [10%N] (l' :: ls)).
    rewrite split_lines_app by exact Hl. f_equal. apply IH; [discriminate | exact Hls].
Qed.

Lemma join_split_lines s : join [10%N] (split_lines s) = s.
Proof.
  induction s as [|c s IH]; simpl; [reflexivity|].
  destruct (split_lines_cons s) as [l [ls E]]. rewrite E in *.
  destruct (c =? 10)%N eqn:Ec.
  - apply N.eqb_eq in Ec. subst c.
    change (join [10%N] ([] :: l :: ls)) with (10%N :: join [10%N] (l :: ls)).
    rewrite IH. reflexivity.
  - destruct ls as [|l' ls].
    + simpl in *. rewrite IH. reflexivity.
    + change (join [10%N] ((c :: l) :: l' :: ls))
        with (c :: (l ++ [10%N] ++ join [10%N] (l' :: ls))).
      change (join [10%N] (l :: l' :: ls))
        with (l ++ [10%N] ++ join [10%N] (l' :: ls)) in IH.
      rewrite IH. reflexivity.
Qed.

(** X20: [update_builder_yml_for_installer_sidebar] writes only a file that
    has an [nsis:] section and does not mention [installerSidebar]; the
    text it writes mentions [installerSidebar], so running it again on the
    written file writes and logs nothing. *)
Theorem sidebar_update_runs_once content written :
  fst (update_builder_yml_for_installer_sidebar (Some content)) = Some written ->
  contains (u "nsis:") content = true /\
  contains (u "installerSidebar") content = false /\
  contains new_nsis written = true /\
  update_builder_yml_for_installer_sidebar (Some written) = (None, []).
Proof.
  unfold update_builder_yml_for_installer_sidebar.
  destruct (contains (u "installerSidebar") content) eqn:Es; [discriminate|].
  destruct (contains (u "nsis:") content) eqn:En; [|discriminate].
  cbn [negb fst]. intros [= <-].
  destruct (replace_occurs (u "nsis:") new_nsis content) as [pre [post E]];
    [discriminate | exact En |].
  assert (Hnew : contains new_nsis (replace (u "nsis:") new_nsis content) = true)
    by (rewrite E; apply contains_middle).
  repeat split; [exact Hnew|].
  rewrite (contains_trans (u "installerSidebar") new_nsis _); [reflexivity | | exact Hnew].
  vm_compute. reflexivity.
Qed.

Lemma sidebar_update_runs_once_witness :
  update_builder_yml_for_installer_sidebar
    (Some (replace (u "nsis:") new_nsis (u "appId: x" ++ [10%N] ++ u "nsis:" ++ [10%N] ++ u "  oneClick: false")))
  = (None, []).
Proof.
  apply (sidebar_update_runs_once
           (u "appId: x" ++ [10%N] ++ u "nsis:" ++ [10%N] ++ u "  oneClick: false")).
  vm_compute. reflexivity.
Defined.

(** The lines written by [rewrite_lines]. *)
Lemma rewrite_lines_length clean lines :
  length (fst (rewrite_lines clean lines)) = length lines.
Proof.
  induction lines as [|l ls IH]; [reflexivity|]. cbn [rewrite_lines].
  destruct (rewrite_lines clean ls) as [nl upd]. simpl in IH.
  destruct (is_hash_comment l); [|destruct (is_cert_comment l)]; simpl; congruence.
Qed.

Lemma rewrite_lines_plain clean lines :
  Forall plain_line lines -> rewrite_lines clean lines = (lines, false).
Proof.
  induction 1 as [|l ls [H1 H2] _ IH]; [reflexivity|].
  cbn [rewrite_lines]. rewrite IH, H1, H2. reflexivity.
Qed.

Lemma hash_line_plain : plain_line hash_line.
Proof. split; vm_compute; reflexivity. Qed.

Lemma hash_line_one_line : one_line hash_line.
Proof.
  unfold one_line. rewrite <- list_elem_of_In.
  apply (bool_decide_unpack _). vm_compute. exact I.
Qed.

(** Either the certificate line was written, or every written line is
    free of both markers and of line breaks. *)
Lemma rewrite_lines_cases clean lines :
  Forall one_line lines ->
  In (u "  " ++ cert_setting clean) (fst (rewrite_lines clean lines))
  \/ Forall (fun l => plain_line l /\ one_line l) (fst (rewrite_lines clean lines)).
Proof.
  induction 1 as [|l ls Hl _ IH]; [right; constructor|].
  cbn [rewrite_lines]. destruct (rewrite_lines clean ls) as [nl upd]. simpl in IH.
  destruct (is_hash_comment l) eqn:E1; [|destruct (is_cert_comment l) eqn:E2]; simpl.
  - destruct IH as [IH|IH]; [left; right; exact IH | right].
    constructor; [split; [apply hash_line_plain | apply hash_line_one_line] | exact IH].
  - left. left. reflexivity.
  - destruct IH as [IH|IH]; [left; right; exact IH | right].
    constructor; [repeat split; assumption | exact IH].
Qed.

(** X21: once [auto_update_electron_builder_yml] has rewritten the file,
    running it again with the same subject name writes nothing. *)
Theorem auto_update_runs_once cert_subject_name write_error write_error'
    content written :
  fst (auto_update_electron_builder_yml cert_subject_name write_error
         (Readable content))
  = Some written ->
  fst (auto_update_electron_builder_yml cert_subject_name write_error'
         (Readable written)) = None.
Proof.
  unfold auto_update_electron_builder_yml.
  set (clean := clean_cert_name cert_subject_name).
  destruct (contains (cert_setting clean) content); [discriminate|].
  pose proof (rewrite_lines_cases clean (split_lines content)
                (split_lines_one_line content)) as Hc.
  pose proof (rewrite_lines_length clean (split_lines content)) as Hlen.
  destruct (rewrite_lines clean (split_lines content)) as [nl upd].
  cbn [fst] in Hc, Hlen. destruct upd; [|discriminate].
  destruct write_error; [discriminate|].
  cbn [fst]. intros [= <-].
  destruct (contains (cert_setting clean) (join [10%N] nl)) eqn:E; [reflexivity|].
  destruct Hc as [Hc|Hc].
  - rewrite (contains_join _ _ _ _ Hc) in E; [discriminate|].
    apply contains_end.
  - rewrite split_lines_join.
    + rewrite rewrite_lines_plain; [reflexivity|].
      eapply Forall_impl; [exact Hc|]. intros l [Hl _]. exact Hl.
    + destruct (split_lines_cons content) as [l [ls El]]. rewrite El in Hlen.
      destruct nl; [discriminate | discriminate].
    + eapply Forall_impl; [exact Hc|]. intros l [_ Hl]. exact Hl.
Qed.

Lemma auto_update_runs_once_witness :
  fst (auto_update_electron_builder_yml (u " 'Pup Cid' ") None
         (Readable (join [10%N] [u "win:"; hash_line;
                                 u "  " ++ cert_setting (u "Pup Cid")])))
  = None.
Proof.
  apply (auto_update_runs_once (u " 'Pup Cid' ") None None
           (join [10%N] [u "win:"; u "  # signingHashAlgorithms: [sha1]";
                         u "  #certificateSubjectName: name"])).
  vm_compute. reflexivity.
Defined.

Lemma cert_line_one_line clean :
  one_line clean -> one_line (u "  " ++ cert_setting clean).
Proof.
  unfold one_line, cert_setting, quote. intros H Hin.
  repeat (apply in_app_or in Hin as [Hin|Hin]); try (apply H; exact Hin);
    revert Hin; rewrite <- list_elem_of_In;
    apply (bool_decide_unpack _); vm_compute; exact I.
Qed.

Lemma rewrite_lines_one_line clean lines :
  one_line clean -> Forall one_line lines ->
  Forall one_line (fst (rewrite_lines clean lines)).
Proof.
  intros Hc. induction 1 as [|l ls Hl _ IH]; [constructor|].
  cbn [rewrite_lines]. destruct (rewrite_lines clean ls) as [nl upd]. simpl in IH.
  destruct (is_hash_comment l); [|destruct (is_cert_comment l)]; simpl;
    (constructor;
     [first [apply hash_line_one_line | apply cert_line_one_line; exact Hc | exact Hl]
     | exact IH]).
Qed.

Lemma rewrite_lines_lookup clean lines (i : nat) line :
  lines !! i = Some line -> plain_line line ->
  fst (rewrite_lines clean lines) !! i = Some line.
Proof.
  intros Hi [H1 H2]. revert i Hi.
  induction lines as [|l ls IH]; intros i Hi; [discriminate|].
  cbn [rewrite_lines]. destruct (rewrite_lines clean ls) as [nl upd]. simpl in IH.
  destruct i as [|i]; simpl in Hi.
  - injection Hi as ->. rewrite H1, H2. reflexivity.
  - destruct (is_hash_comment l); [|destruct (is_cert_comment l)]; simpl; auto.
Qed.

(** X22: with a subject name that has no line break, the rewritten file has
    as many lines as before and every line without a marker is where it
    was, unchanged. *)
Theorem auto_update_keeps_lines cert_subject_name write_error content written :
  one_line (clean_cert_name cert_subject_name) ->
  fst (auto_update_electron_builder_yml cert_subject_name write_error
         (Readable content))
  = Some written ->
  length (split_lines written) = length (split_lines content) /\
  forall (i : nat) line,
    split_lines content !! i = Some line ->
    plain_line line ->
    split_lines written !! i = Some line.
Proof.
  unfold auto_update_electron_builder_yml.
  set (clean := clean_cert_name cert_subject_name). intros Hclean.
  destruct (contains (cert_setting clean) content); [discriminate|].
  pose proof (rewrite_lines_one_line clean (split_lines content) Hclean
                (split_lines_one_line content)) as Hone.
  pose proof (rewrite_lines_length clean (split_lines content)) as Hlen.
  pose proof (rewrite_lines_lookup clean (split_lines content)) as Hlook.
  destruct (rewrite_lines clean (split_lines content)) as [nl upd].
  cbn [fst] in *. destruct upd; [|discriminate].
  destruct write_error; [discriminate|]. intros [= <-].
  rewrite split_lines_join; [split; [exact Hlen | exact Hlook] | | exact Hone].
  destruct (split_lines_cons content) as [l [ls El]]. rewrite El in Hlen.
  destruct nl; discriminate.
Qed.

Lemma auto_update_keeps_lines_witness :
  split_lines
    (join [10%N] [u "win:"; hash_line; u "  " ++ cert_setting (u "Pup Cid")])
    !! 0%nat = Some (u "win:").
Proof.
  refine (proj2 (auto_update_keeps_lines (u " 'Pup Cid' ") None
            (join [10%N] [u "win:"; u "  # signingHashAlgorithms: [sha1]";
                          u "  #certificateSubjectName: name"])
            _ _ _) 0%nat (u "win:") _ _).
  - unfold one_line. rewrite <- list_elem_of_In.
    apply (bool_decide_unpack _). vm_compute. exact I.
  - vm_compute. reflexivity.
  - vm_compute. reflexivity.
  - split; vm_compute; reflexivity.
Defined.

Lemma rewrite_lines_updated clean lines :
  snd (rewrite_lines clean lines)
  = existsb (fun l => is_hash_comment l || is_cert_comment l) lines.
Proof.
  induction lines as [|l ls IH]; [reflexivity|]. cbn [rewrite_lines existsb].
  destruct (rewrite_lines clean ls) as [nl upd]. cbn [snd] in IH.
  destruct (is_hash_comment l); [reflexivity|].
  destruct (is_cert_comment l); [reflexivity|]. exact IH.
Qed.

(** X23: [auto_update_electron_builder_yml] writes the file exactly when
    the file is there and can be read, does not yet hold the setting for
    the cleaned subject name, has a line with one of the two markers, and
    can be opened for writing.  When it writes nothing it logs two lines if
    the file could not be read, or was to be written and could not be
    opened for writing, and one line in every other case. *)
Theorem auto_update_writes_iff cert_subject_name write_error file :
  let r := auto_update_electron_builder_yml cert_subject_name write_error file in
  let due content :=
    contains (cert_setting (clean_cert_name cert_subject_name)) content = false
    /\ exists line, In line (split_lines content)
                    /\ (is_hash_comment line = true \/ is_cert_comment line = true) in
  let failed :=
    (exists e, file = Unreadable e)
    \/ (exists content, file = Readable content /\ due content
                        /\ write_error <> None) in
  (r.1 <> None <->
   exists content, file = Readable content /\ due content /\ write_error = None)
  /\ (r.1 = None -> failed -> length r.2 = 2)
  /\ (r.1 = None -> ~ failed -> length r.2 = 1).
Proof.
  cbv zeta. unfold auto_update_electron_builder_yml.
  destruct file as [|e|content]; cbn [fst snd].
  - split; [|split]; [|intros _ [[e H]|[c [H _]]]; discriminate | reflexivity].
    split; [congruence | intros (c & H & _); discriminate].
  - split; [|split]; [|reflexivity | intros _ H; destruct H; eauto].
    split; [congruence | intros (c & H & _); discriminate].
  - destruct (contains (cert_setting (clean_cert_name cert_subject_name)) content)
      eqn:Ec; cbn [fst snd].
    + split; [|split].
      * split; [congruence|]. intros (c & [= <-] & [H _] & _). congruence.
      * intros _ [[e H]|(c & [= <-] & [H _] & _)]; [discriminate | congruence].
      * reflexivity.
    + pose proof (rewrite_lines_updated (clean_cert_name cert_subject_name)
                    (split_lines content)) as Hu.
      destruct (rewrite_lines (clean_cert_name cert_subject_name)
                  (split_lines content)) as [nl upd].
      cbn [snd] in Hu. subst upd.
      destruct (existsb _ (split_lines content)) eqn:Ex; cbn [fst snd].
      * apply existsb_exists in Ex as (line & Hin & Hl).
        apply orb_true_iff in Hl.
        destruct write_error as [e|]; cbn [fst snd].
        -- split; [|split]; [|reflexivity|].
           ++ split; [congruence | intros (c & _ & _ & H); discriminate].
           ++ intros _ H. destruct H. right. exists content.
              repeat split; [exact Ec | eauto | discriminate].
        -- split; [|split]; [|congruence..].
           split; [|discriminate]. intros _. exists content.
           repeat split; [exact Ec | eauto].
      * assert (Hno : forall c, Readable content = Readable c ->
                  (exists line, In line (split_lines c)
                     /\ (is_hash_comment line = true
                         \/ is_cert_comment line = true)) -> False).
        { intros c [= <-] (line & Hin & Hl).
          assert (existsb (fun l => is_hash_comment l || is_cert_comment l)
                          (split_lines content) = true) as Ht.
          { apply existsb_exists. exists line. split; [exact Hin|].
            apply orb_true_iff. exact Hl. }
          congruence. }
        split; [|split].
        -- split; [congruence|]. intros (c & Hc & [_ H] & _).
           destruct (Hno c Hc H).
        -- intros _ [[e H]|(c & Hc & [_ H] & _)];
             [discriminate | destruct (Hno c Hc H)].
        -- reflexivity.
Qed.

Lemma auto_update_writes_iff_witness :
  length (auto_update_electron_builder_yml (u "Pup Cid") (Some (u "denied"))
            (Readable (u "  # certificateSubjectName: x"))).2 = 2.
Proof.
  refine (proj1 (proj2 (auto_update_writes_iff (u "Pup Cid") (Some (u "denied"))
                          (Readable (u "  # certificateSubjectName: x")))) _ _).
  - vm_compute. reflexivity.
  - right. exists (u "  # certificateSubjectName: x").
    split; [reflexivity|]. split; [|discriminate].
    split; [vm_compute; reflexivity|].
    exists (u "  # certificateSubjectName: x").
    split; [left; reflexivity | right; vm_compute; reflexivity].
Defined.

(** ** [package.json] *)

Lemma set_app_name_cases str_lower app_name data data' :
  set_app_name str_lower app_name data = Some data' ->
  exists members build_members,
    data = JObject members
    /\ (assoc (u "build") members = Some (JObject build_members)
        \/ (assoc (u "build") members = None /\ build_members = []))
    /\ data' = JObject
                 (set_key (u "build")
                    (JObject (set_key (u "appId")
                                (JString (app_id str_lower app_name))
                                (set_key (u "productName") (JString app_name)
                                   build_members)))
                    members).
Proof.
  unfold set_app_name. destruct data as [| | | | |members]; try discriminate.
  destruct (assoc (u "build") members) as [[| | | | |bm]|] eqn:E; try discriminate;
    intros [= <-]; eauto 7.
Qed.

(** X25: after [apply_config_to_package_json] has written a non-blank
    application name, [load_app_name] reads that name, stripped, from the
    written file. *)
Theorem app_name_round_trip str_lower app_name_var type_error write_error
    data data' log :
  strip app_name_var <> [] ->
  apply_config_to_package_json str_lower app_name_var type_error write_error
                               (inr data)
  = (true, Some data', log) ->
  load_app_name (Some data') = JString (strip app_name_var).
Proof.
  intros Hname. unfold apply_config_to_package_json, write_back.
  destruct (strip app_name_var) as [|c s] eqn:En; [congruence|].
  cbn [nonempty negb].
  destruct (set_app_name str_lower (c :: s) data) as [d|] eqn:E; [|discriminate].
  destruct write_error; [discriminate|].
  intros [= <- _].
  apply set_app_name_cases in E as (members & bm & -> & _ & ->).
  unfold load_app_name, set_key.
  rewrite assoc_update_same, assoc_update_other, assoc_update_same;
    [reflexivity|].
  vm_compute. discriminate.
Qed.

Lemma app_name_round_trip_witness :
  load_app_name
    (Some (JObject [(u "name", JString (u "ltth"));
                    (u "build", JObject [(u "productName", JString (u "My Tool"));
                                         (u "appId", JString (u "com.pupcid.my-tool"))])]))
  = JString (strip (u " My Tool ")).
Proof.
  apply (app_name_round_trip lower (u " My Tool ") [] None
           (JObject [(u "name", JString (u "ltth"))])
           _ [(u "App-Name gesetzt: My Tool", success)]).
  - vm_compute. discriminate.
  - vm_compute. reflexivity.
Defined.

(** X26: a successful [apply_config_to_package_json] changes nothing but
    [productName] and [appId] inside [build]: every other top-level key and
    every other key of [build] reads as before. *)
Theorem apply_config_keeps_other_keys str_lower app_name_var type_error
    write_error data data' log :
  apply_config_to_package_json str_lower app_name_var type_error write_error
                               (inr data)
  = (true, Some data', log) ->
  (forall k, k <> u "build" -> member k data' = member k data)
  /\ (forall k, k <> u "productName" -> k <> u "appId" ->
        (member (u "build") data' ≫= member k)
        = (member (u "build") data ≫= member k)).
Proof.
  unfold apply_config_to_package_json, write_back.
  destruct write_error;
    [destruct (nonempty (strip app_name_var));
     [destruct (set_app_name str_lower (strip app_name_var) data)|];
     discriminate|].
  destruct (nonempty (strip app_name_var)); [|intros [= <- _]; split; reflexivity].
  destruct (set_app_name str_lower (strip app_name_var) data) as [d|] eqn:E;
    [|discriminate].
  intros [= <- _].
  apply set_app_name_cases in E as (members & bm & -> & Hb & ->).
  unfold member, set_key. split.
  - intros k Hk. apply assoc_update_other. exact Hk.
  - intros k H1 H2. rewrite assoc_update_same. cbn [mbind option_bind].
    rewrite !assoc_update_other by assumption.
    destruct Hb as [-> | [-> ->]]; reflexivity.
Qed.

Lemma apply_config_keeps_other_keys_witness :
  member (u "name")
    (JObject [(u "name", JString (u "ltth"));
              (u "build", JObject [(u "productName", JString (u "My Tool"));
                                   (u "appId", JString (u "com.pupcid.my-tool"))])])
  = member (u "name") (JObject [(u "name", JString (u "ltth"))]).
Proof.
  refine (proj1 (apply_config_keeps_other_keys lower (u " My Tool ") [] None
                   (JObject [(u "name", JString (u "ltth"))])
                   _ [(u "App-Name gesetzt: My Tool", success)] _)
                (u "name") _).
  - vm_compute. reflexivity.
  - vm_compute. discriminate.
Defined.

(** X27: [apply_config_to_package_json] returns [False] exactly when it
    leaves the file unwritten.  This happens exactly when the file cannot
    be loaded, or when a name is to be set and the loaded data or its
    [build] entry is not an object, or when the file cannot be opened for
    writing.  The log then ends in a line tagged as an error: that line
    alone, or, when the name had been set before the write failed, the line
    that reports the name followed by it. *)
Theorem apply_config_failure str_lower app_name_var type_error write_error file :
  let r := apply_config_to_package_json str_lower app_name_var type_error
             write_error file in
  (r.1.1 = false <-> r.1.2 = None)
  /\ (r.1.1 = false ->
      exists message,
        r.2 = [(message, error)]
        \/ (strip app_name_var <> [] /\ write_error <> None
            /\ r.2 = [(u "App-Name gesetzt: " ++ strip app_name_var, success);
                      (message, error)]))
  /\ (r.1.1 = false <->
      match file with
      | inl _ => True
      | inr data =>
          (strip app_name_var <> []
           /\ match data with
              | JObject members =>
                  match assoc (u "build") members with
                  | Some (JObject _) | None => False
                  | Some _ => True
                  end
              | _ => True
              end)
          \/ write_error <> None
      end).
Proof.
  cbv zeta. unfold apply_config_to_package_json, write_back, apply_config_failed.
  assert (Hname : forall c s, c :: s <> @nil N) by discriminate.
  destruct file as [e|data];
    [|destruct (strip app_name_var) as [|c s]; cbn [nonempty];
      [|unfold set_app_name;
        destruct data as [| | | | |members];
        [| | | | |destruct (assoc (u "build") members) as [[| | | | |bm]|]]];
      destruct write_error as [e|]];
    cbn [fst snd app];
    (split; [split; intros H; first [reflexivity | discriminate H]|]);
    (split;
     [intros H; try discriminate H;
      eexists;
      first [left; reflexivity
            |right; split; [apply Hname|split; [discriminate|reflexivity]]]
     |split;
      [intros H; try discriminate H;
       first [exact I
             |left; split; [apply Hname|exact I]
             |right; discriminate]
      |intros H; try reflexivity;
       destruct H as [[H1 H2]|H1];
       first [contradiction | congruence]]]).
Qed.

(** The file is read-only: the name is reported and the write fails. *)
Lemma apply_config_failure_witness :
  exists message,
    (apply_config_to_package_json lower (u "My Tool") (u "TypeError")
       (Some (u "Permission denied")) (inr (JObject []))).2
    = [(message, error)]
    \/ (strip (u "My Tool") <> [] /\ Some (u "Permission denied") <> None
        /\ (apply_config_to_package_json lower (u "My Tool") (u "TypeError")
              (Some (u "Permission denied")) (inr (JObject []))).2
           = [(u "App-Name gesetzt: " ++ strip (u "My Tool"), success);
              (message, error)]).
Proof.
  refine (proj1 (proj2 (apply_config_failure lower (u "My Tool") (u "TypeError")
                          (Some (u "Permission denied")) (inr (JObject [])))) _).
  vm_compute. reflexivity.
Defined.

Lemma replace_from_single c d s :
  replace_from [c] [d] 0 s = map (fun x => if (c =? x)%N then d else x) s.
Proof.
  induction s as [|x s IH]; [reflexivity|].
  cbn [replace_from starts_with length Nat.sub map].
  destruct (c =? x)%N; cbn [andb app].
  - destruct s; cbn [starts_with]; rewrite IH; reflexivity.
  - rewrite IH. reflexivity.
Qed.

(** X28: the application id has no blank in it, whatever the name is, and
    is as long as the prefix and the name together. *)
Theorem app_id_no_blank str_lower app_name :
  ~ In 32%N (app_id str_lower app_name)
  /\ length (app_id str_lower app_name) = 11 + length (str_lower app_name).
Proof.
  unfold app_id. change (replace (u " ") (u "-")) with (replace_from [32%N] [45%N] 0).
  rewrite replace_from_single. split.
  - intros H. apply in_app_or in H as [H|H].
    + revert H. rewrite <- list_elem_of_In.
      apply (bool_decide_unpack _). vm_compute. exact I.
    + apply in_map_iff in H as (x & Hx & _).
      destruct (32 =? x)%N eqn:E; [discriminate|].
      apply N.eqb_neq in E. congruence.
  - rewrite length_app, length_map. reflexivity.
Qed.

(** X29: the name shown for the icon has at most 30 characters; a name of
    up to 30 characters is shown as it is, a longer one as three dots and
    its last 27 characters. *)
Theorem short_name_bound icon_name :
  length (short_name icon_name) = Nat.min (length icon_name) 30
  /\ (length icon_name <= 30 -> short_name icon_name = icon_name)
  /\ (30 < length icon_name ->
      exists front, icon_name = front ++ drop 3 (short_name icon_name)
                    /\ take 3 (short_name icon_name) = u "...").
Proof.
  unfold short_name. destruct (Nat.ltb_spec 30 (length icon_name)) as [H|H].
  - split; [|split; [lia|]].
    + rewrite length_app, length_drop. change (length (u "...")) with 3. lia.
    + intros _. exists (take (length icon_name - 27) icon_name).
      change (drop 3 (u "..." ++ ?x)) with x.
      split; [symmetry; apply take_drop | reflexivity].
  - split; [lia|]. split; [reflexivity | lia].
Qed.

Lemma short_name_bound_witness :
  exists front,
    u "a-very-long-file-name-of-an-icon.png"
    = front ++ drop 3 (short_name (u "a-very-long-file-name-of-an-icon.png"))
    /\ take 3 (short_name (u "a-very-long-file-name-of-an-icon.png")) = u "...".
Proof.
  refine (proj2 (proj2 (short_name_bound (u "a-very-long-file-name-of-an-icon.png"))) _).
  vm_compute. lia.
Defined.

(** ** Files found by [rglob] *)

Lemma Node_nested_ind (P : Node -> Prop) :
  (forall t, P (File t)) ->
  (forall es, Forall (fun e => P (snd e)) es -> P (Dir es)) ->
  forall n, P n.
Proof.
  intros HF HD. fix IH 1. intros [t|es]; [apply HF|].
  apply HD. induction es as [|[c n'] es IHes]; constructor; [apply IH | exact IHes].
Qed.

Lemma rglob_node_Dir nm here es :
  rglob_node nm here (Dir es)
  = (match assoc nm es with Some _ => [here ++ [nm]] | None => [] end)
    ++ flat_map (fun e => rglob_node nm (here ++ [fst e]) (snd e)) es.
Proof.
  cbn [rglob_node]. f_equal.
  induction es as [|[c n'] es IH]; [reflexivity|].
  cbn [flat_map fst snd]. rewrite IH. reflexivity.
Qed.

Lemma distinct_names_Dir es :
  distinct_names (Dir es) = true <->
  NoDup (map fst es) /\ Forall (fun e => distinct_names (snd e) = true) es.
Proof.
  cbn [distinct_names]. rewrite andb_true_iff, bool_decide_eq_true.
  apply and_iff_compat_l.
  induction es as [|[c n'] es IH]; [split; [constructor | reflexivity]|].
  rewrite andb_true_iff, IH. split.
  - intros [H1 H2]. constructor; assumption.
  - intros H. inversion H; subst. split; assumption.
Qed.

(** Every path that [rglob_node] yields leads to an entry called [nm]. *)
Lemma rglob_node_sound nm n :
  distinct_names n = true ->
  forall here p, In p (rglob_node nm here n) ->
  exists q, p = here ++ q ++ [nm] /\ exists_ (q ++ [nm]) n = true.
Proof.
  induction n as [t|es IH] using Node_nested_ind; intros Hd here p Hin;
    [destruct Hin|].
  apply distinct_names_Dir in Hd as [Hnd Hsub].
  rewrite rglob_node_Dir in Hin. apply in_app_or in Hin as [Hin|Hin].
  - destruct (assoc nm es) eqn:E; [|destruct Hin].
    destruct Hin as [<- | []]. exists []. split; [reflexivity|].
    unfold exists_. cbn [app lookup_path]. rewrite E. reflexivity.
  - apply in_flat_map in Hin as ([c n'] & Hcn & Hin). cbn [fst snd] in Hin.
    rewrite Forall_forall in IH, Hsub.
    apply list_elem_of_In in Hcn.
    destruct (IH _ Hcn (Hsub _ Hcn) _ _ Hin) as (q & -> & Hq).
    exists (c :: q). split; [rewrite <- app_assoc; reflexivity|].
    unfold exists_ in *. cbn [app lookup_path].
    rewrite (In_assoc c n' es Hnd); [exact Hq|].
    apply list_elem_of_In. exact Hcn.
Qed.

(** An entry called [nm] below a directory makes [rglob_node] yield
    something. *)
Lemma rglob_node_complete nm q :
  forall n here, exists_ (q ++ [nm]) n = true -> rglob_node nm here n <> [].
Proof.
  unfold exists_. induction q as [|c q IH]; intros n here H;
    destruct n as [t|es]; cbn [app lookup_path] in H; try discriminate;
    rewrite rglob_node_Dir.
  - destruct (assoc nm es); [discriminate | discriminate].
  - destruct (assoc c es) as [n'|] eqn:E; [|discriminate].
    specialize (IH n' (here ++ [c]) H). apply assoc_In in E.
    intros Hnil. apply app_eq_nil in Hnil as [_ Hnil].
    destruct (rglob_node nm (here ++ [c]) n') as [|p ps] eqn:Er; [congruence|].
    assert (Hin : In p (flat_map (fun e => rglob_node nm (here ++ [fst e]) (snd e)) es)).
    { apply in_flat_map. exists (c, n'). split; [exact E|].
      cbn [fst snd]. rewrite Er. left. reflexivity. }
    rewrite Hnil in Hin. destruct Hin.
Qed.

Lemma distinct_names_lookup p :
  forall root n, distinct_names root = true -> lookup_path p root = Some n ->
                 distinct_names n = true.
Proof.
  induction p as [|c p IH]; intros root n Hd H; cbn [lookup_path] in H.
  - injection H as <-. exact Hd.
  - destruct root as [t|es]; [discriminate|].
    destruct (assoc c es) as [n'|] eqn:E; [|discriminate].
    apply distinct_names_Dir in Hd as [_ Hsub]. rewrite Forall_forall in Hsub.
    apply assoc_In, list_elem_of_In in E.
    exact (IH n' n (Hsub _ E) H).
Qed.

Lemma rglob_sound base nm root p :
  distinct_names root = true -> In p (rglob base nm root) ->
  exists q, p = base ++ q ++ [nm] /\ exists_ p root = true.
Proof.
  unfold rglob. intros Hd Hin.
  destruct (lookup_path base root) as [n|] eqn:E; [|destruct Hin].
  destruct (rglob_node_sound nm n (distinct_names_lookup _ _ _ Hd E) _ _ Hin)
    as (q & -> & Hq).
  exists q. split; [reflexivity|].
  unfold exists_ in *. rewrite lookup_path_app, E. exact Hq.
Qed.

Lemma rglob_complete base nm root q :
  exists_ (base ++ q ++ [nm]) root = true -> rglob base nm root <> [].
Proof.
  unfold rglob, exists_. rewrite lookup_path_app.
  destruct (lookup_path base root) as [n|]; [|discriminate].
  apply rglob_node_complete.
Qed.

Lemma parent_snoc (p : Path) c : parent (p ++ [c]) = p.
Proof. apply removelast_last. Qed.

(** X15: the directory that the search of stage 5b returns lies in or
    below one of the search bases and holds an entry [server.js]. *)
Theorem find_app_dir_sound bases root d :
  distinct_names root = true ->
  find_app_dir_in bases root = Some d ->
  exists_ (d ++ [u "server.js"]) root = true
  /\ exists base q, In base bases /\ d = base ++ q.
Proof.
  intros Hd. induction bases as [|base rest IH]; [discriminate|].
  cbn [find_app_dir_in].
  destruct (exists_ base root);
    [destruct (rglob base (u "server.js") root) as [|p ps] eqn:E|].
  - intros H. destruct (IH H) as (H1 & b & q & Hb & ->).
    split; [exact H1|]. exists b, q. split; [right; exact Hb | reflexivity].
  - intros [= <-].
    destruct (rglob_sound base (u "server.js") root p Hd) as (q & -> & Hq).
    { rewrite E. left. reflexivity. }
    rewrite app_assoc, parent_snoc. rewrite app_assoc in Hq.
    split; [exact Hq|]. exists base, q. split; [left; reflexivity | reflexivity].
  - intros H. destruct (IH H) as (H1 & b & q & Hb & ->).
    split; [exact H1|]. exists b, q. split; [right; exact Hb | reflexivity].
Qed.

(** X16: the search finds nothing exactly when there is no entry
    [server.js] at any depth below either search base. *)
Theorem find_app_dir_none bases root :
  distinct_names root = true ->
  (find_app_dir_in bases root = None <->
   forall base q, In base bases ->
                  exists_ (base ++ q ++ [u "server.js"]) root = false).
Proof.
  intros Hd. induction bases as [|base rest IH].
  - split; [intros _ base q [] | reflexivity].
  - cbn [find_app_dir_in]. split.
    + intros H b q Hb.
      assert (Hr : rglob base (u "server.js") root = []
                   /\ find_app_dir_in rest root = None).
      { destruct (exists_ base root) eqn:E.
        - destruct (rglob base (u "server.js") root); [auto | discriminate].
        - split; [apply rglob_missing; exact E | exact H]. }
      destruct Hr as [Hr Hrest]. destruct Hb as [<- | Hb].
      * destruct (exists_ (base ++ q ++ [u "server.js"]) root) eqn:E; [|reflexivity].
        apply rglob_complete in E. congruence.
      * apply (proj1 IH Hrest). exact Hb.
    + intros H.
      assert (Hr : rglob base (u "server.js") root = []).
      { destruct (rglob base (u "server.js") root) as [|p ps] eqn:E; [reflexivity|].
        destruct (rglob_sound base (u "server.js") root p Hd) as (q & -> & Hq).
        { rewrite E. left. reflexivity. }
        rewrite (H base q) in Hq; [discriminate | left; reflexivity]. }
      rewrite Hr.
      assert (Hrest : find_app_dir_in rest root = None).
      { apply IH. intros b q Hb. apply H. right. exact Hb. }
      destruct (exists_ base root); exact Hrest.
Qed.
Lemma find_app_dir_sound_witness :
  exists_ ((win_unpacked ++ [u "resources"; u "app"]) ++ [u "server.js"])
          nested_root = true.
Proof.
  refine (proj1 (find_app_dir_sound search_bases nested_root
                   (win_unpacked ++ [u "resources"; u "app"]) _ _)).
  - vm_compute. reflexivity.
  - vm_compute. reflexivity.
Defined.

Lemma find_app_dir_none_witness :
  exists_ ((win_unpacked ++ [u "resources"; u "app"]) ++ [u "app"] ++ [u "server.js"])
          (Dir [(u "dist", Dir [(u "win-unpacked", Dir [])])]) = false.
Proof.
  refine (proj1 (find_app_dir_none search_bases
                   (Dir [(u "dist", Dir [(u "win-unpacked", Dir [])])]) _)
                _ (win_unpacked ++ [u "resources"; u "app"]) [u "app"] _).
  - vm_compute. reflexivity.
  - vm_compute. reflexivity.
  - left. reflexivity.
Defined.

(** Every entry called [nm] below a directory is among the paths that
    [rglob_node] yields. *)
Lemma rglob_node_all nm q :
  forall n here, exists_ (q ++ [nm]) n = true ->
                 In (here ++ q ++ [nm]) (rglob_node nm here n).
Proof.
  unfold exists_. induction q as [|c q IH]; intros n here H;
    destruct n as [t|es]; cbn [app lookup_path] in H; try discriminate;
    rewrite rglob_node_Dir; apply in_or_app.
  - left. destruct (assoc nm es); [left; reflexivity | discriminate].
  - right. destruct (assoc c es) as [n'|] eqn:E; [|discriminate].
    apply in_flat_map. exists (c, n'). split; [apply assoc_In; exact E|].
    cbn [fst snd]. specialize (IH n' (here ++ [c]) H).
    rewrite <- app_assoc in IH. exact IH.
Qed.

Lemma rglob_all base nm root q :
  exists_ (base ++ q ++ [nm]) root = true ->
  In (base ++ q ++ [nm]) (rglob base nm root).
Proof.
  unfold rglob, exists_. rewrite lookup_path_app.
  destruct (lookup_path base root) as [n|]; [|discriminate].
  apply rglob_node_all.
Qed.

Lemma find_none_iff {A} (f : A -> bool) l :
  List.find f l = None <-> forall x, In x l -> f x = false.
Proof.
  split; [apply find_none|]. intros H.
  destruct (List.find f l) as [x|] eqn:E; [|reflexivity].
  apply find_some in E as [Hin Hx]. rewrite (H x Hin) in Hx. discriminate.
Qed.

(** X19: the verification of step 6.  The directory it reports as the
    [dotenv] it found is a directory called [dotenv] at some depth of the
    packaged tree that holds an entry [lib]; and it reports none exactly
    when the packaged tree has no such directory at any depth. *)
Theorem final_verification_dotenv root :
  distinct_names root = true ->
  (forall p, find_dotenv root = Some p ->
             is_dir p root = true /\ exists_ (p ++ [u "lib"]) root = true
             /\ exists q, p = win_unpacked ++ q ++ [u "dotenv"])
  /\ (find_dotenv root = None <->
      forall q, is_dir (win_unpacked ++ q ++ [u "dotenv"]) root
                && exists_ ((win_unpacked ++ q ++ [u "dotenv"]) ++ [u "lib"]) root
                = false).
Proof.
  intros Hd. unfold find_dotenv. split.
  - intros p H. apply find_some in H as [Hin Hp].
    apply andb_true_iff in Hp as [H1 H2].
    destruct (rglob_sound _ _ _ _ Hd Hin) as (q & -> & _). eauto.
  - rewrite find_none_iff. split.
    + intros H q.
      destruct (is_dir (win_unpacked ++ q ++ [u "dotenv"]) root) eqn:E; [|reflexivity].
      assert (Hin : In (win_unpacked ++ q ++ [u "dotenv"])
                       (rglob win_unpacked (u "dotenv") root)).
      { apply rglob_all. unfold is_dir in E. unfold exists_.
        destruct (lookup_path (win_unpacked ++ q ++ [u "dotenv"]) root);
          [reflexivity | discriminate]. }
      specialize (H _ Hin). rewrite E in H. exact H.
    + intros H p Hin.
      destruct (rglob_sound _ _ _ _ Hd Hin) as (q & -> & _). apply H.
Qed.

Lemma final_verification_dotenv_witness :
  is_dir (win_unpacked ++ [u "resources"; u "app"; u "node_modules"; u "dotenv"])
         repaired_package_root = true.
Proof.
  refine (proj1 (proj1 (final_verification_dotenv repaired_package_root _)
                   (win_unpacked ++ [u "resources"; u "app"; u "node_modules";
                                     u "dotenv"]) _)).
  - vm_compute. reflexivity.
  - vm_compute. reflexivity.
Defined.

(** ** What the repair copy changes *)

Lemma lookup_write_same p new :
  forall n, lookup_path p (write_path p new n) = Some new.
Proof.
  induction p as [|c p IH]; intros n; [reflexivity|].
  cbn [write_path lookup_path]. rewrite assoc_update_same. apply IH.
Qed.

Lemma diverges_cons p q :
  diverges p q = true ->
  exists c p' c' q', p = c :: p' /\ q = c' :: q'
                     /\ (c <> c' \/ (c = c' /\ diverges p' q' = true)).
Proof.
  destruct p as [|c p']; [discriminate|]. destruct q as [|c' q']; [discriminate|].
  cbn [diverges]. destruct (pystr_eqb c c') eqn:E; intros H.
  - apply pystr_eqb_eq in E. eauto 10.
  - apply pystr_eqb_false in E. eauto 10.
Qed.

Lemma lookup_Dir_nil p : p <> [] -> lookup_path p (Dir []) = None.
Proof. destruct p; [congruence | reflexivity]. Qed.

Lemma lookup_cons c p n :
  lookup_path (c :: p) n
  = match n with
    | Dir es => match assoc c es with Some n' => lookup_path p n' | None => None end
    | File _ => None
    end.
Proof. destruct n; reflexivity. Qed.

(** Writing at [q] is not seen from a path that parts ways with [q]. *)
Lemma lookup_write_diverges new q :
  forall p n, diverges p q = true ->
              lookup_path p (write_path q new n) = lookup_path p n.
Proof.
  induction q as [|c' q IH]; intros p n H;
    apply diverges_cons in H as (c & p' & c0 & q0 & -> & [= <- <-] & H).
  cbn [write_path]. rewrite !lookup_cons.
  destruct H as [Hne | [<- H]].
  - rewrite assoc_update_other by exact Hne. destruct n; reflexivity.
  - rewrite assoc_update_same, IH by exact H.
    assert (Hp : p' <> []) by (destruct p'; [discriminate | congruence]).
    destruct n as [t|es]; cbn [assoc].
    + apply lookup_Dir_nil. exact Hp.
    + destruct (assoc c es); [reflexivity | apply lookup_Dir_nil; exact Hp].
Qed.

Lemma remove_path_cons c q n :
  remove_path (c :: q) n
  = match n with
    | File _ => n
    | Dir es =>
        match q with
        | [] => Dir (remove_assoc c es)
        | _ :: _ =>
            match assoc c es with
            | Some _ => Dir (update_assoc c (fun o => match o with
                                                      | Some n' => remove_path q n'
                                                      | None => Dir []
                                                      end) es)
            | None => n
            end
        end
    end.
Proof. destruct n, q; reflexivity. Qed.

(** Removing [q] is not seen from a path that parts ways with [q]. *)
Lemma lookup_remove_diverges q :
  forall p n, diverges p q = true ->
              lookup_path p (remove_path q n) = lookup_path p n.
Proof.
  induction q as [|c' q IH]; intros p n H;
    apply diverges_cons in H as (c & p' & c0 & q0 & -> & [= <- <-] & H).
  rewrite remove_path_cons. destruct n as [t|es]; [reflexivity|].
  destruct q as [|c1 q].
  - destruct H as [Hne | [_ H]]; [|destruct p'; discriminate].
    rewrite !lookup_cons, assoc_remove_other by exact Hne. reflexivity.
  - destruct (assoc c' es) as [n'|] eqn:E; [|reflexivity].
    rewrite !lookup_cons. destruct H as [Hne | [<- H]].
    + rewrite assoc_update_other by exact Hne. reflexivity.
    + rewrite assoc_update_same, E. apply IH. exact H.
Qed.

Lemma mkdir_p_Dir_nil r : mkdir_p r (Dir []) = write_path r (Dir []) (Dir []).
Proof. destruct r; reflexivity. Qed.

(** Creating the directory [r] is seen only from [r] and the directories
    above it. *)
Lemma lookup_mkdir_p r :
  forall p root, ~ p `prefix_of` r ->
                 lookup_path p (mkdir_p r root) = lookup_path p root.
Proof.
  induction r as [|c r IH]; intros p root Hp; [reflexivity|].
  unfold mkdir_p. destruct (lookup_path (c :: r) root) eqn:E; [reflexivity|].
  destruct p as [|c0 p]; [destruct Hp; apply prefix_nil|].
  cbn [write_path]. rewrite !lookup_cons.
  destruct (decide (c0 = c)) as [->|Hne].
  - assert (Hp' : ~ p `prefix_of` r).
    { intros H. apply Hp. apply prefix_cons. exact H. }
    assert (Hnil : p <> []) by (intros ->; apply Hp'; apply prefix_nil).
    rewrite assoc_update_same. rewrite lookup_cons in E.
    destruct root as [t|es]; cbn [assoc].
    + rewrite <- mkdir_p_Dir_nil, IH by exact Hp'. apply lookup_Dir_nil. exact Hnil.
    + destruct (assoc c es) as [n'|].
      * rewrite <- (IH p n' Hp'). unfold mkdir_p. rewrite E. reflexivity.
      * rewrite <- mkdir_p_Dir_nil, IH by exact Hp'. apply lookup_Dir_nil. exact Hnil.
  - rewrite assoc_update_other by exact Hne. destruct root; reflexivity.
Qed.

Lemma diverges_not_prefix_parent p q :
  diverges p q = true -> ~ p `prefix_of` parent q.
Proof.
  revert p. induction q as [|c' q IH]; intros p H;
    apply diverges_cons in H as (c & p' & c0 & q0 & -> & [= <- <-] & H).
  unfold parent. destruct q as [|c1 q]; cbn [removelast].
  - intros [k Hk]. discriminate.
  - intros [k Hk]. injection Hk as -> Hk.
    destruct H as [Hne | [_ H]]; [congruence|].
    apply (IH p' H). exists k. exact Hk.
Qed.

Lemma copy_node_modules_fs nm w :
  copy_error (config w) = None ->
  fst (copy_node_modules nm w) = true
  /\ fs (snd (copy_node_modules nm w))
     = copytree source_nm nm
         (mkdir_p (parent nm)
            (if exists_ nm (fs w) then rmtree nm (fs w) else fs w)).
Proof.
  intros H. unfold copy_node_modules, bind, get. rewrite H.
  destruct (exists_ nm (fs w)); split; reflexivity.
Qed.

Lemma repair_node_modules_copy actual_app_dir w :
  needs_copy (target_nm actual_app_dir) (fs w) = true ->
  exists w0, fs w0 = fs w /\ config w0 = config w
             /\ repair_node_modules actual_app_dir w
                = copy_node_modules (target_nm actual_app_dir) w0.
Proof.
  intros H. unfold repair_node_modules, bind, get.
  destruct actual_app_dir as [d|]; cbn [target_nm] in *.
  - rewrite H. exists w. repeat split.
  - cbn [log modify snd fst]. rewrite H.
    match goal with
    | |- context [copy_node_modules ?p ?w1] => exists w1
    end.
    repeat split.
Qed.

(** The tree after the three steps of the copy. *)
Lemma copied_tree nm root n :
  diverges source_nm nm = true ->
  lookup_path source_nm root = Some n ->
  let root' := copytree source_nm nm
                 (mkdir_p (parent nm)
                    (if exists_ nm root then rmtree nm root else root)) in
  lookup_path nm root' = Some n
  /\ forall p, diverges p nm = true -> lookup_path p root' = lookup_path p root.
Proof.
  intros Hd Hs.
  set (root1 := if exists_ nm root then rmtree nm root else root).
  assert (H1 : forall p, diverges p nm = true ->
                         lookup_path p (mkdir_p (parent nm) root1) = lookup_path p root).
  { intros p Hp. rewrite lookup_mkdir_p by (apply diverges_not_prefix_parent; exact Hp).
    unfold root1, rmtree. destruct (exists_ nm root); [|reflexivity].
    apply lookup_remove_diverges. exact Hp. }
  cbv zeta. unfold copytree. rewrite (H1 _ Hd), Hs. split.
  - apply lookup_write_same.
  - intros p Hp. rewrite lookup_write_diverges by exact Hp. apply H1. exact Hp.
Qed.

Lemma needs_copy_source nm root :
  needs_copy nm root = true -> exists n, lookup_path source_nm root = Some n.
Proof.
  unfold needs_copy, exists_. intros H. apply andb_true_iff in H as [H _].
  destruct (lookup_path source_nm root) as [n|]; [eauto | discriminate].
Qed.


(** X18: after such a copy the packaged [node_modules] still counts as
    incomplete exactly when [app/node_modules] itself has no [dotenv]. *)
Theorem repair_copy_complete actual_app_dir w :
  copy_error (config w) = None ->
  needs_copy (target_nm actual_app_dir) (fs w) = true ->
  diverges source_nm (target_nm actual_app_dir) = true ->
  needs_copy (target_nm actual_app_dir)
             (fs (snd (repair_node_modules actual_app_dir w)))
  = negb (exists_ (source_nm ++ [u "dotenv"]) (fs w)).
Proof.
  intros He Hn Hd.
  destruct (repair_node_modules_copy _ _ Hn) as (w0 & Hfs & Hc & ->).
  rewrite <- Hc in He. destruct (copy_node_modules_fs (target_nm actual_app_dir) w0 He)
    as [_ ->].
  destruct (needs_copy_source _ _ Hn) as [n Hs].
  rewrite Hfs. destruct (copied_tree _ _ _ Hd Hs) as [H1 H2].
  match type of H1 with
  | lookup_path _ ?r = _ => set (root' := r) in *
  end.
  unfold needs_copy, exists_.
  rewrite (H2 _ Hd), !lookup_path_app, H1, Hs. reflexivity.
Qed.

Lemma repair_copy_complete_witness :
  needs_copy (target_nm (Some (win_unpacked ++ [u "resources"; u "app"])))
    (fs (snd (repair_node_modules
                (Some (win_unpacked ++ [u "resources"; u "app"]))
                (start_world plain_config incomplete_package_root 0 [] []))))
  = negb (exists_ (source_nm ++ [u "dotenv"]) incomplete_package_root).
Proof.
  refine (repair_copy_complete
            (Some (win_unpacked ++ [u "resources"; u "app"]))
            (start_world plain_config incomplete_package_root 0 [] [])
            _ _ _).
  - reflexivity.
  - vm_compute. reflexivity.
  - vm_compute. reflexivity.
Defined.

(** ** Stage 5b as [run_build] runs it *)










(** ** The version handed to the rebuild *)

Lemma lstrip_char_head ch s : head (lstrip_char ch s) <> Some ch.
Proof.
  induction s as [|c s IH]; [discriminate|]. cbn [lstrip_char].
  destruct (c =? ch)%N eqn:E; [exact IH|].
  apply N.eqb_neq in E. cbn. congruence.
Qed.

Lemma lstrip_char_prefix ch s :
  exists n, s = replicate n ch ++ lstrip_char ch s.
Proof.
  induction s as [|c s [n IH]]; [exists 0; reflexivity|]. cbn [lstrip_char].
  destruct (c =? ch)%N eqn:E; [|exists 0; reflexivity].
  apply N.eqb_eq in E. subst c. exists (S n). cbn [replicate app].
  f_equal. exact IH.
Qed.

(** X14: the version that the rebuild commands are given comes from the
    version query.  When the query returns with exit code 0, the version is
    its output, stripped, without the letters [v] at its front; when the
    query raises or returns another exit code, there is none.  The first
    and the third rebuild command are run without the option [-v] exactly
    when there is no version or the version is empty; otherwise both end in
    [-v] and that version. *)
Theorem rebuild_version_option w :
  let electron_version := fst (get_electron_version w) in
  (forall stdout rest,
      probes w = inr (0%Z, stdout) :: rest ->
      exists n v,
        electron_version = Some v
        /\ strip stdout = replicate n 118%N ++ v
        /\ head v <> Some 118%N)
  /\ ((forall stdout rest, probes w <> inr (0%Z, stdout) :: rest) ->
      electron_version = None)
  /\ (cmd (rebuild_method1 electron_version) = cmd (rebuild_method1 None)
      <-> electron_version = None \/ electron_version = Some [])
  /\ (cmd (rebuild_method3 electron_version) = cmd (rebuild_method3 None)
      <-> electron_version = None \/ electron_version = Some [])
  /\ (forall v, electron_version = Some v -> v <> [] ->
      cmd (rebuild_method1 electron_version)
      = cmd (rebuild_method1 None) ++ [u "-v"; v]
      /\ cmd (rebuild_method3 electron_version)
         = cmd (rebuild_method3 None) ++ [u "-v"; v]).
Proof.
  cbv zeta. split; [|split].
  - intros stdout rest Hp. unfold get_electron_version, bind, run_probe.
    rewrite Hp. cbn [fst snd Z.eqb bind log modify ret].
    destruct (lstrip_char_prefix 118%N (strip stdout)) as [n Hn].
    exists n, (lstrip_char 118%N (strip stdout)).
    split; [reflexivity|]. split; [exact Hn | apply lstrip_char_head].
  - intros Hp. unfold get_electron_version, bind, run_probe.
    destruct (probes w) as [|[e|[returncode stdout]] rest];
      cbn [fst bind log modify ret]; try reflexivity.
    destruct (returncode =? 0)%Z eqn:E; cbn [fst bind log modify ret];
      [|reflexivity].
    apply Z.eqb_eq in E. subst returncode. destruct (Hp stdout rest eq_refl).
  - assert (Hlen : forall (base : list pystr) v, base ++ [u "-v"; v] <> base).
    { intros base v H. apply (f_equal length) in H. rewrite length_app in H.
      cbn in H. lia. }
    destruct (fst (get_electron_version w)) as [[|c v]|];
      unfold rebuild_method1, rebuild_method3, with_version;
      cbn [cmd nonempty].
    + split; [split; [intros _; right; reflexivity | intros _; reflexivity]|].
      split; [split; [intros _; right; reflexivity | intros _; reflexivity]|].
      intros v [= <-] Hv. congruence.
    + split; [split; [intros H; destruct (Hlen _ _ H)
                     | intros [H|H]; discriminate H]|].
      split; [split; [intros H; destruct (Hlen _ _ H)
                     | intros [H|H]; discriminate H]|].
      intros v' [= <-] _. split; reflexivity.
    + split; [split; [intros _; left; reflexivity | intros _; reflexivity]|].
      split; [split; [intros _; left; reflexivity | intros _; reflexivity]|].
      intros v H. discriminate H.
Qed.

(** The query prints [v33.0.0]: the first rebuild command ends in
    [-v 33.0.0]. *)
Lemma rebuild_version_option_witness :
  cmd (rebuild_method1 (fst (get_electron_version stale_artifact_world)))
  = cmd (rebuild_method1 None) ++ [u "-v"; u "33.0.0"].
Proof.
  refine (proj1 (proj2 (proj2 (proj2 (proj2
            (rebuild_version_option stale_artifact_world))))
            (u "33.0.0") _ _)).
  - vm_compute. reflexivity.
  - discriminate.
Defined.

(** ** Relations that a build keeps *)

Section Kept.
Variable R : World -> World -> Prop.
Hypothesis R_refl : forall w, R w w.
Hypothesis R_trans : forall w1 w2 w3, R w1 w2 -> R w2 w3 -> R w1 w3.

Lemma keeps_ret {A} (a : A) : keeps R (ret a).
Proof. intros w. apply R_refl. Qed.

Lemma keeps_get : keeps R get.
Proof. intros w. apply R_refl. Qed.

Lemma keeps_modify f : (forall w, R w (f w)) -> keeps R (modify f).
Proof. intros H w. apply H. Qed.

Lemma keeps_bind {A B} (m : M A) (k : A -> M B) :
  keeps R m -> (forall a, keeps R (k a)) -> keeps R (bind m k).
Proof.
  intros Hm Hk w. unfold bind. specialize (Hm w).
  destruct (m w) as [a w1]. exact (R_trans _ _ _ Hm (Hk a w1)).
Qed.

Hypothesis R_log : forall x w, R w (set_log_queue x w).

Lemma log_kept message tag : keeps R (log message tag).
Proof. intros w. apply R_log. Qed.

Lemma log_all_kept entries : keeps R (log_all entries).
Proof.
  induction entries as [|[message tag] entries IH]; [apply keeps_ret|].
  apply keeps_bind; [apply log_kept | intros _; exact IH].
Qed.

Hypothesis R_killed : forall x w, R w (set_killed x w).
Hypothesis R_stop : forall w, R w (set_is_building false w).

Lemma stop_build_kept : keeps R stop_build.
Proof.
  unfold stop_build, kill_process_tree.
  apply keeps_bind; [apply keeps_get | intros w].
  apply keeps_bind; [|intros _; apply keeps_modify; exact R_stop].
  destruct (process w); [|apply keeps_ret].
  apply keeps_bind; [apply keeps_modify; intros w'; apply R_killed|].
  intros _. apply log_kept.
Qed.

Lemma read_output_kept evs : keeps R (read_output evs).
Proof.
  induction evs as [|[raw|] evs IH]; [apply keeps_ret| |].
  - destruct raw as [|c raw]; [apply keeps_ret|]. cbn [read_output].
    apply keeps_bind; [apply keeps_get | intros w].
    destruct (negb (is_building w)); [apply keeps_ret|].
    apply keeps_bind; [|intros _; exact IH].
    destruct (line_entry (c :: raw)) as [[message tag]|];
      [apply log_kept | apply keeps_ret].
  - cbn [read_output].
    apply keeps_bind; [apply stop_build_kept | intros _; exact IH].
Qed.

Hypothesis R_spawned : forall x w, R w (set_spawned x w).
Hypothesis R_pending : forall x w, R w (set_pending x w).
Hypothesis R_next_pid : forall x w, R w (set_next_pid x w).
Hypothesis R_process : forall x w, R w (set_process x w).
Hypothesis R_fs : forall x w, R w (set_fs x w).
Hypothesis R_now : forall x w, R w (set_now x w).

Lemma Popen_kept c dir env : keeps R (Popen c dir env).
Proof.
  intros w. unfold Popen.
  destruct (pending w) as [|[msg|p] rest]; cbn [snd];
    eauto using R_trans.
Qed.

Lemma wait_kept p : keeps R (wait p).
Proof.
  unfold wait. apply keeps_bind; [|intros _; apply keeps_ret].
  apply keeps_modify. intros w. eauto using R_trans.
Qed.

Lemma run_command_kept c : keeps R (run_command c).
Proof.
  unfold run_command.
  apply keeps_bind; [apply keeps_get | intros w].
  apply keeps_bind; [apply log_kept | intros _].
  apply keeps_bind; [apply Popen_kept | intros [e|[pid p]]].
  - apply keeps_bind; [apply log_kept | intros _; apply keeps_ret].
  - apply keeps_bind; [apply keeps_modify; apply R_process | intros _].
    apply keeps_bind; [apply read_output_kept | intros _].
    apply keeps_bind; [apply wait_kept | intros rc; apply keeps_ret].
Qed.

Hypothesis R_trace : forall x w, R w (set_trace x w).

Lemma attempt_kept s k c : keeps R (attempt s k c).
Proof.
  unfold attempt.
  apply keeps_bind; [apply run_command_kept | intros ok].
  apply keeps_bind; [apply keeps_modify; intros w; apply R_trace|].
  intros _. apply keeps_ret.
Qed.
End Kept.

(** The stages keep what the primitive actions and [attempt] keep. *)
Section KeptBuild.
Variable R : World -> World -> Prop.
Hypothesis R_refl : forall w, R w w.
Hypothesis R_trans : forall w1 w2 w3, R w1 w2 -> R w2 w3 -> R w1 w3.
Hypothesis R_log : forall x w, R w (set_log_queue x w).
Hypothesis R_attempt : forall s k c, keeps R (attempt s k c).

(** One step through a sequence of actions. *)
Ltac kept_step :=
  lazymatch goal with
  | |- keeps _ (ret _) => apply keeps_ret; assumption
  | |- keeps _ get => apply keeps_get; assumption
  | |- keeps _ (log _ _) => apply log_kept; assumption
  | |- keeps _ (log_all _) => apply log_all_kept; assumption
  | |- keeps _ (attempt _ _ _) => apply R_attempt
  | |- keeps _ (bind _ _) => apply keeps_bind; [assumption | |intros ?]
  | |- keeps _ (modify _) => apply keeps_modify; intros ?; auto
  | |- keeps _ (if ?b then _ else _) => destruct b
  | |- keeps _ (match ?x with _ => _ end) => destruct x
  end.

Lemma step2_install_kept : keeps R step2_install.
Proof. unfold step2_install. repeat kept_step. Qed.

Lemma step3_app_deps_kept : keeps R step3_app_deps.
Proof. unfold step3_app_deps. repeat kept_step. Qed.

Hypothesis R_probes : forall x w, R w (set_probes x w).

Lemma run_probe_kept : keeps R run_probe.
Proof. intros w. unfold run_probe. destruct (probes w); cbn [snd]; auto. Qed.

Lemma get_electron_version_kept : keeps R get_electron_version.
Proof.
  unfold get_electron_version.
  apply keeps_bind; [assumption | apply run_probe_kept | intros r].
  repeat kept_step.
Qed.

Lemma step4_rebuild_kept ev : keeps R (step4_rebuild ev).
Proof. unfold step4_rebuild. repeat kept_step. Qed.

Lemma verify_rebuild_kept : keeps R verify_rebuild.
Proof. unfold verify_rebuild. repeat kept_step. Qed.

Lemma prepare_signing_kept : keeps R prepare_signing.
Proof. unfold prepare_signing. repeat kept_step. Qed.

Lemma find_app_dir_kept : keeps R find_app_dir.
Proof. unfold find_app_dir. repeat kept_step. Qed.

Hypothesis R_fs : forall x w, R w (set_fs x w).
Hypothesis R_copies : forall x w, R w (set_copies x w).

Lemma copy_node_modules_kept nm : keeps R (copy_node_modules nm).
Proof. unfold copy_node_modules. repeat kept_step. Qed.

Lemma repair_node_modules_kept d : keeps R (repair_node_modules d).
Proof.
  unfold repair_node_modules.
  repeat lazymatch goal with
         | |- keeps _ (copy_node_modules _) => apply copy_node_modules_kept
         | _ => kept_step
         end.
Qed.

Lemma retry_electron_version_kept ev : keeps R (retry_electron_version ev).
Proof.
  unfold retry_electron_version.
  repeat lazymatch goal with
         | |- keeps _ run_probe => apply run_probe_kept
         | _ => kept_step
         end.
Qed.

Lemma rebuild_packed_kept d ev : keeps R (rebuild_packed d ev).
Proof.
  unfold rebuild_packed.
  repeat lazymatch goal with
         | |- keeps _ (retry_electron_version _) => apply retry_electron_version_kept
         | _ => kept_step
         end.
Qed.

Lemma step5_build_kept ev : keeps R (step5_build ev).
Proof.
  unfold step5_build.
  repeat lazymatch goal with
         | |- keeps _ prepare_signing => apply prepare_signing_kept
         | |- keeps _ find_app_dir => apply find_app_dir_kept
         | |- keeps _ (repair_node_modules _) => apply repair_node_modules_kept
         | |- keeps _ (rebuild_packed _ _) => apply rebuild_packed_kept
         | _ => kept_step
         end.
Qed.

(** Everything before the reports and the [finally] clause. *)
Hypothesis R_scheduled : forall x w, R w (set_scheduled x w).

Lemma step6_success_kept : keeps R step6_success.
Proof. unfold step6_success. repeat kept_step. Qed.

Lemma report_failure_kept : keeps R report_failure.
Proof. unfold report_failure. repeat kept_step. Qed.

Lemma run_build_kept : keeps R run_build.
Proof.
  unfold run_build.
  repeat lazymatch goal with
         | |- keeps _ step2_install => apply step2_install_kept
         | |- keeps _ step3_app_deps => apply step3_app_deps_kept
         | |- keeps _ get_electron_version => apply get_electron_version_kept
         | |- keeps _ (step4_rebuild _) => apply step4_rebuild_kept
         | |- keeps _ verify_rebuild => apply verify_rebuild_kept
         | |- keeps _ (step5_build _) => apply step5_build_kept
         | |- keeps _ step6_success => apply step6_success_kept
         | |- keeps _ report_failure => apply report_failure_kept
         | _ => kept_step
         end.
Qed.
End KeptBuild.

(** ** The cancellation flag *)

Lemma stays_stopped_trans w1 w2 w3 :
  stays_stopped w1 w2 -> stays_stopped w2 w3 -> stays_stopped w1 w3.
Proof. unfold stays_stopped. auto. Qed.

(** X7: the worker never raises the flag [is_building]: when it is down
    as [run_build] starts or goes on, it is down when [run_build] ends. *)
Theorem run_build_never_raises_flag w :
  is_building w = false -> is_building (snd (run_build w)) = false.
Proof.
  apply (run_build_kept stays_stopped);
    try (intros; apply attempt_kept);
    first [ exact stays_stopped_trans | intros; intro; assumption
          | intros; intro; reflexivity ].
Qed.

Lemma run_build_never_raises_flag_witness :
  is_building
    (snd (run_build (set_is_building false
                       (start_world plain_config (Dir []) 0 (all_succeed 5) version_33))))
  = false.
Proof. apply run_build_never_raises_flag. reflexivity. Defined.

(** ** The calls left for the owner thread *)

Lemma same_ui_trans w1 w2 w3 : same_ui w1 w2 -> same_ui w2 w3 -> same_ui w1 w3.
Proof. unfold same_ui. intros [H1 H2] [H3 H4]. split; congruence. Qed.

Lemma schedules_of_kept {A} (m : M A) :
  keeps same_ui m -> schedules m (fun _ _ us => us = []).
Proof.
  intros H w. destruct (H w) as [H1 H2]. exists [].
  rewrite app_nil_r. auto.
Qed.

Lemma schedules_ret {A} (a : A) (Q : Config -> A -> list UiEvent -> Prop) :
  (forall cfg, Q cfg a []) -> schedules (ret a) Q.
Proof. intros H w. exists []. cbn. rewrite app_nil_r. auto. Qed.

Lemma schedules_bind {A B} (m : M A) (k : A -> M B) Q1 Q :
  schedules m Q1 ->
  (forall a, schedules (k a)
               (fun cfg b us2 => forall us1, Q1 cfg a us1 -> Q cfg b (us1 ++ us2))) ->
  schedules (bind m k) Q.
Proof.
  intros Hm Hk w. unfold bind.
  destruct (Hm w) as (us1 & Hc1 & Hs1 & HQ1).
  destruct (m w) as [a w1]. cbn [fst snd] in *.
  destruct (Hk a w1) as (us2 & Hc2 & Hs2 & HQ2).
  exists (us1 ++ us2). rewrite Hc2, Hs2, Hc1, Hs1, app_assoc.
  rewrite Hc1 in HQ2. auto.
Qed.

Lemma schedules_bind_assoc {A B C} (m : M A) (k1 : A -> M B) (k2 : B -> M C) Q :
  schedules (bind m (fun a => bind (k1 a) k2)) Q ->
  schedules (bind (bind m k1) k2) Q.
Proof.
  intros H w. specialize (H w). unfold bind in *.
  destruct (m w) as [a w1]. exact H.
Qed.

Lemma schedules_get :
  schedules get (fun cfg w us => config w = cfg /\ us = []).
Proof. intros w. exists []. cbn. rewrite app_nil_r. auto. Qed.

Lemma schedules_after (us : Config -> list UiEvent) :
  schedules (fun w => (tt, set_scheduled (scheduled w ++ us (config w)) w))
            (fun cfg _ us' => us' = us cfg).
Proof. intros w. exists (us (config w)). cbn. auto. Qed.

Lemma schedules_weaken {A} (m : M A) (Q Q' : Config -> A -> list UiEvent -> Prop) :
  schedules m Q -> (forall cfg a us, Q cfg a us -> Q' cfg a us) -> schedules m Q'.
Proof.
  intros Hm HQ w. destruct (Hm w) as (us & Hc & Hs & H). exists us. auto.
Qed.

Lemma schedules_modify_after (l : list UiEvent) :
  schedules (modify (fun w => set_scheduled (scheduled w ++ l) w))
            (fun _ _ us => us = l).
Proof. exact (schedules_after (fun _ => l)). Qed.

Lemma schedules_ret_eq {A} (a : A) :
  schedules (ret a) (fun _ b us => b = a /\ us = []).
Proof. apply schedules_ret. auto. Qed.

(** The parts of a build that leave nothing for the owner thread. *)
Ltac same_ui_side :=
  try (intros; apply attempt_kept);
  first [exact same_ui_trans | intros; split; reflexivity].

Ltac same_ui_kept :=
  lazymatch goal with
  | |- keeps _ (log _ _) => apply log_kept; same_ui_side
  | |- keeps _ (log_all _) => apply log_all_kept; same_ui_side
  | |- keeps _ (ret _) => apply keeps_ret; same_ui_side
  | |- keeps _ step2_install => apply step2_install_kept; same_ui_side
  | |- keeps _ step3_app_deps => apply step3_app_deps_kept; same_ui_side
  | |- keeps _ get_electron_version => apply get_electron_version_kept; same_ui_side
  | |- keeps _ (step4_rebuild _) => apply step4_rebuild_kept; same_ui_side
  | |- keeps _ verify_rebuild => apply verify_rebuild_kept; same_ui_side
  | |- keeps _ (step5_build _) => apply step5_build_kept; same_ui_side
  end.

Ltac schedules_step :=
  lazymatch goal with
  | |- schedules (ret _) _ => apply schedules_ret; intros ?
  | |- schedules (bind (bind _ _) _) _ => apply schedules_bind_assoc
  | |- schedules (bind (ret _) _) _ =>
      eapply schedules_bind; [apply schedules_ret_eq | intros ?]
  | |- schedules (bind get _) _ =>
      eapply schedules_bind; [apply schedules_get | intros ?]
  | |- schedules (bind (match ?x with _ => _ end) _) _ => destruct x eqn:?
  | |- schedules (bind (modify (fun w => set_scheduled _ w)) _) _ =>
      eapply schedules_bind; [apply schedules_modify_after | intros ?]
  | |- schedules (modify (fun w => set_scheduled _ w)) _ =>
      eapply schedules_weaken; [apply schedules_modify_after | cbv beta; intros ? ? ? ?]
  | |- schedules (bind _ _) _ =>
      eapply schedules_bind; [apply schedules_of_kept; same_ui_kept | intros ?]
  | |- schedules (match ?x with _ => _ end) _ => destruct x eqn:?
  | |- schedules _ _ =>
      eapply schedules_weaken;
      [apply schedules_of_kept; same_ui_kept | cbv beta; intros ? ? ? ?]
  end.

Ltac schedules_facts :=
  cbv beta in *; intros;
  repeat match goal with
         | H : _ /\ _ |- _ => destruct H
         | H : ?x = [] |- _ => subst x
         | H : ?x = _ :: _ |- _ => subst x
         end;
  rewrite ?app_nil_l, ?app_nil_r in *.

Lemma step6_success_schedules :
  schedules step6_success
            (fun cfg _ us => us ++ [BuildFinished] = ui_calls cfg BuildSucceeded).
Proof.
  unfold step6_success.
  repeat schedules_step; schedules_facts; subst; reflexivity.
Qed.

Lemma report_failure_schedules :
  schedules report_failure
            (fun cfg _ us => us ++ [BuildFinished] = ui_calls cfg BuildFailed).
Proof.
  unfold report_failure.
  repeat schedules_step; schedules_facts; reflexivity.
Qed.

Lemma run_build_schedules :
  schedules run_build (fun cfg exit us => us = ui_calls cfg exit).
Proof.
  unfold run_build.
  repeat lazymatch goal with
         | |- schedules (bind step6_success _) _ =>
             eapply schedules_bind; [apply step6_success_schedules | intros ?]
         | |- schedules (bind report_failure _) _ =>
             eapply schedules_bind; [apply report_failure_schedules | intros ?]
         | _ => schedules_step
         end;
    schedules_facts; subst; rewrite <- ?app_assoc; cbn [app];
    try reflexivity; try assumption.
Qed.

(** X6: whatever way [run_build] ends, the last call it leaves for the
    owner thread is [build_finished], left once; before it comes the status
    of a successful build with its message box, or the status of a failed
    build, or, on the [return] after a failed rebuild, nothing. *)
Theorem run_build_ui_calls w :
  scheduled (snd (run_build w))
  = scheduled w ++ ui_calls (config w) (fst (run_build w)).
Proof.
  destruct (run_build_schedules w) as (us & _ & Hs & ->). exact Hs.
Qed.

(** ** The process handle *)

Lemma same_handle_trans w1 w2 w3 :
  same_handle w1 w2 -> same_handle w2 w3 -> same_handle w1 w3.
Proof. unfold same_handle. intros [H1 H2] [H3 H4]. split; congruence. Qed.

Lemma read_output_handle evs : keeps same_handle (read_output evs).
Proof.
  apply read_output_kept;
    first [exact same_handle_trans | intros; split; reflexivity].
Qed.

Lemma run_command_handle c w p rest :
  pending w = inr p :: rest ->
  process (snd (run_command c w)) = Some (next_pid w).
Proof.
  intros Hp. unfold run_command, bind, get, log, modify, Popen, wait, ret.
  cbn [fst snd pending set_log_queue set_spawned]. rewrite Hp.
  match goal with
  | |- context [read_output ?evs ?w0] =>
      destruct (read_output_handle evs w0) as [H _];
      destruct (read_output evs w0) as [[] w1]
  end.
  cbn in *. exact H.
Qed.

(** X11: [run_command] never clears [self.process].  After a command whose
    process was started, the handle still names that process, so
    [stop_build] and [cleanup_processes] ask for its process tree to be
    killed although it has ended, and [stop_build] logs the cancellation;
    once [build_finished] has run, [stop_build] kills and logs nothing. *)
Theorem finished_process_still_targeted c w p rest :
  pending w = inr p :: rest ->
  let w1 := snd (run_command c w) in
  process w1 = Some (next_pid w)
  /\ killed (snd (stop_build w1)) = killed w1 ++ [next_pid w]
  /\ log_queue (snd (stop_build w1))
     = log_queue w1 ++ [(u "⏹️ Build abgebrochen!", warning)]
  /\ killed (snd (cleanup_processes w1)) = killed w1 ++ [next_pid w]
  /\ killed (snd (stop_build (snd (build_finished w1)))) = killed w1
  /\ log_queue (snd (stop_build (snd (build_finished w1)))) = log_queue w1.
Proof.
  intros Hp. cbv zeta. pose proof (run_command_handle c w p rest Hp) as H.
  destruct (run_command c w) as [ok w1]. cbn [snd] in *.
  unfold stop_build, cleanup_processes, build_finished, kill_process_tree,
    bind, get, modify, log, ret.
  cbn [fst snd process set_is_building set_process]. rewrite H.
  repeat split.
Qed.

Lemma finished_process_still_targeted_witness :
  process (snd (run_command
                  {| cmd := [u "npm"; u "install"]; extra_env := None; cwd := None |}
                  (start_world plain_config (Dir []) 0 (all_succeed 1) [])))
  = Some 1.
Proof.
  refine (proj1 (finished_process_still_targeted
                   {| cmd := [u "npm"; u "install"]; extra_env := None; cwd := None |}
                   (start_world plain_config (Dir []) 0 (all_succeed 1) [])
                   (prints [u "done"] 0) [] _)).
  reflexivity.
Defined.

(** X12: a command that cannot be started counts as failed: [run_command]
    returns [False], logs the line that names the command and one error
    line with the text of the exception, and leaves the process handle, the
    file system, the clock and the flag [is_building] as they were. *)
Theorem run_command_not_started c w msg rest :
  pending w = inl msg :: rest ->
  fst (run_command c w) = false
  /\ log_queue (snd (run_command c w))
     = log_queue w ++ [announce c; (u "   Fehler: " ++ msg, error)]
  /\ process (snd (run_command c w)) = process w
  /\ fs (snd (run_command c w)) = fs w
  /\ now (snd (run_command c w)) = now w
  /\ is_building (snd (run_command c w)) = is_building w
  /\ killed (snd (run_command c w)) = killed w.
Proof.
  intros Hp. unfold run_command, bind, get, log, modify, Popen, ret, put.
  cbn [fst snd pending set_log_queue set_spawned]. rewrite Hp.
  cbn [fst snd log_queue process fs now is_building killed
       set_log_queue set_pending set_spawned].
  rewrite <- app_assoc. destruct (announce c). repeat split.
Qed.

Lemma run_command_not_started_witness :
  fst (run_command
         {| cmd := [u "npx"; u "electron-builder"]; extra_env := None; cwd := None |}
         (start_world plain_config (Dir []) 0 [inl (u "npx not found")] []))
  = false.
Proof.
  refine (proj1 (run_command_not_started _ _ (u "npx not found") [] _)).
  reflexivity.
Defined.

(** X13: when the flag [is_building] is down, a command is started all the
    same; the loop leaves at the first line without logging it, and the
    command is awaited.  For a command that prints at most one line, so
    that nothing is left unread in the pipe when it is awaited, the result
    is read from its exit code, none of its output reaches the log and
    nothing is killed. *)
Theorem run_command_after_stop c w p rest lines :
  is_building w = false ->
  pending w = inr p :: rest ->
  p_out p = map Line lines ->
  length lines <= 1 ->
  fst (run_command c w) = (p_returncode p =? 0)%Z
  /\ log_queue (snd (run_command c w)) = log_queue w ++ [announce c]
  /\ spawned (snd (run_command c w))
     = spawned w ++ [(platform_cmd (win32 (config w)) (cmd c), working_dir c,
                      child_env (environ (config w)) (extra_env c))]
  /\ killed (snd (run_command c w)) = killed w
  /\ fs (snd (run_command c w)) = p_effect p (fs w).
Proof.
  intros Hb Hp Hout _.
  unfold run_command, bind, get, log, modify, Popen, wait, ret, put.
  cbn [fst snd pending set_log_queue set_spawned]. rewrite Hp, Hout.
  rewrite read_output_stopped by exact Hb.
  destruct (announce c). repeat split.
Qed.

Lemma run_command_after_stop_witness :
  fst (run_command
         {| cmd := [u "npm"; u "install"]; extra_env := None; cwd := None |}
         (set_is_building false
            (start_world plain_config (Dir []) 0 (all_succeed 1) [])))
  = (p_returncode (prints [u "done"] 0) =? 0)%Z.
Proof.
  refine (proj1 (run_command_after_stop _ _ (prints [u "done"] 0) [] [u "done"]
                   _ _ _ _)).
  - reflexivity.
  - reflexivity.
  - reflexivity.
  - cbn. lia.
Defined.

(** ** The commands of a whole run *)

Create HintDb calls discriminated.

#[local] Hint Resolve emits_get emits_log emits_ret_eq : calls.
#[local] Hint Resolve frame_set_fs frame_set_now_fs frame_set_is_building
  frame_set_process frame_set_killed frame_set_copies frame_set_scheduled : calls.
#[local] Hint Resolve attempt_emits get_electron_version_emits step4_rebuild_emits
  verify_rebuild_emits prepare_signing_emits find_app_dir_emits
  repair_node_modules_emits retry_electron_version_emits step6_success_emits
  report_failure_emits : calls.

Ltac calls_step :=
  lazymatch goal with
  | |- emits (ret _) _ => apply emits_ret; intros ?
  | |- emits (bind (bind _ _) _) _ => apply emits_bind_assoc
  | |- emits (bind (match ?x with _ => _ end) _) _ => destruct x eqn:?
  | |- emits (bind (modify _) _) _ =>
      eapply emits_bind; [apply emits_modify; solve [eauto with calls] | intros ?]
  | |- emits (modify _) _ =>
      eapply emits_weaken;
      [apply emits_modify; solve [eauto with calls] | cbv beta; intros ? ? ? ? ?]
  | |- emits (bind _ _) _ =>
      eapply emits_bind; [solve [eauto with calls] | intros ?]
  | |- emits (if ?b then _ else _) _ => destruct b eqn:?
  | |- emits (match ?x with _ => _ end) _ => destruct x eqn:?
  | |- emits _ _ =>
      eapply emits_weaken; [solve [eauto with calls] | cbv beta; intros ? ? ? ? ?]
  end.

Lemma head_with_version c0 c ev : head (with_version (c0 :: c) ev) = Some c0.
Proof.
  unfold with_version. destruct ev as [v|]; [destruct (nonempty v)|]; reflexivity.
Qed.

Ltac call_ok_tac :=
  split;
  [ reflexivity
  | unfold tool, rebuild_method1, rebuild_method3, rebuild_packed_call;
    cbn [e_call cmd]; rewrite ?head_with_version;
    first [left; reflexivity | right; reflexivity] ].

Ltac calls_ok_tac :=
  rewrite ?Forall_app; repeat split;
  first [ assumption
        | repeat lazymatch goal with
                 | |- Forall _ [] => constructor
                 | |- Forall _ (_ :: _) => constructor; [call_ok_tac|]
                 end ].

Lemma step2_install_calls :
  emits step2_install
        (fun cfg _ es _ => Forall (call_ok cfg) es
                           /\ exists ok, skeleton es = [(NpmInstall, 1, ok)]).
Proof.
  unfold step2_install.
  repeat calls_step; emits_facts.
  split; [calls_ok_tac | eexists; reflexivity].
Qed.

Lemma step3_app_deps_calls :
  emits step3_app_deps
        (fun cfg _ es _ => Forall (call_ok cfg) es
                           /\ (skeleton es = []
                               \/ exists ok, skeleton es = [(AppDeps, 1, ok)])).
Proof.
  unfold step3_app_deps.
  repeat calls_step; emits_facts;
    (split; [calls_ok_tac | eauto]).
Qed.

Lemma rebuild_packed_calls d ev :
  emits (rebuild_packed d ev)
        (fun cfg _ es _ => Forall (call_ok cfg) es
                           /\ exists ok, skeleton es = [(RebuildPacked, 1, ok)]).
Proof.
  unfold rebuild_packed.
  repeat calls_step; emits_facts;
    (split; [calls_ok_tac | eexists; reflexivity]).
Qed.

#[local] Hint Resolve step2_install_calls step3_app_deps_calls
  rebuild_packed_calls : calls.

Lemma step5_build_calls ev :
  emits (step5_build ev)
        (fun cfg ok es _ => Forall (call_ok cfg) es
                            /\ (ok, skeleton es) ∈ step5_shapes).
Proof.
  unfold step5_build.
  repeat calls_step; emits_facts; subst;
    repeat match goal with
           | H : exists _, _ |- _ => destruct H
           | H : _ /\ _ |- _ => destruct H
           end;
    rewrite ?skeleton_app;
    repeat match goal with
           | H : skeleton _ = _ |- _ => rewrite H; clear H
           end;
    repeat match goal with b : bool |- _ => destruct b end;
    try discriminate;
    (split; [calls_ok_tac | elem_by_compute]).
Qed.

#[local] Hint Resolve step5_build_calls : calls.

Lemma chain_trace_env cfg ev k :
  Forall (call_ok cfg) (chain_trace Rebuild (rebuild_attempts ev) k).
Proof.
  destruct k as [|[|[|[|k]]]]; cbn; calls_ok_tac.
Qed.

Lemma chain_failed_env cfg ev :
  Forall (call_ok cfg) (chain_failed Rebuild (rebuild_attempts ev)).
Proof. cbn. calls_ok_tac. Qed.

(** Every run of [run_build] has one of the listed shapes and gives each
    command the environment of its stage. *)
Lemma run_build_calls :
  emits run_build
        (fun cfg exit es _ => Forall (call_ok cfg) es
                              /\ (exit, skeleton es) ∈ run_shapes).
Proof.
  unfold run_build.
  repeat calls_step; emits_facts; subst;
    match goal with
    | H : negb ?b = _ |- _ => destruct b; cbn in H; try discriminate H; clear H
    end;
    repeat match goal with
           | H : _ \/ _ |- _ => destruct H
           | H : _ /\ _ |- _ => destruct H
           | H : exists _, _ |- _ => destruct H
           end;
    try discriminate; subst;
    repeat match goal with b : bool |- _ => destruct b end.
  all: rewrite ?skeleton_app.
  all: try match goal with
           | H : (_, skeleton ?es) ∈ step5_shapes |- _ =>
               generalize dependent (skeleton es); intros sk5 H;
               unfold step5_shapes in H; cbn in H; elem_cases H;
               try discriminate H; injection H as ->
           end.
  all: repeat match goal with
              | H : skeleton _ = _ |- _ => rewrite H; clear H
              end.
  all: (split; [rewrite ?Forall_app; repeat split;
                first [assumption | apply chain_trace_env | apply chain_failed_env
                      | constructor ]
               | elem_by_compute]).
Qed.

Lemma run_build_shape w :
  trace w = [] ->
  Forall (call_ok (config w)) (trace (snd (run_build w)))
  /\ (fst (run_build w), skeleton (trace (snd (run_build w)))) ∈ run_shapes.
Proof.
  intros Hw. destruct (run_build_calls w) as (es & ls & _ & Ht & _ & H).
  rewrite Ht, Hw. exact H.
Qed.

Lemma run_shapes_exit :
  Forall (fun r : Exit * list Step =>
            (r.1 = BuildSucceeded <-> (Installer, 1, true) ∈ r.2)
            /\ (r.1 = BuildSucceeded <-> last r.2 = Some (Installer, 1, true))
            /\ (r.1 = CriticalReturn <-> exhausted Rebuild r.2 = true)
            /\ (r.1 = CriticalReturn <->
                ((Package, 1, true) ∉ r.2) /\ ((Package, 1, false) ∉ r.2)))
         run_shapes.
Proof. apply (bool_decide_unpack _); vm_compute; exact I. Qed.

(** X1: a build ends with the success report exactly when the installer
    command succeeded, and that command is then the last one it ran; it ends
    with the [return] of line 1569 exactly when the three rebuild attempts
    failed, which is exactly when the packaging was never started. *)
Theorem build_outcome w :
  trace w = [] ->
  let sk := skeleton (trace (snd (run_build w))) in
  (fst (run_build w) = BuildSucceeded <-> (Installer, 1, true) ∈ sk)
  /\ (fst (run_build w) = BuildSucceeded <-> last sk = Some (Installer, 1, true))
  /\ (fst (run_build w) = CriticalReturn <-> exhausted Rebuild sk = true)
  /\ (fst (run_build w) = CriticalReturn <->
      ((Package, 1, true) ∉ sk) /\ ((Package, 1, false) ∉ sk)).
Proof.
  intros Hw. destruct (run_build_shape w Hw) as [_ Hp].
  pose proof run_shapes_exit as Hall. rewrite Forall_forall in Hall.
  exact (Hall _ Hp).
Qed.

Lemma build_outcome_witness :
  fst (run_build (start_world plain_config (Dir []) 0 (all_succeed 4) version_33))
  = BuildSucceeded.
Proof.
  refine (proj2 (proj1 (build_outcome
            (start_world plain_config (Dir []) 0 (all_succeed 4) version_33) _)) _).
  - reflexivity.
  - vm_compute. apply list_elem_of_In. cbn. tauto.
Defined.

Lemma run_shapes_sorted :
  Forall (fun r : Exit * list Step => StronglySorted step_before r.2) run_shapes.
Proof. apply (bool_decide_unpack _); vm_compute; exact I. Qed.

Lemma sorted_lookup (sk : list Step) (i j : nat) a b :
  StronglySorted step_before sk ->
  i < j -> sk !! i = Some a -> sk !! j = Some b -> step_before a b.
Proof.
  intros Hs. revert i j.
  induction Hs as [|x l _ IH Hx]; intros i j Hij Ha Hb; [discriminate|].
  destruct j as [|j]; [lia|]. cbn in Hb.
  destruct i as [|i].
  - cbn in Ha. injection Ha as <-.
    rewrite Forall_forall in Hx. apply Hx. eapply list_elem_of_lookup_2. exact Hb.
  - cbn in Ha. apply (IH i j); [lia | assumption | assumption].
Qed.

(** X2: the commands of a build are run in the declared order of the
    stages, and inside a stage in the order of its chain: of two commands of
    a run, the earlier one belongs to an earlier stage or is an earlier
    attempt of the same stage.  So no stage is gone back to and no attempt
    is made twice. *)
Theorem stages_in_declared_order w (i j : nat) a b :
  trace w = [] ->
  i < j ->
  skeleton (trace (snd (run_build w))) !! i = Some a ->
  skeleton (trace (snd (run_build w))) !! j = Some b ->
  step_before a b.
Proof.
  intros Hw Hij Ha Hb. destruct (run_build_shape w Hw) as [_ Hp].
  pose proof run_shapes_sorted as Hall. rewrite Forall_forall in Hall.
  exact (sorted_lookup _ i j a b (Hall _ Hp) Hij Ha Hb).
Qed.

Lemma stages_in_declared_order_witness :
  step_before (NpmInstall, 1, true) (Rebuild, 1, true).
Proof.
  refine (stages_in_declared_order
            (start_world plain_config (Dir []) 0 (all_succeed 4) version_33)
            0 1 _ _ _ _ _ _).
  - reflexivity.
  - lia.
  - vm_compute. reflexivity.
  - vm_compute. reflexivity.
Defined.

Lemma run_shapes_go_on :
  Forall (fun r : Exit * list Step =>
            Forall (fun st : Step =>
                      critical st.1.1 = false -> st.2 = false ->
                      last r.2 <> None
                      /\ Forall (fun later : Step =>
                                   stage_rank st.1.1 < stage_rank later.1.1)
                                (option_list (last r.2)))
                   r.2
            /\ (exists ok, head r.2 = Some (NpmInstall, 1, ok))
            /\ ((Rebuild, 1, true) ∈ r.2 \/ (Rebuild, 1, false) ∈ r.2)
            /\ ((RebuildPacked, 1, true) ∈ r.2 \/ (RebuildPacked, 1, false) ∈ r.2 ->
                last r.2 = Some (Installer, 1, true)
                \/ last r.2 = Some (Installer, 1, false)))
         run_shapes.
Proof.
  assert (H : Forall (fun r : Exit * list Step =>
            Forall (fun st : Step =>
                      critical st.1.1 = false -> st.2 = false ->
                      last r.2 <> None
                      /\ Forall (fun later : Step =>
                                   stage_rank st.1.1 < stage_rank later.1.1)
                                (option_list (last r.2)))
                   r.2
            /\ (head r.2 = Some (NpmInstall, 1, true)
                \/ head r.2 = Some (NpmInstall, 1, false))
            /\ ((Rebuild, 1, true) ∈ r.2 \/ (Rebuild, 1, false) ∈ r.2)
            /\ ((RebuildPacked, 1, true) ∈ r.2 \/ (RebuildPacked, 1, false) ∈ r.2 ->
                last r.2 = Some (Installer, 1, true)
                \/ last r.2 = Some (Installer, 1, false)))
         run_shapes).
  { apply (bool_decide_unpack _); vm_compute; exact I. }
  eapply Forall_impl; [exact H|]. cbv beta.
  intros r (H1 & [H2|H2] & H3 & H4); eauto 6.
Qed.

(** X3: the two installs and the rebuild inside the packaged app never end
    a build.  When a command of one of these stages has failed, the build
    has gone on to a command of a later stage.  Every build starts with
    [npm install] and, whatever the installs return, makes the first rebuild
    attempt; and when the rebuild inside the packaged app was run, the
    installer command was run after it, as the last command. *)
Theorem non_critical_stages_go_on w :
  trace w = [] ->
  let sk := skeleton (trace (snd (run_build w))) in
  (forall s k, critical s = false -> (s, k, false) ∈ sk ->
               exists later, last sk = Some later
                             /\ stage_rank s < stage_rank later.1.1)
  /\ (exists ok, head sk = Some (NpmInstall, 1, ok))
  /\ (exists ok, (Rebuild, 1, ok) ∈ sk)
  /\ (forall ok, (RebuildPacked, 1, ok) ∈ sk ->
                 exists ok', last sk = Some (Installer, 1, ok')).
Proof.
  intros Hw. destruct (run_build_shape w Hw) as [_ Hp].
  pose proof run_shapes_go_on as Hall. rewrite Forall_forall in Hall.
  destruct (Hall _ Hp) as (H1 & H2 & H3 & H4). cbn [snd] in *. cbv zeta.
  repeat split.
  - intros s k Hs Hin. rewrite Forall_forall in H1.
    destruct (H1 _ Hin Hs eq_refl) as [Hl Hr].
    destruct (last (skeleton (trace (run_build w).2))) as [later|]; [|congruence].
    exists later. split; [reflexivity|].
    cbn in Hr. inversion Hr; assumption.
  - exact H2.
  - destruct H3 as [H3|H3]; eauto.
  - intros ok Hin.
    destruct H4 as [H4|H4]; [destruct ok; auto | eauto | eauto].
Qed.

Lemma non_critical_stages_go_on_witness :
  exists later,
    last (skeleton (trace (snd (run_build failed_install_world)))) = Some later
    /\ stage_rank NpmInstall < stage_rank later.1.1.
Proof.
  refine (proj1 (non_critical_stages_go_on failed_install_world _) NpmInstall 1 _ _).
  - reflexivity.
  - reflexivity.
  - vm_compute. apply list_elem_of_In. cbn. tauto.
Defined.

Lemma run_shapes_needs :
  Forall (fun r : Exit * list Step =>
            ((Installer, 1, true) ∈ r.2 \/ (Installer, 1, false) ∈ r.2
             \/ (RebuildPacked, 1, true) ∈ r.2 \/ (RebuildPacked, 1, false) ∈ r.2 ->
             (Package, 1, true) ∈ r.2)
            /\ ((Package, 1, true) ∈ r.2 \/ (Package, 1, false) ∈ r.2 ->
                (Rebuild, 1, true) ∈ r.2 \/ (Rebuild, 2, true) ∈ r.2
                \/ (Rebuild, 3, true) ∈ r.2))
         run_shapes.
Proof. apply (bool_decide_unpack _); vm_compute; exact I. Qed.

(** X4: no installer is built from a package that was not made: the
    installer command and the rebuild inside the packaged app are run only
    after the packaging command has succeeded, and the packaging command
    only after an attempt of the native rebuild has succeeded. *)
Theorem installer_needs_package w :
  trace w = [] ->
  let sk := skeleton (trace (snd (run_build w))) in
  (forall s ok, s = Installer \/ s = RebuildPacked -> (s, 1, ok) ∈ sk ->
                (Package, 1, true) ∈ sk)
  /\ (forall ok, (Package, 1, ok) ∈ sk -> exists k, (Rebuild, k, true) ∈ sk).
Proof.
  intros Hw. destruct (run_build_shape w Hw) as [_ Hp].
  pose proof run_shapes_needs as Hall. rewrite Forall_forall in Hall.
  destruct (Hall _ Hp) as [H1 H2]. cbn [snd] in *. cbv zeta. split.
  - intros s ok [-> | ->] Hin; apply H1; destruct ok; auto.
  - intros ok Hin.
    destruct H2 as [H2 | [H2 | H2]]; [destruct ok; auto | eauto | eauto | eauto].
Qed.

Lemma installer_needs_package_witness :
  (Package, 1, true) ∈ skeleton (trace (snd (run_build failed_install_world))).
Proof.
  refine (proj1 (installer_needs_package failed_install_world _) Installer true _ _).
  - reflexivity.
  - left. reflexivity.
  - vm_compute. apply list_elem_of_In. cbn. tauto.
Defined.

(** X5: the signing variables go to the two calls of electron-builder and
    to no other command: the installer command is given the same signing
    environment as the packaging command, and the installs and every rebuild
    command are started with the environment of the builder itself. *)
Theorem signing_variables_confined w e :
  trace w = [] ->
  e ∈ trace (snd (run_build w)) ->
  (e_stage e = Package \/ e_stage e = Installer ->
   extra_env (e_call e) = env_arg (signing_env_of (config w)))
  /\ (e_stage e <> Package -> e_stage e <> Installer ->
      extra_env (e_call e) = None
      /\ child_env (environ (config w)) (extra_env (e_call e)) = environ (config w)).
Proof.
  intros Hw Hin. destruct (run_build_shape w Hw) as [Hall _].
  rewrite Forall_forall in Hall. specialize (Hall _ Hin).
  destruct Hall as [Hall _]. rewrite Hall. split.
  - intros [-> | ->]; reflexivity.
  - intros H1 H2. destruct (e_stage e); try congruence; split; reflexivity.
Qed.

Lemma signing_variables_confined_witness :
  extra_env {| cmd := [u "npm"; u "install"]; extra_env := None; cwd := None |}
  = None.
Proof.
  refine (proj1 (proj2 (signing_variables_confined
            (start_world signing_config (Dir []) 0 (all_succeed 4) version_33)
            {| e_stage := NpmInstall; e_attempt := 1;
               e_call := {| cmd := [u "npm"; u "install"]; extra_env := None;
                            cwd := None |};
               e_ok := true |} _ _) _ _)).
  - reflexivity.
  - vm_compute. apply list_elem_of_In. cbn. tauto.
  - discriminate.
  - discriminate.
Defined.

(** X24: after [auto_configure_simplysign] signing is enabled with both
    fields empty, so that a build run with the new configuration hands no
    signing variable to any command: the certificate store is used. *)
Theorem auto_configure_uses_store cert_subject_name cfg write_error file w e :
  config w
  = (auto_configure_simplysign cert_subject_name cfg write_error file).1.1 ->
  trace w = [] ->
  e ∈ trace (snd (run_build w)) ->
  signing_enabled_var (config w) = true
  /\ signing_env_of (config w) = ∅
  /\ extra_env (e_call e) = None.
Proof.
  intros Hc Hw Hin. destruct (run_build_shape w Hw) as [Hall _].
  rewrite Forall_forall in Hall. specialize (Hall _ Hin).
  destruct Hall as [Hall _]. rewrite Hall.
  assert (Hcfg : signing_enabled_var (config w) = true
                 /\ signing_env_of (config w) = ∅).
  { rewrite Hc. unfold auto_configure_simplysign.
    destruct (auto_update_electron_builder_yml cert_subject_name write_error
                                               file).
    split; reflexivity. }
  destruct Hcfg as [H1 H2]. repeat split; [exact H1 | exact H2 |].
  unfold stage_env. rewrite H2. destruct (e_stage e); reflexivity.
Qed.

Lemma auto_configure_uses_store_witness :
  signing_enabled_var
    (config (start_world (auto_configure_simplysign (u "Pup Cid") plain_config None
                            Missing).1.1
                         (Dir []) 0 (all_succeed 4) version_33))
  = true.
Proof.
  refine (proj1 (auto_configure_uses_store (u "Pup Cid") plain_config None Missing
            (start_world (auto_configure_simplysign (u "Pup Cid") plain_config None
                            Missing).1.1
                         (Dir []) 0 (all_succeed 4) version_33)
            {| e_stage := NpmInstall; e_attempt := 1;
               e_call := {| cmd := [u "npm"; u "install"]; extra_env := None;
                            cwd := None |};
               e_ok := true |} _ _ _)).
  - reflexivity.
  - reflexivity.
  - vm_compute. apply list_elem_of_In. cbn. tauto.
Defined.

(** ** The processes of a build *)

Lemma in_step_refl w : in_step w w.
Proof. split; [reflexivity|]. exists []. cbn. rewrite !app_nil_r. auto. Qed.

Lemma in_step_trans w1 w2 w3 : in_step w1 w2 -> in_step w2 w3 -> in_step w1 w3.
Proof.
  intros (Hc1 & es1 & Ht1 & Hs1) (Hc2 & es2 & Ht2 & Hs2).
  split; [congruence|]. exists (es1 ++ es2).
  rewrite Ht2, Hs2, Ht1, Hs1, Hc1, map_app, !app_assoc. auto.
Qed.

Lemma in_step_frame f w :
  config (f w) = config w -> trace (f w) = trace w -> spawned (f w) = spawned w ->
  in_step w (f w).
Proof.
  intros Hc Ht Hs. split; [exact Hc|]. exists [].
  cbn. rewrite Ht, Hs, !app_nil_r. auto.
Qed.

Lemma attempt_in_step s k c : keeps in_step (attempt s k c).
Proof.
  intros w. destruct (run_command_result c w) as (_ & _ & Ht & Hs).
  destruct (run_command_emits c w) as (es & ls & Hc & _).
  unfold attempt, bind, modify, ret.
  destruct (run_command c w) as [ok w1]. cbn [fst snd] in *.
  split; [exact Hc|].
  exists [{| e_stage := s; e_attempt := k; e_call := c; e_ok := ok |}].
  cbn. rewrite Ht, Hs. auto.
Qed.

Lemma run_build_in_step : keeps in_step run_build.
Proof.
  apply run_build_kept;
    first [ exact in_step_refl | exact in_step_trans | exact attempt_in_step
          | intros; apply (in_step_frame (fun w => _)); reflexivity ].
Qed.

(** X9: the processes that [run_command] starts during a build are, one
    for one and in order, the commands noted in its trace: each with its
    command line adapted to the platform, its working directory, and the
    environment of the builder overridden by the variables handed to the
    call.  Nothing is started again behind a stage.  (The version query
    runs through [subprocess.run] and is not among them.) *)
Theorem processes_of_a_build w :
  trace w = [] -> spawned w = [] ->
  spawned (snd (run_build w))
  = map (fun e => spawn_of (config w) (e_call e)) (trace (snd (run_build w))).
Proof.
  intros Ht Hs. destruct (run_build_in_step w) as (_ & es & Ht' & Hs').
  rewrite Ht', Hs', Ht, Hs. reflexivity.
Qed.

Lemma processes_of_a_build_witness :
  spawned (snd (run_build failed_install_world))
  = map (fun e => spawn_of (config failed_install_world) (e_call e))
        (trace (snd (run_build failed_install_world))).
Proof. apply processes_of_a_build; reflexivity. Defined.

Lemma platform_cmd_tool is_win32 c :
  (head c = Some (u "npm") ->
   head (platform_cmd is_win32 c)
   = Some (if is_win32 then u "npm.cmd" else u "npm"))
  /\ (head c = Some (u "npx") ->
      head (platform_cmd is_win32 c)
      = Some (if is_win32 then u "npx.cmd" else u "npx")).
Proof.
  unfold platform_cmd.
  split; intros H; destruct c as [|c0 rest]; try discriminate;
    injection H as ->; destruct is_win32; reflexivity.
Qed.

(** X10: every process that [run_command] starts during a build is [npm]
    or [npx], started on Windows through [npm.cmd] or [npx.cmd] and
    elsewhere under its plain name. *)
Theorem processes_are_npm_or_npx w c dir env :
  trace w = [] -> spawned w = [] ->
  (c, dir, env) ∈ spawned (snd (run_build w)) ->
  head c = Some (if win32 (config w) then u "npm.cmd" else u "npm")
  \/ head c = Some (if win32 (config w) then u "npx.cmd" else u "npx").
Proof.
  intros Ht Hs Hin. destruct (run_build_shape w Ht) as [Hall _].
  destruct (run_build_in_step w) as (_ & es & Ht' & Hs').
  rewrite Ht in Ht'. rewrite Hs in Hs'. cbn [app] in *.
  rewrite Hs' in Hin. rewrite Ht' in Hall.
  apply list_elem_of_fmap in Hin as (e & Heq & He).
  rewrite Forall_forall in Hall. destruct (Hall _ He) as [_ Htool].
  unfold spawn_of in Heq. injection Heq as -> _ _.
  destruct (platform_cmd_tool (win32 (config w)) (cmd (e_call e))) as [H1 H2].
  destruct Htool as [H|H]; [left; apply H1 | right; apply H2]; exact H.
Qed.

Lemma processes_are_npm_or_npx_witness :
  head [u "npm.cmd"; u "install"]
  = Some (if win32 (config failed_install_world) then u "npm.cmd" else u "npm")
  \/ head [u "npm.cmd"; u "install"]
     = Some (if win32 (config failed_install_world) then u "npx.cmd" else u "npx").
Proof.
  refine (processes_are_npm_or_npx failed_install_world
            [u "npm.cmd"; u "install"] [] ∅ _ _ _).
  - reflexivity.
  - reflexivity.
  - apply (bool_decide_unpack _). vm_compute. exact I.
Defined.

(** ** Who kills a process *)

Lemma undisturbed_refl w : undisturbed w w.
Proof. intros H. auto. Qed.

Lemma undisturbed_trans w1 w2 w3 :
  undisturbed w1 w2 -> undisturbed w2 w3 -> undisturbed w1 w3.
Proof.
  intros H1 H2 H. destruct (H1 H) as (Hk1 & Hb1 & Hq1).
  destruct (H2 Hq1) as (Hk2 & Hb2 & Hq2).
  repeat split; [congruence | congruence | exact Hq2].
Qed.

Lemma undisturbed_frame f w :
  killed (f w) = killed w -> is_building (f w) = is_building w ->
  pending (f w) = pending w -> undisturbed w (f w).
Proof. intros Hk Hb Hp H. rewrite Hk, Hb, Hp. auto. Qed.

Lemma read_output_quiet evs :
  Forall (fun ev => ev <> StopPressed) evs ->
  forall w, killed (snd (read_output evs w)) = killed w
            /\ is_building (snd (read_output evs w)) = is_building w.
Proof.
  induction 1 as [|ev evs Hev _ IH]; intros w; [split; reflexivity|].
  destruct ev as [raw|]; [|congruence].
  destruct raw as [|c raw]; [split; reflexivity|].
  cbn [read_output]. unfold bind, get.
  destruct (negb (is_building w)); [split; reflexivity|].
  destruct (line_entry (c :: raw)) as [[message tag]|]; cbn;
    match goal with
    | |- context [read_output evs ?w0] => exact (IH w0)
    end.
Qed.

Lemma attempt_undisturbed s k c : keeps undisturbed (attempt s k c).
Proof.
  intros w Hq. destruct (run_command_result c w) as (_ & Hp & _ & _).
  assert (Hkb : killed (snd (run_command c w)) = killed w
                /\ is_building (snd (run_command c w)) = is_building w).
  { unfold run_command, bind, get, log, modify, Popen, wait, ret.
    cbn [fst snd pending set_log_queue set_spawned].
    destruct (pending w) as [|[msg|p] rest]; [split; reflexivity..|].
    inversion Hq as [|? ? Hp0 _]; subst. cbn [quiet] in Hp0.
    match goal with
    | |- context [read_output ?evs ?w0] =>
        destruct (read_output_quiet evs Hp0 w0) as [H1 H2];
        destruct (read_output evs w0) as [[] w1]
    end.
    cbn in *. auto. }
  unfold attempt, bind, modify, ret.
  destruct (run_command c w) as [ok w1]. cbn [fst snd] in *.
  destruct Hkb as [Hk Hb]. cbn. rewrite Hp.
  repeat split; [exact Hk | exact Hb |].
  destruct (pending w); [constructor | inversion Hq; assumption].
Qed.

(** X8: the worker kills no process and does not lower the flag
    [is_building] by itself: in a build during which the stop button is not
    pressed, no process is asked to die and the flag is as it was. *)
Theorem worker_kills_nothing w :
  Forall quiet (pending w) ->
  killed (snd (run_build w)) = killed w
  /\ is_building (snd (run_build w)) = is_building w.
Proof.
  intros Hq.
  assert (H : keeps undisturbed run_build).
  { apply run_build_kept;
      first [ exact undisturbed_refl | exact undisturbed_trans
            | exact attempt_undisturbed
            | intros; apply (undisturbed_frame (fun w => _)); reflexivity ]. }
  destruct (H w Hq) as (Hk & Hb & _). auto.
Qed.

Lemma worker_kills_nothing_witness :
  killed (snd (run_build failed_install_world)) = killed failed_install_world.
Proof.
  refine (proj1 (worker_kills_nothing failed_install_world _)).
  repeat constructor; discriminate.
Defined.

(** ** The model on small inputs *)

Example classify_examples :
  classify (u "npm ERR! code 1") = info
  /\ classify (u "Error: Cannot find module") = error
  /\ classify (u "  ⨯ cannot execute") = error
  /\ classify (u "npm WARN deprecated") = warning
  /\ classify (u "warning: error ahead") = error.
Proof. repeat split; vm_compute; reflexivity. Qed.

Example rstrip_examples :
  rstrip (u "done  ") = u "done"
  /\ rstrip [32%N; 9%N; 10%N] = []
  /\ rstrip (u " a b ") = u " a b".
Proof. repeat split; vm_compute; reflexivity. Qed.

Example rglob_order :
  rglob win_unpacked (u "server.js") nested_root
  = [win_unpacked ++ [u "resources"; u "app"; u "server.js"];
     win_unpacked ++ [u "resources"; u "app"; u "app"; u "server.js"]].
Proof. vm_compute. reflexivity. Qed.

Example third_attempt_run :
  skeleton (trace (snd (step4_rebuild None third_attempt_world)))
  = [(Rebuild, 1, false); (Rebuild, 2, false); (Rebuild, 3, true)].
Proof. vm_compute. reflexivity. Qed.

Example queue_interleaving :
  run_ops [DoGet; DoPut (u "E1", info); DoGet; DoPut (u "E2", info);
           DoPut (u "E3", info); DoGet; DoGet; DoGet] []
  = ([(u "E1", info); (u "E2", info); (u "E3", info)], []).
Proof. vm_compute. reflexivity. Qed.
